(** * Task analyzer: the scoring core of [backend/tasks/scoring.py]

    A shallow embedding of the ranking engine (normalisers, dependency graph,
    cycle detection, factor and strategy scorers, [analyze_tasks]) and the
    properties of it that the specification states.

    Conventions of the embedding.
    - A task is a Python [dict] with string keys: [gmap string pyval].
    - Python values are the ones a deserialised request can hold: [None],
      booleans, integers, floats, strings, dates and flat lists.
    - A Python [float] is modelled by an exact rational ([Q]); NaN and the
      infinities are outside the model, and so is binary rounding.
    - [date.today()] reads the clock; the day it returns is the explicit
      argument [today] (a proleptic ordinal, as [date.toordinal]).
    - A raised exception is the [Raise] constructor of [except]; code that
      mutates the caller's dicts returns their state after the call. The
      dicts of a batch are distinct objects.
    - [list.sort] is the library's: it is modelled by a stable insertion
      sort over Python's tuple comparison. When every comparison it makes
      is defined, any stable sort returns the same list.
    - The interpreter's recursion limit is not modelled: [dfs] nests as
      deep as the graph asks. *)

From Stdlib Require Import ZArith QArith Qround Lia Lqa List Ascii String.
From stdpp Require Import gmap strings list fin_maps pretty sorting.

Local Open Scope string_scope.
Local Open Scope Z_scope.

(** ** Python values *)

Module Py.

(** Values that may be the items of a list. *)
Inductive atom : Type :=
  | ANone
  | ABool (b : bool)
  | AInt (z : Z)
  | AFloat (q : Q)
  | AStr (s : string).

Inductive pyval : Type :=
  | PAtom (a : atom)
  | PDate (ordinal : Z)
  | PList (items : list atom).

Coercion PAtom : atom >-> pyval.

Inductive pyerr : Type := TypeError | ValueError | KeyError.

Inductive except (A : Type) : Type :=
  | Ok (a : A)
  | Raise (e : pyerr).
Arguments Ok {A} a.
Arguments Raise {A} e.

(** Sequencing: the first exception raised ends the computation. *)
Definition bind {A B} (m : except A) (f : A -> except B) : except B :=
  match m with Ok a => f a | Raise e => Raise e end.

Definition emap {A B} (f : A -> B) (m : except A) : except B :=
  match m with Ok a => Ok (f a) | Raise e => Raise e end.

Definition is_ok {A} (m : except A) : bool :=
  match m with Ok _ => true | Raise _ => false end.

(** [bool(v)]: the truth value the operators [or], [and], [not] test. *)
Definition atom_truthy (a : atom) : bool :=
  match a with
  | ANone => false
  | ABool b => b
  | AInt z => negb (z =? 0)
  | AFloat q => negb (Qeq_bool q 0)
  | AStr s => negb (String.eqb s "")
  end.

Definition truthy (v : pyval) : bool :=
  match v with
  | PAtom a => atom_truthy a
  | PDate _ => true
  | PList l => match l with [] => false | _ => true end
  end.

(** The number a boolean, integer or float stands for in arithmetic and
    comparisons; [None] for the other atoms. *)
Definition atom_num (a : atom) : option Q :=
  match a with
  | ABool b => Some (inject_Z (Z.b2z b))
  | AInt z => Some (inject_Z z)
  | AFloat q => Some q
  | _ => None
  end.

(** *** [str(v)] *)

Fixpoint frac_digits (fuel : nat) (r : Z) (d : Z) : string :=
  match fuel with
  | O => ""
  | S f =>
      if r =? 0 then ""
      else pretty (r * 10 / d) +:+ frac_digits f (r * 10 mod d) d
  end.

(** [repr] of a float in plain decimal notation: integer part, a point and
    at least one fractional digit (at most 16 are produced). *)
Definition str_float (q : Q) : string :=
  let n := Z.abs (Qnum q) in
  let d := Zpos (Qden q) in
  let frac := frac_digits 16 (n mod d) d in
  (if Qnum q <? 0 then "-" else "")
    +:+ pretty (n / d) +:+ "." +:+ (if String.eqb frac "" then "0" else frac).

Definition str_atom (a : atom) : string :=
  match a with
  | ANone => "None"
  | ABool b => if b then "True" else "False"
  | AInt z => pretty z
  | AFloat q => str_float q
  | AStr s => s
  end.

(** *** [int(v)] *)

Definition is_space (c : ascii) : bool :=
  let n := nat_of_ascii c in
  ((9 <=? n) && (n <=? 13))%nat || (n =? 32)%nat.

Definition digit_of (c : ascii) : option Z :=
  let n := nat_of_ascii c in
  if ((48 <=? n) && (n <=? 57))%nat then Some (Z.of_nat n - 48) else None.

Fixpoint lstrip (s : string) : string :=
  match s with
  | String c s' => if is_space c then lstrip s' else s
  | EmptyString => s
  end.

Definition strip (s : string) : string :=
  String.rev (lstrip (String.rev (lstrip s))).

(** Digits with single underscores between them, as the integer literal
    grammar of [int] allows; [acc] is the value read so far and [after_digit]
    tells whether the previous character was a digit. *)
Fixpoint parse_digits (s : string) (acc : Z) (after_digit : bool) : option Z :=
  match s with
  | EmptyString => if after_digit then Some acc else None
  | String c s' =>
      match digit_of c with
      | Some d => parse_digits s' (acc * 10 + d) true
      | None =>
          if Ascii.eqb c "_"%char && after_digit
          then match s' with
               | String c' _ =>
                   match digit_of c' with
                   | Some _ => parse_digits s' acc false
                   | None => None
                   end
               | EmptyString => None
               end
          else None
      end
  end.

Definition parse_int (s : string) : option Z :=
  match strip s with
  | String "-" s' => Z.opp <$> parse_digits s' 0 false
  | String "+" s' => parse_digits s' 0 false
  | s' => parse_digits s' 0 false
  end.

(** [int(v)]: [TypeError] for a value of no numeric or string type,
    [ValueError] for a string that is not an integer literal; a float is
    truncated towards zero. *)
Definition py_int (v : pyval) : except Z :=
  match v with
  | PAtom ANone => Raise TypeError
  | PAtom (ABool b) => Ok (Z.b2z b)
  | PAtom (AInt z) => Ok z
  | PAtom (AFloat q) => Ok (Z.quot (Qnum q) (Zpos (Qden q)))
  | PAtom (AStr s) =>
      match parse_int s with Some z => Ok z | None => Raise ValueError end
  | PDate _ => Raise TypeError
  | PList _ => Raise TypeError
  end.

(** *** [==] and [<] *)

Definition atom_eqb (a b : atom) : bool :=
  match atom_num a, atom_num b with
  | Some x, Some y => Qeq_bool x y
  | _, _ =>
      match a, b with
      | ANone, ANone => true
      | AStr s, AStr t => String.eqb s t
      | _, _ => false
      end
  end.

Fixpoint atoms_eqb (l m : list atom) : bool :=
  match l, m with
  | [], [] => true
  | a :: l', b :: m' => atom_eqb a b && atoms_eqb l' m'
  | _, _ => false
  end.

Definition py_eqb (v w : pyval) : bool :=
  match v, w with
  | PAtom a, PAtom b => atom_eqb a b
  | PDate x, PDate y => x =? y
  | PList l, PList m => atoms_eqb l m
  | _, _ => false
  end.

Definition Qltb (x y : Q) : bool := negb (Qle_bool y x).

(** [a < b]: numbers compare by value, strings by code point; every other
    pairing is the [TypeError] "'<' not supported between instances". *)
Definition atom_lt (a b : atom) : except bool :=
  match atom_num a, atom_num b with
  | Some x, Some y => Ok (Qltb x y)
  | _, _ =>
      match a, b with
      | AStr s, AStr t => Ok (String.ltb s t)
      | _, _ => Raise TypeError
      end
  end.

(** Lists compare at the first pair of items that are not [==]; when one is
    a prefix of the other the shorter is the smaller. *)
Fixpoint atoms_lt (l m : list atom) : except bool :=
  match l, m with
  | [], [] => Ok false
  | [], _ :: _ => Ok true
  | _ :: _, [] => Ok false
  | a :: l', b :: m' => if atom_eqb a b then atoms_lt l' m' else atom_lt a b
  end.

Definition py_lt (v w : pyval) : except bool :=
  match v, w with
  | PAtom a, PAtom b => atom_lt a b
  | PDate x, PDate y => Ok (x <? y)
  | PList l, PList m => atoms_lt l m
  | _, _ => Raise TypeError
  end.

End Py.
Export Py.

Notation "x <- m ;; k" := (bind m (fun x => k))
  (at level 20, m at level 99, k at level 200, only parsing).
Notation "' p <- m ;; k" := (bind m (fun p => k))
  (at level 20, p pattern, m at level 99, k at level 200, only parsing).

(** ** Dictionaries *)

(** A task record: a [dict] with string keys. *)
Abbreviation pydict := (gmap string pyval).

(** [d.get(key)]: [None] when the key is missing. *)
Definition dict_get (d : pydict) (key : string) : pyval :=
  default (PAtom ANone) (d !! key).

(** [d[key]]: [KeyError] when the key is missing. *)
Definition subscript (d : pydict) (key : string) : except pyval :=
  match d !! key with Some v => Ok v | None => Raise KeyError end.

(** Keys of the graph, of the dependents count and of the cycle set. A
    dict or set finds a key by hash and [==], so [True], [1] and [1.0] are
    one key: a number is kept as its reduced fraction. *)
Inductive pykey : Type :=
  | KNone
  | KNum (num : Z) (den : positive)
  | KStr (s : string)
  | KDate (ordinal : Z).

#[global] Instance pykey_eq_dec : EqDecision pykey.
Proof. solve_decision. Defined.

#[global] Instance pykey_countable : Countable pykey.
Proof.
  refine (inj_countable'
    (fun k => match k with
              | KNone => inl ()
              | KNum n d => inr (inl (n, d))
              | KStr s => inr (inr (inl s))
              | KDate o => inr (inr (inr o))
              end)
    (fun x => match x with
              | inl _ => KNone
              | inr (inl (n, d)) => KNum n d
              | inr (inr (inl s)) => KStr s
              | inr (inr (inr o)) => KDate o
              end) _).
  by intros [].
Defined.

(** [hash(v)] followed by the key the dict keeps: a list is unhashable. *)
Definition key_of (v : pyval) : except pykey :=
  match v with
  | PAtom ANone => Ok KNone
  | PAtom (ABool b) => Ok (KNum (Z.b2z b) 1)
  | PAtom (AInt z) => Ok (KNum z 1)
  | PAtom (AFloat q) => Ok (KNum (Qnum (Qred q)) (Qden (Qred q)))
  | PAtom (AStr s) => Ok (KStr s)
  | PDate o => Ok (KDate o)
  | PList _ => Raise TypeError
  end.

(** The adjacency dict, in insertion order: assigning to a key that is
    present keeps its place, a new key goes last. *)
Abbreviation graph := (list (pykey * list string)).

Fixpoint graph_set (k : pykey) (v : list string) (g : graph) : graph :=
  match g with
  | [] => [(k, v)]
  | (k', v') :: g' =>
      if decide (k = k') then (k, v) :: g' else (k', v') :: graph_set k v g'
  end.

Fixpoint graph_lookup (g : graph) (k : pykey) : option (list string) :=
  match g with
  | [] => None
  | (k', v') :: g' => if decide (k = k') then Some v' else graph_lookup g' k
  end.

(** [graph.get(node, [])] *)
Definition graph_get (g : graph) (node : pykey) : list string :=
  default [] (graph_lookup g node).

Definition graph_keys (g : graph) : list pykey := g.*1.

(** ** Configuration *)

Definition SMART_WEIGHTS : gmap string Q :=
  <["importance" := 4 # 10]>
    (<["urgency" := 3 # 10]>
       (<["effort" := 2 # 10]> (<["dependencies" := 1 # 10]> ∅))).

Definition FASTEST_WINS_WEIGHT_EFFORT : Q := 7 # 10.
Definition FASTEST_WINS_WEIGHT_URGENCY : Q := 2 # 10.
Definition FASTEST_WINS_WEIGHT_IMPORTANCE : Q := 1 # 10.

Definition DEADLINE_DRIVEN_WEIGHT_URGENCY : Q := 7 # 10.
Definition DEADLINE_DRIVEN_WEIGHT_IMPORTANCE : Q := 3 # 10.

Definition HIGH_IMPACT_WEIGHT_IMPORTANCE : Q := 1.

(** ** Helper functions *)

Definition clamp (value minimum maximum : Z) : Z :=
  Z.max minimum (Z.min value maximum).

(** [None] for a falsy argument; a truthy one must be a date, since
    [d - today] is a [TypeError] for every other type. *)
Definition safe_days_until_due (today : Z) (d : pyval) : except (option Z) :=
  if negb (truthy d) then Ok None
  else match d with
       | PDate o => Ok (Some (o - today))
       | _ => Raise TypeError
       end.

Definition compute_urgency_score (today : Z) (due : pyval)
  : except (Q * string) :=
  days <- safe_days_until_due today due;;
  match days with
  | None => Ok (5%Q, "neutral urgency (no due date)")
  | Some days =>
      if days <? 0 then
        let days_capped := Z.max days (-7) in
        let urgency := clamp (10 + days_capped) 7 10 in
        Ok (inject_Z urgency, "overdue by " +:+ pretty (- days) +:+ " days")
      else
        let raw := 10 - days in
        let urgency := clamp raw 0 10 in
        let reason :=
          if days =? 0 then "due today"
          else if days <=? 3 then "due soon (in " +:+ pretty days +:+ " days)"
          else "due in " +:+ pretty days +:+ " days" in
        Ok (inject_Z urgency, reason)
  end.

(** [hours <= 0] is a [TypeError] unless [hours] is a number. *)
Definition compute_effort_score (hours : pyval) : except (Q * string) :=
  match hours with
  | PAtom ANone => Ok (6%Q, "unknown effort (assumed medium)")
  | PAtom a =>
      match atom_num a with
      | None => Raise TypeError
      | Some h =>
          if Qle_bool h 0 then Ok (6%Q, "unknown effort (assumed medium)")
          else if Qle_bool h 1 then
            Ok (10%Q, "very low effort (~" +:+ str_atom a +:+ "h)")
          else if Qle_bool h 3 then
            Ok (8%Q, "low effort (~" +:+ str_atom a +:+ "h)")
          else if Qle_bool h 6 then
            Ok (6%Q, "medium effort (~" +:+ str_atom a +:+ "h)")
          else if Qle_bool h 10 then
            Ok (4%Q, "high effort (~" +:+ str_atom a +:+ "h)")
          else Ok (2%Q, "very high effort (~" +:+ str_atom a +:+ "h)")
      end
  | PDate _ | PList _ => Raise TypeError
  end.

Definition normalize_importance (importance : pyval) : except Z :=
  match py_int importance with
  | Ok value => Ok (clamp value 1 10)
  | Raise TypeError | Raise ValueError => Ok 5
  | Raise e => Raise e
  end.

(** ** Dependency graph *)

(** [task.get("id") or str(idx)] *)
Definition assign_id (idx : nat) (task : pydict) : pyval :=
  let v := dict_get task "id" in
  if truthy v then v else PAtom (AStr (pretty idx)).

(** First loop of [build_dependency_graph]. The dicts of the batch are
    mutated in place, so the batch after the loop is returned next to the
    result; when hashing an id raises, the tasks after it are untouched. *)
Fixpoint assign_ids (idx : nat) (tasks : list pydict)
    (id_to_deps : graph) (dependents_count : gmap pykey nat)
  : list pydict * except (graph * gmap pykey nat) :=
  match tasks with
  | [] => ([], Ok (id_to_deps, dependents_count))
  | task :: rest =>
      let task_id := assign_id idx task in
      let task' := <["_internal_id" := task_id]> task in
      match key_of task_id with
      | Raise e => (task' :: rest, Raise e)
      | Ok k =>
          let '(rest', r) :=
            assign_ids (S idx) rest
              (graph_set k [] id_to_deps) (<[k := 0%nat]> dependents_count) in
          (task' :: rest', r)
      end
  end.

(** [[str(d) for d in deps]]: a list yields its items, a string its
    characters, and nothing else here is iterable. *)
Definition norm_deps_of (deps : pyval) : except (list string) :=
  match deps with
  | PList l => Ok (str_atom <$> l)
  | PAtom (AStr s) => Ok ((fun c => String c "") <$> list_ascii_of_string s)
  | _ => Raise TypeError
  end.

(** [task.get("dependencies") or []], stringified. *)
Definition task_norm_deps (task : pydict) : except (list string) :=
  let deps := dict_get task "dependencies" in
  if truthy deps then norm_deps_of deps else Ok [].

(** One round of the inner loop: the count of [d] is created at 0 when
    missing, then incremented. *)
Definition count_dependent (dependents_count : gmap pykey nat) (d : string)
  : gmap pykey nat :=
  let dc :=
    match dependents_count !! KStr d with
    | None => <[KStr d := 0%nat]> dependents_count
    | Some _ => dependents_count
    end in
  <[KStr d := S (default 0%nat (dc !! KStr d))]> dc.

(** Second loop of [build_dependency_graph]. *)
Fixpoint fill_deps (tasks : list pydict)
    (id_to_deps : graph) (dependents_count : gmap pykey nat)
  : except (graph * gmap pykey nat) :=
  match tasks with
  | [] => Ok (id_to_deps, dependents_count)
  | task :: rest =>
      task_id <- subscript task "_internal_id";;
      norm_deps <- task_norm_deps task;;
      k <- key_of task_id;;
      fill_deps rest (graph_set k norm_deps id_to_deps)
        (foldl count_dependent dependents_count norm_deps)
  end.

Definition build_dependency_graph (tasks : list pydict)
  : list pydict * except (graph * gmap pykey nat) :=
  let '(tasks', r) := assign_ids 0 tasks [] ∅ in
  (tasks',
   '(id_to_deps, dependents_count) <- r;;
   fill_deps tasks' id_to_deps dependents_count).

(** ** Cycle detection *)

(** The three sets that the nested [dfs] closes over. *)
Record dfs_state : Type := DfsState {
  visited : gset pykey;
  on_stack : gset pykey;
  in_cycle : gset pykey;
}.

(** The [for neigh in ...] loop of [dfs]; [rec] is the recursive call. *)
Fixpoint dfs_neighbours (rec : pykey → dfs_state → option dfs_state)
    (node : pykey) (neighs : list pykey) (st : dfs_state)
  : option dfs_state :=
  match neighs with
  | [] => Some st
  | neigh :: rest =>
      if decide (neigh ∉ visited st) then
        st' ← rec neigh st; dfs_neighbours rec node rest st'
      else if decide (neigh ∈ on_stack st) then
        dfs_neighbours rec node rest
          (DfsState (visited st) (on_stack st)
             ({[neigh]} ∪ ({[node]} ∪ in_cycle st)))
      else dfs_neighbours rec node rest st
  end.

(** [dfs(node)]; [fuel] bounds the depth of the recursion, and [None] is
    the answer only when it runs out. *)
Fixpoint dfs (fuel : nat) (g : graph) (node : pykey) (st : dfs_state)
  : option dfs_state :=
  match fuel with
  | O => None
  | S fuel' =>
      if decide (node ∈ visited st) then Some st
      else
        let st1 :=
          DfsState ({[node]} ∪ visited st) ({[node]} ∪ on_stack st)
            (in_cycle st) in
        st2 ← dfs_neighbours (dfs fuel' g) node (KStr <$> graph_get g node) st1;
        Some (DfsState (visited st2) (on_stack st2 ∖ {[node]}) (in_cycle st2))
  end.

(** The [for node in graph.keys()] loop. *)
Fixpoint dfs_roots (fuel : nat) (g : graph) (nodes : list pykey)
    (st : dfs_state) : option dfs_state :=
  match nodes with
  | [] => Some st
  | node :: rest =>
      if decide (node ∉ visited st) then
        st' ← dfs fuel g node st; dfs_roots fuel g rest st'
      else dfs_roots fuel g rest st
  end.

(** Every node the traversal can reach: the keys and the dependency ids. *)
Definition graph_nodes (g : graph) : list pykey :=
  graph_keys g ++ (KStr <$> concat g.*2).

Definition run_dfs (g : graph) : option dfs_state :=
  dfs_roots (S (length (graph_nodes g))) g (graph_keys g)
    (DfsState ∅ ∅ ∅).

Definition detect_cycles (g : graph) : gset pykey :=
  match run_dfs g with
  | Some st => in_cycle st
  | None => ∅
  end.

(** ** Strategy scoring functions *)

Definition score_fastest_wins (importance urgency effort : Q) : Q :=
  (FASTEST_WINS_WEIGHT_EFFORT * effort
   + FASTEST_WINS_WEIGHT_URGENCY * urgency
   + FASTEST_WINS_WEIGHT_IMPORTANCE * importance)%Q.

Definition score_deadline_driven (importance urgency : Q) : Q :=
  (DEADLINE_DRIVEN_WEIGHT_URGENCY * urgency
   + DEADLINE_DRIVEN_WEIGHT_IMPORTANCE * importance)%Q.

Definition score_high_impact (importance : Q) : Q :=
  (HIGH_IMPACT_WEIGHT_IMPORTANCE * importance)%Q.

(** [w.get(key, 0.0)] *)
Definition weight_get (w : gmap string Q) (key : string) : Q :=
  default 0%Q (w !! key).

(** [weights or SMART_WEIGHTS]: [None] and the empty dict are both falsy. *)
Definition weights_or_default (weights : option (gmap string Q))
  : gmap string Q :=
  match weights with
  | None => SMART_WEIGHTS
  | Some w => if decide (w = ∅) then SMART_WEIGHTS else w
  end.

Definition score_smart_balance (importance urgency effort : Q) (blocks : nat)
    (weights : option (gmap string Q)) : Q :=
  let w := weights_or_default weights in
  (weight_get w "importance" * importance
   + weight_get w "urgency" * urgency
   + weight_get w "effort" * effort
   + weight_get w "dependencies" * inject_Z (Z.of_nat blocks))%Q.

(** ** Public API *)

Record ScoredTask : Type := MkScoredTask {
  task : pydict;
  score : Q;
  strategy : string;
  explanation : string;
  has_cycle : bool;
}.

(** [round(x, 2)]: to the nearest hundredth, a tie to the even one. *)
Definition py_round2 (x : Q) : Q :=
  let y := (x * 100)%Q in
  let lo := Qfloor y in
  let rest := (y - inject_Z lo)%Q in
  let n :=
    match (rest ?= 1 # 2)%Q with
    | Lt => lo
    | Gt => lo + 1
    | Eq => if Z.even lo then lo else lo + 1
    end in
  Qred (n # 100).

(** ["; ".join(bits)] *)
Fixpoint join (sep : string) (bits : list string) : string :=
  match bits with
  | [] => ""
  | [b] => b
  | b :: rest => b +:+ sep +:+ join sep rest
  end.

Definition strategy_score (strategy : string)
    (importance urgency effort : Q) (blocks : nat)
    (weights : option (gmap string Q)) : Q * string :=
  if String.eqb strategy "fastest_wins" then
    (score_fastest_wins importance urgency effort,
     "prioritized quick wins (low effort)")
  else if String.eqb strategy "high_impact" then
    (score_high_impact importance, "prioritized high importance")
  else if String.eqb strategy "deadline_driven" then
    (score_deadline_driven importance urgency, "prioritized close deadlines")
  else
    (score_smart_balance importance urgency effort blocks weights,
     "balanced importance, urgency, effort, and dependencies").

(** Compute score and explanation for a single task under a strategy. *)
Definition score_task (today : Z) (task : pydict) (strategy : string)
    (dependents_count : gmap pykey nat) (weights : option (gmap string Q))
    (in_cycle : gset pykey) : except ScoredTask :=
  let task_id := dict_get task "_internal_id" in
  n <- normalize_importance (dict_get task "importance");;
  let importance := inject_Z n in
  let due_date := dict_get task "due_date" in
  let hours := dict_get task "estimated_hours" in
  '(urgency, urgency_reason) <- compute_urgency_score today due_date;;
  '(effort, effort_reason) <- compute_effort_score hours;;
  k <- key_of task_id;;
  let blocks := default 0%nat (dependents_count !! k) in
  let '(score, lead) :=
    strategy_score strategy importance urgency effort blocks weights in
  let explanation_bits :=
    ([lead;
      "importance " +:+ str_float importance +:+ "/10";
      "urgency because it is " +:+ urgency_reason;
      effort_reason]
     ++ (if (0 <? blocks)%nat
         then ["unblocks " +:+ pretty blocks +:+ " other task(s)"]
         else []))%list in
  let cycle_flag :=
    bool_decide (in_cycle ≠ ∅) && bool_decide (k ∈ in_cycle) in
  let explanation_bits :=
    (explanation_bits
     ++ (if cycle_flag then ["involved in a circular dependency"]
         else []))%list in
  Ok (MkScoredTask task (py_round2 score) strategy
        (join "; " explanation_bits) cycle_flag).

(** *** [list.sort(key=..., reverse=True)]

    The library sort is stable, compares with [<] only and, for
    [reverse=True], sorts the reversed list and reverses the result. It is
    modelled by an insertion sort; a comparison that raises aborts it. *)
Section Sort.
Context {A : Type} (lt : A → A → except bool).

Fixpoint insert_sorted (x : A) (l : list A) : except (list A) :=
  match l with
  | [] => Ok [x]
  | y :: l' =>
      b <- lt y x;;
      if b : bool then emap (cons y) (insert_sorted x l')
      else Ok (x :: y :: l')
  end.

Fixpoint sort_ascending (l : list A) : except (list A) :=
  match l with
  | [] => Ok []
  | x :: l' => s <- sort_ascending l';; insert_sorted x s
  end.

Definition sort_reverse (l : list A) : except (list A) :=
  emap reverse (sort_ascending (reverse l)).
End Sort.

(** The key of the sort: [(st.score, st.task.get("importance", 0))]. *)
Definition sort_key (st : ScoredTask) : Q * pyval :=
  (score st, default (PAtom (AInt 0)) (task st !! "importance")).

(** [<] on two such tuples: the first components that are not [==]
    decide; equal tuples are not smaller. *)
Definition tuple_lt (a b : Q * pyval) : except bool :=
  if negb (Qeq_bool a.1 b.1) then Ok (Qltb a.1 b.1)
  else if negb (py_eqb a.2 b.2) then py_lt a.2 b.2
  else Ok false.

Definition scored_lt (a b : ScoredTask) : except bool :=
  tuple_lt (sort_key a) (sort_key b).

(** The plain dict returned for a scored task: a shallow copy without the
    internal id, with the four result fields set. *)
Definition to_record (st : ScoredTask) : pydict :=
  let t := delete "_internal_id" (task st) in
  let t := <["score" := PAtom (AFloat (score st))]> t in
  let t := <["strategy_used" := PAtom (AStr (strategy st))]> t in
  let t := <["explanation" := PAtom (AStr (explanation st))]> t in
  <["has_cycle" := PAtom (ABool (has_cycle st))]> t.

Fixpoint score_all (f : pydict → except ScoredTask) (tasks : list pydict)
  : except (list ScoredTask) :=
  match tasks with
  | [] => Ok []
  | task :: rest =>
      scored_task <- f task;;
      scored <- score_all f rest;;
      Ok (scored_task :: scored)
  end.

(** Main entry point: scores and sorts tasks. The first component is the
    caller's batch as the call leaves it. *)
Definition analyze_tasks (today : Z) (tasks : list pydict) (strategy : string)
    (weights : option (gmap string Q))
  : list pydict * except (list pydict) :=
  match tasks with
  | [] => ([], Ok [])
  | _ =>
      let '(tasks', built) := build_dependency_graph tasks in
      (tasks',
       '(graph, dependents) <- built;;
       let cycle_nodes := detect_cycles graph in
       scored <- score_all
         (fun task =>
            score_task today task strategy dependents weights cycle_nodes)
         tasks';;
       scored <- sort_reverse scored_lt scored;;
       Ok (to_record <$> scored))
  end.

(** [l[:limit]]: the first [limit] items; a negative limit counts from the
    end, and a limit beyond either end is clipped. *)
Definition slice_to {A} (limit : Z) (l : list A) : list A :=
  if limit <? 0 then take (Z.to_nat (Z.of_nat (length l) + limit)) l
  else take (Z.to_nat limit) l.

(** Convenience helper to get top-N tasks with scores: [analyze_tasks]
    without weights, then the slice. *)
Definition suggest_top_tasks (today : Z) (tasks : list pydict)
    (strategy : string) (limit : Z) : list pydict * except (list pydict) :=
  let '(tasks', analyzed) := analyze_tasks today tasks strategy None in
  (tasks', emap (slice_to limit) analyzed).

(** * Vocabulary of the properties *)

(** Inverts a hypothesis saying that a sequence of binds returned. *)
Ltac ok_inv H :=
  repeat match type of H with
  | bind ?m ?f = Ok ?b =>
      let a := fresh "a" in let Ha := fresh "Ha" in let H' := fresh in
      assert (exists x, m = Ok x /\ f x = Ok b) as (a & Ha & H')
        by (destruct m; [eauto | discriminate H]);
      clear H; rename H' into H; cbv beta in H
  | emap ?f ?m = Ok ?b =>
      let a := fresh "a" in let Ha := fresh "Ha" in let H' := fresh in
      assert (exists x, m = Ok x /\ b = f x) as (a & Ha & H')
        by (destruct m; [injection H as <-; eauto | discriminate H]);
      clear H; rename H' into H
  | (let '(_, _) := ?p in _) = Ok _ => destruct p
  end.

(** In an ascending result no element is smaller than the one before. *)
Definition not_after {A} (lt : A -> A -> except bool) (a b : A) : Prop :=
  lt b a = Ok false.

(** [y] is one of the dependency ids that [x] maps to in the graph. *)
Definition edge (g : graph) (x y : pykey) : Prop :=
  y ∈ KStr <$> graph_get g x.

Definition node_set (g : graph) : gset pykey := list_to_set (graph_nodes g).

(** The invariant of the traversal: the stack holds visited nodes, and a
    node whose call has ended is marked, with its partner, for every edge
    that goes to a node with an edge back. *)
Definition dfs_inv (g : graph) (st : dfs_state) : Prop :=
  on_stack st ⊆ visited st /\
  forall x y, x ∈ visited st -> x ∉ on_stack st ->
    edge g x y -> edge g y x -> x ∈ in_cycle st /\ y ∈ in_cycle st.

(** What a call of [dfs] on [node] from [st] guarantees of [st']. *)
Definition dfs_post (g : graph) (node : pykey) (st st' : dfs_state) : Prop :=
  visited st ⊆ visited st' /\ node ∈ visited st' /\
  on_stack st' = on_stack st /\ in_cycle st ⊆ in_cycle st' /\
  dfs_inv g st'.

Definition dfs_returns (g : graph) (fuel : nat)
    (rec : pykey -> dfs_state -> option dfs_state) : Prop :=
  forall node st,
    node ∈ node_set g -> (size (node_set g ∖ visited st) < fuel)%nat ->
    dfs_inv g st ->
    exists st', rec node st = Some st' /\ dfs_post g node st st'.

(** [==] on the tuples that the sort compares. *)
Definition tuple_eqb (a b : Q * pyval) : bool :=
  Qeq_bool a.1 b.1 && py_eqb a.2 b.2.

(** The batch as the first loop of [build_dependency_graph] leaves it. *)
Fixpoint with_ids (idx : nat) (tasks : list pydict) : list pydict :=
  match tasks with
  | [] => []
  | task :: rest =>
      <["_internal_id" := assign_id idx task]> task :: with_ids (S idx) rest
  end.

(** The key under which a task with its internal id stands in the graph. *)
Definition task_key (task : pydict) : except pykey :=
  key_of (dict_get task "_internal_id").

(** A task's entry of the graph: its key and its stringified dependencies. *)
Definition task_entry (task : pydict) (e : pykey * list string) : Prop :=
  task_key task = Ok e.1 /\ task_norm_deps task = Ok e.2.

Definition graph_fill (g : graph) (es : list (pykey * list string)) : graph :=
  foldl (fun g e => graph_set e.1 e.2 g) g es.

Definition counts_init (dc : gmap pykey nat) (ks : list pykey)
  : gmap pykey nat :=
  foldl (fun dc k => <[k := 0%nat]> dc) dc ks.

Definition counts_fill (dc : gmap pykey nat) (es : list (pykey * list string))
  : gmap pykey nat :=
  foldl (fun dc e => foldl count_dependent dc e.2) dc es.

(** The count that [.get(k, 0)] reads. *)
Definition count_get (dc : gmap pykey nat) (k : pykey) : nat :=
  default 0%nat (dc !! k).

Definition due_date_ok (v : pyval) : bool :=
  negb (truthy v) || match v with PDate _ => true | _ => false end.

Definition hours_ok (v : pyval) : bool :=
  match v with
  | PAtom ANone => true
  | PAtom a => bool_decide (is_Some (atom_num a))
  | _ => false
  end.


(** The graph and the dependents count of a batch with the entries [es]. *)
Definition batch_graph (es : list (pykey * list string)) : graph :=
  graph_fill (graph_fill [] ((fun k => (k, [])) <$> es.*1)) es.

Definition batch_counts (es : list (pykey * list string)) : gmap pykey nat :=
  counts_fill (counts_init ∅ es.*1) es.

(** The scored tasks of a batch, in input order. *)
Definition batch_scored (today : Z) (s : string) (w : option (gmap string Q))
    (es : list (pykey * list string)) (tasks' : list pydict)
    (scored : list ScoredTask) : Prop :=
  Forall2 (fun t st =>
             score_task today t s (batch_counts es) w
               (detect_cycles (batch_graph es)) = Ok st)
    tasks' scored.

(** Batches used to exercise the theorems on concrete input. *)
Definition task_a : pydict :=
  {[ "id" := PAtom (AStr "a"); "importance" := PAtom (AInt 8);
     "due_date" := PDate 103; "estimated_hours" := PAtom (AInt 2);
     "dependencies" := PList [AStr "b"] ]}.

Definition task_b : pydict :=
  {[ "id" := PAtom (AStr "b"); "importance" := PAtom (AInt 3);
     "dependencies" := PList [AStr "a"] ]}.

Definition task_c : pydict :=
  {[ "importance" := PAtom (AStr "high"); "due_date" := PDate 90 ]}.

Definition example_batch : list pydict := [task_a; task_b; task_c].

(** The result of a call, or the empty list when it raised. *)
Definition returned (r : list pydict * except (list pydict)) : list pydict :=
  match r.2 with Ok out => out | Raise _ => [] end.

Definition task_lists_b : pydict :=
  {[ "id" := PAtom (AStr "A"); "dependencies" := PList [AStr "B"] ]}.

Definition task_lists_nothing : pydict := {[ "id" := PAtom (AStr "B") ]}.

Definition task_one : pydict := {[ "id" := PAtom (AStr "one") ]}.

Definition task_no_id : pydict := {[ "importance" := PAtom (AInt 4) ]}.

Definition task_id_1 : pydict := {[ "id" := PAtom (AStr "1") ]}.

(** The record of the task [t] in [out] says that [t] is in a cycle. *)
Definition cycle_flagged (out : list pydict) (t : pydict) : Prop :=
  exists (r : pydict) (lead : string),
    r ∈ out /\
    (forall key,
       key ∉ ["_internal_id"; "score"; "strategy_used"; "explanation";
              "has_cycle"] -> r !! key = t !! key) /\
    r !! "has_cycle" = Some (PAtom (ABool true)) /\
    r !! "explanation"
    = Some (PAtom (AStr (lead +:+ "; " +:+ "involved in a circular dependency"))).

Definition task_a_again : pydict :=
  {[ "id" := PAtom (AStr "a"); "importance" := PAtom (AInt 1) ]}.

(** The sort key, read from a returned record. *)
Definition record_key (r : pydict) : Q * pyval :=
  (match r !! "score" with Some (PAtom (AFloat q)) => q | _ => 0%Q end,
   default (PAtom (AInt 0)) (r !! "importance")).

(** [a] does not sort before [b]: the key of [a] is not smaller. *)
Definition not_smaller (a b : pydict) : Prop :=
  tuple_lt (record_key a) (record_key b) = Ok false.

(** The records whose key is [==] to [k]. *)
Definition with_key (k : Q * pyval) (rs : list pydict) : list pydict :=
  filter (fun r => tuple_eqb k (record_key r) = true) rs.

(** The number that a key component stands for, when it is a number. *)
Definition pyval_num (v : pyval) : option Q :=
  match v with PAtom a => atom_num a | _ => None end.

(** The importance that the sort reads from the record is a number. *)
Definition numeric_importance (r : pydict) : Prop :=
  is_Some (pyval_num (record_key r).2).

Definition tie_first : pydict :=
  {[ "id" := PAtom (AStr "x"); "importance" := PAtom (AInt 5) ]}.

Definition tie_second : pydict :=
  {[ "id" := PAtom (AStr "y"); "importance" := PAtom (AInt 5) ]}.

Definition top_task : pydict :=
  {[ "id" := PAtom (AStr "z"); "importance" := PAtom (AInt 9) ]}.

(** A truthy id must be hashable: it becomes a key of the graph. *)
Definition hashable_id (v : pyval) : bool :=
  match v with PList (_ :: _) => false | _ => true end.

(** Truthy dependencies must be iterable. *)
Definition dependencies_ok (v : pyval) : bool :=
  negb (truthy v)
  || match v with PList _ | PAtom (AStr _) => true | _ => false end.

(** The fields of the task have the types that the code handles: the id is
    missing, falsy or hashable; the due date missing, falsy or a date; the
    estimated hours missing, [None] or a number; the dependencies missing,
    falsy, a list or a string. Nothing is asked of the importance. *)
Definition well_typed_task (t : pydict) : bool :=
  hashable_id (dict_get t "id")
  && due_date_ok (dict_get t "due_date")
  && hours_ok (dict_get t "estimated_hours")
  && dependencies_ok (dict_get t "dependencies").







(** [x] lies on a cycle of the graph: a walk of one edge or more leads
    from [x] back to [x]. *)
Definition on_cycle (g : graph) (x : pykey) : Prop := tc (edge g) x x.

(** What the traversal keeps about the nodes it marks: the stack holds
    visited nodes, every node of the stack reaches [cur], the node being
    explored, and every marked node lies on a cycle. *)
Definition dfs_sound_pre (g : graph) (cur : pykey) (st : dfs_state) : Prop :=
  on_stack st ⊆ visited st /\
  (forall x, x ∈ on_stack st -> rtc (edge g) x cur) /\
  (forall x, x ∈ in_cycle st -> on_cycle g x).

Definition dfs_sound_post (g : graph) (st st' : dfs_state) : Prop :=
  on_stack st' = on_stack st /\ visited st ⊆ visited st' /\
  (forall x, x ∈ in_cycle st' -> on_cycle g x).

(** The number of hundredths that [round(x, 2)] keeps. *)
Definition round_cents (x : Q) : Z :=
  let y := (x * 100)%Q in
  let lo := Qfloor y in
  let rest := (y - inject_Z lo)%Q in
  match (rest ?= 1 # 2)%Q with
  | Lt => lo
  | Gt => lo + 1
  | Eq => if Z.even lo then lo else lo + 1
  end.

(** The score that a returned record shows. *)
Definition record_score (r : pydict) : Q := (record_key r).1.

(** The record [r] is the one of the task [t]: it has the fields of [t]. *)
Definition record_of (t r : pydict) : Prop :=
  forall key,
    key ∉ ["_internal_id"; "score"; "strategy_used"; "explanation";
           "has_cycle"] -> r !! key = t !! key.

(** In [out] the record of [t1] stands before the record of [t2]. *)
Definition ranks_before (out : list pydict) (t1 t2 : pydict) : Prop :=
  exists (p q : nat) (r1 r2 : pydict),
    out !! p = Some r1 /\ out !! q = Some r2 /\ (p < q)%nat /\
    record_of t1 r1 /\ record_of t2 r2.

Definition task_due_soon : pydict :=
  {[ "id" := PAtom (AStr "soon"); "importance" := PAtom (AInt 5);
     "due_date" := PDate 102 ]}.

Definition task_due_later : pydict :=
  {[ "id" := PAtom (AStr "later"); "importance" := PAtom (AInt 5);
     "due_date" := PDate 107 ]}.

Definition task_quick : pydict :=
  {[ "id" := PAtom (AStr "quick"); "importance" := PAtom (AInt 5);
     "estimated_hours" := PAtom (AInt 1) ]}.

Definition task_long : pydict :=
  {[ "id" := PAtom (AStr "long"); "importance" := PAtom (AInt 5);
     "estimated_hours" := PAtom (AInt 8) ]}.

Definition task_id_int_1 : pydict :=
  {[ "id" := PAtom (AInt 1); "dependencies" := PList [AInt 2] ]}.

Definition task_id_int_2 : pydict :=
  {[ "id" := PAtom (AInt 2); "dependencies" := PList [AInt 1] ]}.

Definition task_blocker : pydict :=
  {[ "id" := PAtom (AStr "base"); "importance" := PAtom (AInt 5) ]}.

Definition task_free : pydict :=
  {[ "id" := PAtom (AStr "free"); "importance" := PAtom (AInt 5) ]}.

Definition task_blocked : pydict :=
  {[ "id" := PAtom (AStr "top"); "importance" := PAtom (AInt 1);
     "dependencies" := PList [AStr "base"] ]}.

(** The entries of a ring of tasks: each lists the next one as its only
    dependency, the last one lists [first]. *)
Fixpoint ring_entries (first : string) (ids : list string) : graph :=
  match ids with
  | [] => []
  | x :: rest => (KStr x, [hd first rest]) :: ring_entries first rest
  end.

Definition ring_graph (first : string) (others : list string) : graph :=
  ring_entries first (first :: others).

(** The last id of the ring [x :: rest]. *)
Fixpoint ring_last (x : string) (rest : list string) : string :=
  match rest with
  | [] => x
  | y :: rest' => ring_last y rest'
  end.

(** The keys of a list of ids. *)
Definition key_set (ids : list string) : gset pykey :=
  list_to_set (KStr <$> ids).

(** The task [t] is the member of a ring that has the entry [e]: its id is
    a non-empty string and its dependencies are the one id of the entry. *)
Definition ring_member (t : pydict) (e : pykey * list string) : Prop :=
  exists x next,
    e = (KStr x, [next]) /\ x <> "" /\
    dict_get t "id" = PAtom (AStr x) /\
    dict_get t "dependencies" = PList [AStr next].

Definition ring_task (x next : string) : pydict :=
  {[ "id" := PAtom (AStr x); "dependencies" := PList [AStr next] ]}.

(** * Properties *)

(** ** The exception monad *)

Lemma bind_ok {A B} (m : except A) (f : A -> except B) (b : B) :
  bind m f = Ok b -> exists a, m = Ok a /\ f a = Ok b.
Proof. destruct m as [a|e]; simpl; [eauto | discriminate]. Qed.

Lemma emap_ok {A B} (f : A -> B) (m : except A) (b : B) :
  emap f m = Ok b -> exists a, m = Ok a /\ b = f a.
Proof. destruct m as [a|e]; simpl; [|discriminate]. intros [= <-]. eauto. Qed.

(** ** Cycle detection *)

Lemma graph_get_concat (g : graph) (x : pykey) (d : string) :
  d ∈ graph_get g x -> d ∈ concat g.*2.
Proof.
  unfold graph_get. induction g as [|[k v] g' IH]; simpl.
  - intros H. by apply elem_of_nil in H.
  - destruct (decide (x = k)); simpl; intros H.
    + apply elem_of_app. by left.
    + apply elem_of_app. right. by apply IH.
Qed.

Lemma edge_target_node (g : graph) (x y : pykey) :
  edge g x y -> y ∈ node_set g.
Proof.
  unfold edge, node_set, graph_nodes. intros H.
  apply list_elem_of_fmap in H as (d & -> & Hd).
  apply elem_of_list_to_set, elem_of_app. right.
  apply list_elem_of_fmap. eauto using graph_get_concat.
Qed.

Lemma key_node (g : graph) (x : pykey) :
  x ∈ graph_keys g -> x ∈ node_set g.
Proof. intros H. apply elem_of_list_to_set, elem_of_app. by left. Qed.

Lemma size_unvisited_mono (U V V' : gset pykey) (n : nat) :
  V ⊆ V' -> (size (U ∖ V) < n)%nat -> (size (U ∖ V') < n)%nat.
Proof.
  intros HV Hn. eapply Nat.le_lt_trans; [|exact Hn].
  apply subseteq_size. set_solver.
Qed.

Lemma size_unvisited_step (U V : gset pykey) (x : pykey) (n : nat) :
  x ∈ U -> x ∉ V -> (size (U ∖ V) < S n)%nat ->
  (size (U ∖ ({[x]} ∪ V)) < n)%nat.
Proof.
  intros HU HV Hn.
  assert (size (U ∖ ({[x]} ∪ V)) < size (U ∖ V))%nat; [|lia].
  apply subset_size. set_solver.
Qed.

Lemma size_list_to_set_le (l : list pykey) :
  (size (list_to_set l : gset pykey) <= length l)%nat.
Proof.
  induction l as [|x l IH].
  - by rewrite list_to_set_nil, size_empty.
  - rewrite list_to_set_cons. simpl.
    rewrite size_union_alt, size_singleton.
    assert (size (list_to_set l ∖ ({[x]} : gset pykey)) <= size (list_to_set l : gset pykey))%nat
      by (apply subseteq_size; set_solver).
    lia.
Qed.

Lemma dfs_inv_mark (g : graph) (st : dfs_state) (x y : pykey) :
  dfs_inv g st ->
  dfs_inv g (DfsState (visited st) (on_stack st)
               ({[y]} ∪ ({[x]} ∪ in_cycle st))).
Proof.
  intros [Hsub Hfin]. split; [done|]. simpl. intros a b Ha Has Hab Hba.
  destruct (Hfin a b) as [H1 H2]; try done.
  split; apply elem_of_union_r, elem_of_union_r; done.
Qed.

Lemma dfs_neighbours_spec (g : graph) (fuel : nat) rec (node : pykey) :
  dfs_returns g fuel rec ->
  forall neighs st,
    (forall y, y ∈ neighs -> edge g node y) ->
    (size (node_set g ∖ visited st) < fuel)%nat ->
    node ∈ on_stack st -> dfs_inv g st ->
    exists st',
      dfs_neighbours rec node neighs st = Some st' /\
      visited st ⊆ visited st' /\ on_stack st' = on_stack st /\
      in_cycle st ⊆ in_cycle st' /\ dfs_inv g st' /\
      forall y, y ∈ neighs ->
        edge g y node -> node ∈ in_cycle st' /\ y ∈ in_cycle st'.
Proof.
  intros Hrec. induction neighs as [|y rest IH];
    intros st Hedge Hfuel Hnode Hinv.
  { exists st. simpl. split_and!; try done.
    intros y Hy. by apply elem_of_nil in Hy. }
  assert (Hy : edge g node y) by (apply Hedge; left).
  assert (Hrest : forall z, z ∈ rest -> edge g node z)
    by (intros z Hz; apply Hedge; by right).
  simpl. destruct (decide (y ∉ visited st)) as [Hnv|Hv].
  - (* the neighbour is new: recursive call *)
    destruct (Hrec y st) as (st1 & -> & HV & HyV & HS & HC & Hinv1);
      [by eapply edge_target_node | done | done |].
    simpl.
    destruct (IH st1) as (st2 & -> & HV2 & HS2 & HC2 & Hinv2 & Hmark);
      [done | by eapply size_unvisited_mono | by rewrite HS | done |].
    exists st2. split_and!; [done | by etrans | congruence | by etrans | done |].
    intros z Hz Hback. apply elem_of_cons in Hz as [->|Hz]; [|by apply Hmark].
    destruct Hinv as [Hsub _]. destruct Hinv1 as [_ Hfin].
    destruct (Hfin y node) as [H1 H2]; [done | | done | done |].
    + rewrite HS. intros Hys. apply Hnv. by apply Hsub.
    + split; by apply HC2.
  - apply dec_stable in Hv.
    destruct (decide (y ∈ on_stack st)) as [Hs|Hns].
    + (* a back edge: mark both ends *)
      destruct (IH (DfsState (visited st) (on_stack st)
                      ({[y]} ∪ ({[node]} ∪ in_cycle st))))
        as (st2 & -> & HV2 & HS2 & HC2 & Hinv2 & Hmark);
        [done | done | done | by apply dfs_inv_mark |].
      simpl in *. exists st2. split_and!; try done.
      * etrans; [|exact HC2]. intros a Ha. by do 2 apply elem_of_union_r.
      * intros z Hz Hback.
        apply elem_of_cons in Hz as [->|Hz]; [|by apply Hmark].
        split; apply HC2.
        -- apply elem_of_union_r, elem_of_union_l. by apply elem_of_singleton.
        -- apply elem_of_union_l. by apply elem_of_singleton.
    + (* the neighbour's call has ended *)
      destruct (IH st) as (st2 & -> & HV2 & HS2 & HC2 & Hinv2 & Hmark);
        [done | done | done | done |].
      exists st2. split_and!; try done.
      intros z Hz Hback.
      apply elem_of_cons in Hz as [->|Hz]; [|by apply Hmark].
      destruct Hinv as [_ Hfin].
      destruct (Hfin y node) as [H1 H2]; try done. split; by apply HC2.
Qed.

Lemma dfs_spec (g : graph) (fuel : nat) : dfs_returns g fuel (dfs fuel g).
Proof.
  induction fuel as [|fuel IH]; intros node st HU Hfuel Hinv; [lia|].
  simpl. destruct (decide (node ∈ visited st)) as [Hv|Hnv].
  { exists st. by split_and!. }
  assert (Hns : node ∉ on_stack st)
    by (destruct Hinv as [Hsub _]; intros H; by apply Hnv, Hsub).
  destruct (dfs_neighbours_spec g fuel (dfs fuel g) node IH
              (KStr <$> graph_get g node)
              (DfsState ({[node]} ∪ visited st) ({[node]} ∪ on_stack st)
                 (in_cycle st)))
    as (st2 & -> & HV2 & HS2 & HC2 & Hinv2 & Hmark); simpl in *.
  - done.
  - by apply size_unvisited_step.
  - apply elem_of_union_l. by apply elem_of_singleton.
  - destruct Hinv as [Hsub Hfin]. split; simpl.
    + clear -Hsub. set_solver.
    + intros x y Hx Hxs Hxy Hyx. apply Hfin; try done.
      * clear -Hx Hxs. set_solver.
      * clear -Hxs. set_solver.
  - eexists. split; [done|]. destruct Hinv2 as [Hsub2 Hfin2].
    split_and!; simpl.
    + clear -HV2. set_solver.
    + clear -HV2. set_solver.
    + rewrite HS2. clear -Hns. set_solver.
    + done.
    + split; simpl.
      * clear -Hsub2. set_solver.
      * intros x y Hx Hxs Hxy Hyx.
        destruct (decide (x = node)) as [->|Hne].
        -- by destruct (Hmark y Hxy Hyx).
        -- apply Hfin2; try done. clear -Hxs Hne. set_solver.
Qed.

Lemma dfs_roots_spec (g : graph) (fuel : nat) :
  forall nodes st,
    (forall x, x ∈ nodes -> x ∈ node_set g) ->
    (size (node_set g ∖ visited st) < fuel)%nat -> dfs_inv g st ->
    exists st',
      dfs_roots fuel g nodes st = Some st' /\
      visited st ⊆ visited st' /\ on_stack st' = on_stack st /\
      dfs_inv g st' /\ forall x, x ∈ nodes -> x ∈ visited st'.
Proof.
  induction nodes as [|x rest IH]; intros st HU Hfuel Hinv.
  { exists st. split_and!; try done.
    intros x Hx. by apply elem_of_nil in Hx. }
  assert (HUrest : forall z, z ∈ rest -> z ∈ node_set g)
    by (intros z Hz; apply HU; by right).
  simpl. destruct (decide (x ∉ visited st)) as [Hnv|Hv].
  - destruct (dfs_spec g fuel x st) as (st1 & -> & HV & Hx & HS & HC & Hinv1);
      [apply HU; left | done | done |].
    simpl. destruct (IH st1) as (st2 & -> & HV2 & HS2 & Hinv2 & Hall);
      [done | by eapply size_unvisited_mono | done |].
    exists st2. split_and!; [done | by etrans | congruence | done |].
    intros z Hz. apply elem_of_cons in Hz as [->|Hz]; [by apply HV2|eauto].
  - apply dec_stable in Hv.
    destruct (IH st) as (st2 & -> & HV2 & HS2 & Hinv2 & Hall);
      [done | done | done |].
    exists st2. split_and!; try done.
    intros z Hz. apply elem_of_cons in Hz as [->|Hz]; [by apply HV2|eauto].
Qed.

(** The traversal always ends within its fuel. *)
Lemma run_dfs_returns (g : graph) :
  exists st, run_dfs g = Some st /\ on_stack st = ∅ /\ dfs_inv g st /\
    forall x, x ∈ graph_keys g -> x ∈ visited st.
Proof.
  destruct (dfs_roots_spec g (S (length (graph_nodes g))) (graph_keys g)
              (DfsState ∅ ∅ ∅))
    as (st & Hrun & _ & HS & Hinv & Hall).
  - apply key_node.
  - simpl. apply Nat.lt_succ_r.
    etrans; [|apply size_list_to_set_le].
    apply subseteq_size. unfold node_set. set_solver.
  - split; simpl; [done|]. intros x y Hx. by apply elem_of_empty in Hx.
  - exists st. by split_and!.
Qed.

(** Two nodes with an edge each way, the first a key of the graph, are
    both in the cycle set; so is a key with an edge to itself. *)
Lemma detect_cycles_mutual (g : graph) (a b : pykey) :
  a ∈ graph_keys g -> edge g a b -> edge g b a ->
  a ∈ detect_cycles g /\ b ∈ detect_cycles g.
Proof.
  intros Ha Hab Hba. unfold detect_cycles.
  destruct (run_dfs_returns g) as (st & -> & HS & [_ Hfin] & Hall).
  apply Hfin; try done; [by apply Hall|].
  rewrite HS. apply not_elem_of_empty.
Qed.

(** ** The sort *)

Section SortFacts.
Context {A : Type} (lt : A -> A -> except bool).

Lemma insert_sorted_perm (x : A) (l s : list A) :
  insert_sorted lt x l = Ok s -> s ≡ₚ x :: l.
Proof.
  revert s. induction l as [|y l IH]; simpl; intros s H.
  - by injection H as <-.
  - ok_inv H. destruct a.
    + ok_inv H. subst s. rewrite (IH _ Ha0). apply Permutation_swap.
    + by injection H as <-.
Qed.

Lemma sort_ascending_perm (l s : list A) :
  sort_ascending lt l = Ok s -> s ≡ₚ l.
Proof.
  revert s. induction l as [|x l IH]; simpl; intros s H.
  - by injection H as <-.
  - ok_inv H. rewrite (insert_sorted_perm _ _ _ H). by rewrite (IH _ Ha).
Qed.

Lemma sort_reverse_perm (l s : list A) :
  sort_reverse lt l = Ok s -> s ≡ₚ l.
Proof.
  unfold sort_reverse. intros H. ok_inv H. subst s.
  rewrite reverse_Permutation, (sort_ascending_perm _ _ Ha).
  apply reverse_Permutation.
Qed.




(** *** Order of the result *)

Hypothesis lt_asym : forall a b, lt a b = Ok true -> lt b a = Ok false.

Lemma insert_sorted_HdRel (x y : A) (l s : list A) :
  HdRel (not_after lt) y l -> not_after lt y x ->
  insert_sorted lt x l = Ok s -> HdRel (not_after lt) y s.
Proof.
  destruct l as [|z l]; simpl; intros Hhd Hyx H.
  - injection H as <-. by constructor.
  - ok_inv H. destruct a.
    + ok_inv H. subst s. constructor. by inv Hhd.
    + injection H as <-. by constructor.
Qed.

Lemma insert_sorted_Sorted (x : A) (l s : list A) :
  Sorted (not_after lt) l -> insert_sorted lt x l = Ok s -> Sorted (not_after lt) s.
Proof.
  revert s. induction l as [|y l IH]; simpl; intros s Hl H.
  - injection H as <-. by repeat constructor.
  - ok_inv H. inv Hl. destruct a.
    + ok_inv H. subst s. constructor; [by apply IH|].
      eapply insert_sorted_HdRel; [done| |done]. by apply lt_asym.
    + injection H as <-. constructor; [by constructor|]. by constructor.
Qed.

Lemma sort_ascending_Sorted (l s : list A) :
  sort_ascending lt l = Ok s -> Sorted (not_after lt) s.
Proof.
  revert s. induction l as [|x l IH]; simpl; intros s H.
  - injection H as <-. constructor.
  - ok_inv H. eapply insert_sorted_Sorted; [|done]. by apply IH.
Qed.

(** With [reverse=True]: no element is smaller than the one after. *)
Lemma sort_reverse_Sorted (l s : list A) :
  sort_reverse lt l = Ok s -> Sorted (fun a b => lt a b = Ok false) s.
Proof.
  unfold sort_reverse. intros H. ok_inv H. subst s.
  apply (Sorted_reverse (not_after lt)). by eapply sort_ascending_Sorted.
Qed.

(** *** Stability: the elements of a class of equal keys keep their
    order. *)
Section Stable.
Variable P : A -> Prop.
Context {P_dec : forall x, Decision (P x)}.
Hypothesis P_equal : forall a b, P a -> P b -> lt a b = Ok false.

Lemma insert_sorted_filter (x : A) (l s : list A) :
  insert_sorted lt x l = Ok s -> filter P s = filter P (x :: l).
Proof.
  revert s. induction l as [|y l IH]; simpl; intros s H.
  - by injection H as <-.
  - ok_inv H. destruct a; [|by injection H as <-].
    ok_inv H. subst s. rewrite filter_cons, (IH _ Ha0), !filter_cons.
    destruct (decide (P y)) as [Hy|Hy]; [|done].
    destruct (decide (P x)) as [Hx|Hx]; [|done].
    rewrite (P_equal y x Hy Hx) in Ha. discriminate.
Qed.

Lemma sort_ascending_filter (l s : list A) :
  sort_ascending lt l = Ok s -> filter P s = filter P l.
Proof.
  revert s. induction l as [|x l IH]; simpl; intros s H.
  - by injection H as <-.
  - ok_inv H. rewrite (insert_sorted_filter _ _ _ H), !filter_cons.
    by rewrite (IH _ Ha).
Qed.

Lemma sort_reverse_filter (l s : list A) :
  sort_reverse lt l = Ok s -> filter P s = filter P l.
Proof.
  unfold sort_reverse. intros H. ok_inv H. subst s.
  rewrite filter_reverse, (sort_ascending_filter _ _ Ha), filter_reverse.
  apply reverse_involutive.
Qed.
End Stable.
End SortFacts.

(** Sorting commutes with a map that leaves the comparison unchanged. *)
Section SortMap.
Context {A B : Type} (ltA : A -> A -> except bool)
  (ltB : B -> B -> except bool) (f : A -> B).
Hypothesis lt_f : forall a b, ltB (f a) (f b) = ltA a b.



End SortMap.

(** ** Equality and order of Python values *)

Lemma Qeq_bool_sym (x y : Q) : Qeq_bool x y = Qeq_bool y x.
Proof.
  destruct (Qeq_bool x y) eqn:H1, (Qeq_bool y x) eqn:H2; try done.
  - apply Qeq_bool_iff in H1. symmetry in H1. apply Qeq_bool_iff in H1.
    congruence.
  - apply Qeq_bool_iff in H2. symmetry in H2. apply Qeq_bool_iff in H2.
    congruence.
Qed.

Lemma Qeq_bool_trans (x y z : Q) :
  Qeq_bool x y = true -> Qeq_bool y z = true -> Qeq_bool x z = true.
Proof.
  rewrite !Qeq_bool_iff. apply Qeq_trans.
Qed.

Lemma Qltb_asym (x y : Q) : Qltb x y = true -> Qltb y x = false.
Proof.
  unfold Qltb. intros H. apply negb_true_iff in H.
  apply negb_false_iff, Qle_bool_iff.
  destruct (Qlt_le_dec x y) as [Hlt|Hle].
  - by apply Qlt_le_weak.
  - apply Qle_bool_iff in Hle. congruence.
Qed.

Lemma string_ltb_asym (s t : string) :
  String.ltb s t = true -> String.ltb t s = false.
Proof.
  unfold String.ltb. rewrite (String.compare_antisym s t).
  by destruct (String.compare t s).
Qed.

Lemma atom_eqb_sym (a b : atom) : atom_eqb a b = atom_eqb b a.
Proof.
  destruct a, b; unfold atom_eqb; simpl;
    try done; try apply Qeq_bool_sym; apply String.eqb_sym.
Qed.

Lemma atom_eqb_trans (a b c : atom) :
  atom_eqb a b = true -> atom_eqb b c = true -> atom_eqb a c = true.
Proof.
  destruct a, b, c; unfold atom_eqb; simpl;
    try done; try apply Qeq_bool_trans.
  intros H1 H2. apply String.eqb_eq in H1, H2. subst. apply String.eqb_refl.
Qed.

Lemma atoms_eqb_sym (l m : list atom) : atoms_eqb l m = atoms_eqb m l.
Proof.
  revert m. induction l as [|a l IH]; intros [|b m]; simpl; try done.
  by rewrite atom_eqb_sym, IH.
Qed.

Lemma atoms_eqb_trans (l m n : list atom) :
  atoms_eqb l m = true -> atoms_eqb m n = true -> atoms_eqb l n = true.
Proof.
  revert m n. induction l as [|a l IH]; intros [|b m] [|c n]; simpl; try done.
  rewrite !andb_true_iff. intros [H1 H2] [H3 H4].
  eauto using atom_eqb_trans.
Qed.

Lemma py_eqb_sym (v w : pyval) : py_eqb v w = py_eqb w v.
Proof.
  destruct v, w; simpl; try done.
  - apply atom_eqb_sym.
  - apply Z.eqb_sym.
  - apply atoms_eqb_sym.
Qed.

Lemma py_eqb_trans (u v w : pyval) :
  py_eqb u v = true -> py_eqb v w = true -> py_eqb u w = true.
Proof.
  destruct u, v, w; simpl; try done.
  - apply atom_eqb_trans.
  - rewrite !Z.eqb_eq. congruence.
  - apply atoms_eqb_trans.
Qed.

Lemma atom_lt_asym (a b : atom) :
  atom_lt a b = Ok true -> atom_lt b a = Ok false.
Proof.
  destruct a, b; unfold atom_lt; simpl; try done;
    intros [= H]; f_equal; by (apply Qltb_asym || apply string_ltb_asym).
Qed.

Lemma atoms_lt_asym (l m : list atom) :
  atoms_lt l m = Ok true -> atoms_lt m l = Ok false.
Proof.
  revert m. induction l as [|a l IH]; intros [|b m]; simpl; try done.
  rewrite (atom_eqb_sym b a). destruct (atom_eqb a b); [apply IH|].
  apply atom_lt_asym.
Qed.

Lemma py_lt_asym (v w : pyval) : py_lt v w = Ok true -> py_lt w v = Ok false.
Proof.
  destruct v, w; simpl; try done.
  - apply atom_lt_asym.
  - intros [= H]. f_equal. lia.
  - apply atoms_lt_asym.
Qed.

Lemma tuple_lt_asym (a b : Q * pyval) :
  tuple_lt a b = Ok true -> tuple_lt b a = Ok false.
Proof.
  unfold tuple_lt. rewrite (Qeq_bool_sym b.1 a.1), (py_eqb_sym b.2 a.2).
  destruct (Qeq_bool a.1 b.1); simpl.
  - destruct (py_eqb a.2 b.2); simpl; [done|]. apply py_lt_asym.
  - intros [= H]. f_equal. by apply Qltb_asym.
Qed.

Lemma tuple_lt_equal (k a b : Q * pyval) :
  tuple_eqb k a = true -> tuple_eqb k b = true -> tuple_lt a b = Ok false.
Proof.
  unfold tuple_eqb, tuple_lt. rewrite !andb_true_iff. intros [H1 H2] [H3 H4].
  rewrite Qeq_bool_sym in H1. rewrite py_eqb_sym in H2.
  by rewrite (Qeq_bool_trans _ _ _ H1 H3), (py_eqb_trans _ _ _ H2 H4).
Qed.

(** ** The dependency graph *)

Lemma dict_get_insert (task : pydict) (key : string) (v : pyval) :
  dict_get (<[key := v]> task) key = v.
Proof. unfold dict_get. by rewrite lookup_insert_eq. Qed.

Lemma dict_get_insert_ne (task : pydict) (key key' : string) (v : pyval) :
  key <> key' -> dict_get (<[key := v]> task) key' = dict_get task key'.
Proof. intros H. unfold dict_get. by rewrite lookup_insert_ne. Qed.

Lemma with_ids_length (idx : nat) (tasks : list pydict) :
  length (with_ids idx tasks) = length tasks.
Proof. revert idx. induction tasks; intros idx; simpl; by f_equal. Qed.

Lemma with_ids_lookup (idx i : nat) (tasks : list pydict) (task : pydict) :
  tasks !! i = Some task ->
  with_ids idx tasks !! i
  = Some (<["_internal_id" := assign_id (idx + i) task]> task).
Proof.
  revert idx i. induction tasks as [|t tasks IH]; intros idx [|i]; simpl;
    try done.
  - intros [= ->]. by rewrite Nat.add_0_r.
  - intros H. rewrite (IH (S idx) i H). do 3 f_equal. lia.
Qed.

Lemma assign_ids_spec (idx : nat) (tasks : list pydict) (g : graph)
    (dc : gmap pykey nat) (ks : list pykey) :
  Forall2 (fun t k => task_key t = Ok k) (with_ids idx tasks) ks ->
  assign_ids idx tasks g dc
  = (with_ids idx tasks,
     Ok (graph_fill g ((fun k => (k, [])) <$> ks), counts_init dc ks)).
Proof.
  revert idx g dc ks. induction tasks as [|t tasks IH]; intros idx g dc ks H;
    simpl in *.
  - by inv H.
  - inv H. unfold task_key in *. rewrite dict_get_insert in *.
    match goal with H : key_of _ = Ok _ |- _ => rewrite H end.
    by erewrite IH.
Qed.

Lemma assign_ids_ok (idx : nat) (tasks : list pydict) (g : graph)
    (dc : gmap pykey nat) r :
  (assign_ids idx tasks g dc).2 = Ok r ->
  exists ks, Forall2 (fun t k => task_key t = Ok k) (with_ids idx tasks) ks.
Proof.
  revert idx g dc. induction tasks as [|t tasks IH]; intros idx g dc; simpl.
  - exists []. constructor.
  - destruct (key_of (assign_id idx t)) as [k|e] eqn:Hk; [|done].
    destruct (assign_ids (S idx) tasks _ _) as [rest' r'] eqn:Hrest.
    simpl. intros ->.
    destruct (IH (S idx) (graph_set k [] g) (<[k:=0%nat]> dc)) as [ks Hks].
    { by rewrite Hrest. }
    exists (k :: ks). constructor; [|done].
    unfold task_key. by rewrite dict_get_insert.
Qed.

Lemma fill_deps_spec (tasks : list pydict) (g : graph) (dc : gmap pykey nat)
    (es : list (pykey * list string)) :
  Forall2 task_entry tasks es ->
  Forall (fun t => is_Some (t !! "_internal_id")) tasks ->
  fill_deps tasks g dc = Ok (graph_fill g es, counts_fill dc es).
Proof.
  revert g dc es. induction tasks as [|t tasks IH]; intros g dc es H Hid;
    simpl.
  - by inv H.
  - inv H. inv Hid.
    match goal with H : task_entry _ _ |- _ => destruct H as [Hk Hd] end.
    match goal with H : is_Some _ |- _ => destruct H as [v Hv] end.
    unfold subscript, task_key, dict_get in *. rewrite Hv in *. simpl in *.
    rewrite Hd. simpl. rewrite Hk. simpl. by apply IH.
Qed.

Lemma fill_deps_ok (tasks : list pydict) (g : graph) (dc : gmap pykey nat) r :
  fill_deps tasks g dc = Ok r -> exists es, Forall2 task_entry tasks es.
Proof.
  revert g dc. induction tasks as [|t tasks IH]; intros g dc; simpl.
  - exists []. constructor.
  - intros H. ok_inv H. destruct (IH _ _ H) as [es Hes].
    exists ((a1, a0) :: es). constructor; [|done]. split; simpl; [|done].
    unfold task_key, dict_get, subscript in *.
    destruct (t !! "_internal_id"); by simplify_eq.
Qed.

Lemma with_ids_has_id (idx : nat) (tasks : list pydict) :
  Forall (fun t => is_Some (t !! "_internal_id")) (with_ids idx tasks).
Proof.
  revert idx. induction tasks as [|t tasks IH]; intros idx; simpl;
    constructor; [|done].
  rewrite lookup_insert_eq. eauto.
Qed.

Lemma Forall2_task_entry_keys (tasks : list pydict)
    (es : list (pykey * list string)) :
  Forall2 task_entry tasks es ->
  Forall2 (fun t k => task_key t = Ok k) tasks es.*1.
Proof. induction 1 as [|t e ts es [Hk _]]; simpl; by constructor. Qed.

Lemma Forall2_task_key_inj (tasks : list pydict) (ks ks' : list pykey) :
  Forall2 (fun t k => task_key t = Ok k) tasks ks ->
  Forall2 (fun t k => task_key t = Ok k) tasks ks' -> ks = ks'.
Proof.
  intros H. revert ks'. induction H; intros ks' H'; inv H'; [done|].
  f_equal; [congruence|eauto].
Qed.


Lemma build_dependency_graph_ok (tasks tasks' : list pydict) r :
  build_dependency_graph tasks = (tasks', Ok r) ->
  tasks' = with_ids 0 tasks /\
  exists es, Forall2 task_entry tasks' es /\
    r = (graph_fill (graph_fill [] ((fun k => (k, [])) <$> es.*1)) es,
         counts_fill (counts_init ∅ es.*1) es).
Proof.
  unfold build_dependency_graph.
  destruct (assign_ids 0 tasks [] ∅) as [ts r1] eqn:H1.
  intros [= -> H]. destruct r1 as [[g1 dc1]|]; [simpl in H|done].
  destruct (assign_ids_ok 0 tasks [] ∅ (g1, dc1)) as [ks Hks];
    [by rewrite H1|].
  rewrite (assign_ids_spec _ _ _ _ _ Hks) in H1. injection H1 as <- <- <-.
  split; [done|]. destruct (fill_deps_ok _ _ _ _ H) as [es Hes].
  exists es. split; [done|].
  rewrite (fill_deps_spec _ _ _ _ Hes (with_ids_has_id _ _)) in H.
  injection H as <-.
  by rewrite (Forall2_task_key_inj _ _ _ Hks (Forall2_task_entry_keys _ _ Hes)).
Qed.

Lemma graph_lookup_set (g : graph) (k k' : pykey) (v : list string) :
  graph_lookup (graph_set k v g) k'
  = if decide (k' = k) then Some v else graph_lookup g k'.
Proof.
  induction g as [|[k0 v0] g IH]; simpl.
  - by destruct (decide (k' = k)).
  - destruct (decide (k = k0)) as [->|Hne]; simpl.
    + by destruct (decide (k' = k0)).
    + rewrite IH. destruct (decide (k' = k0)) as [->|]; [|done].
      by rewrite decide_False by done.
Qed.

Lemma graph_keys_set (g : graph) (k k' : pykey) (v : list string) :
  k' ∈ graph_keys (graph_set k v g) <-> k' = k \/ k' ∈ graph_keys g.
Proof.
  unfold graph_keys. induction g as [|[k0 v0] g IH]; simpl.
  - rewrite list_elem_of_singleton. split; [by left|].
    intros [H|H]; [done|]. by apply elem_of_nil in H.
  - destruct (decide (k = k0)) as [->|Hne]; simpl.
    + rewrite !elem_of_cons. intuition congruence.
    + rewrite !elem_of_cons, IH. intuition congruence.
Qed.

Lemma graph_fill_keys (g : graph) (es : list (pykey * list string))
    (k : pykey) :
  k ∈ graph_keys (graph_fill g es) <-> k ∈ graph_keys g \/ k ∈ es.*1.
Proof.
  unfold graph_fill. revert g. induction es as [|[k0 v0] es IH]; intros g;
    simpl.
  - split; [by left|]. intros [H|H]; [done|]. by apply elem_of_nil in H.
  - rewrite IH, graph_keys_set, elem_of_cons. simpl. intuition congruence.
Qed.

Lemma graph_fill_lookup_notin (g : graph) (es : list (pykey * list string))
    (k : pykey) :
  k ∉ es.*1 -> graph_lookup (graph_fill g es) k = graph_lookup g k.
Proof.
  unfold graph_fill. revert g. induction es as [|[k0 v0] es IH]; intros g;
    simpl; [done|].
  rewrite not_elem_of_cons. intros [Hne Hnot].
  rewrite IH by done. rewrite graph_lookup_set. by rewrite decide_False.
Qed.

(** The graph maps a key to the dependencies of the last task that has it. *)
Lemma graph_fill_lookup_last (g : graph) (es1 es2 : list (pykey * list string))
    (k : pykey) (d : list string) :
  k ∉ es2.*1 -> graph_lookup (graph_fill g (es1 ++ (k, d) :: es2)) k = Some d.
Proof.
  intros Hnot. unfold graph_fill. rewrite foldl_app. simpl.
  fold (graph_fill (graph_set k d (foldl (fun g e => graph_set e.1 e.2 g) g es1)) es2).
  rewrite graph_fill_lookup_notin by done.
  rewrite graph_lookup_set. by rewrite decide_True.
Qed.

Lemma count_dependent_get (dc : gmap pykey nat) (d : string) (k : pykey) :
  count_get (count_dependent dc d) k
  = (count_get dc k + if decide (k = KStr d) then 1 else 0)%nat.
Proof.
  unfold count_get, count_dependent.
  destruct (decide (k = KStr d)) as [->|Hne].
  - rewrite lookup_insert_eq. simpl.
    destruct (dc !! KStr d) eqn:H; simpl.
    + rewrite H. simpl. lia.
    + rewrite lookup_insert_eq. simpl. lia.
  - rewrite lookup_insert_ne by done.
    destruct (dc !! KStr d) eqn:H; simpl; [lia|].
    rewrite lookup_insert_ne by done. lia.
Qed.

Lemma count_dependent_foldl (dc : gmap pykey nat) (l : list string)
    (k : pykey) :
  count_get (foldl count_dependent dc l) k
  = (count_get dc k + length (filter (fun d => k = KStr d) l))%nat.
Proof.
  revert dc. induction l as [|d l IH]; intros dc; simpl; [lia|].
  rewrite IH, count_dependent_get, filter_cons.
  destruct (decide (k = KStr d)); simpl; lia.
Qed.

Lemma counts_fill_get (dc : gmap pykey nat) (es : list (pykey * list string))
    (k : pykey) :
  count_get (counts_fill dc es) k
  = (count_get dc k
     + length (filter (fun d => k = KStr d) (concat es.*2)))%nat.
Proof.
  unfold counts_fill. revert dc.
  induction es as [|[k0 v0] es IH]; intros dc; simpl; [lia|].
  rewrite IH, count_dependent_foldl, filter_app, length_app.
  symmetry. apply Nat.add_assoc.
Qed.

Lemma counts_init_get (dc : gmap pykey nat) (ks : list pykey) (k : pykey) :
  count_get dc k = 0%nat -> count_get (counts_init dc ks) k = 0%nat.
Proof.
  unfold counts_init. revert dc. induction ks as [|k0 ks IH]; intros dc H;
    simpl; [done|].
  apply IH. unfold count_get in *.
  destruct (decide (k0 = k)) as [->|Hne];
    [by rewrite lookup_insert_eq | by rewrite lookup_insert_ne].
Qed.

(** ** Normalisers and factor scorers *)

Lemma clamp_bounds (value minimum maximum : Z) :
  minimum <= maximum -> minimum <= clamp value minimum maximum <= maximum.
Proof. unfold clamp. lia. Qed.

(** [normalize_importance] never raises, stays in 1..10 and answers 5 when
    [int] refuses its argument. *)
Lemma normalize_importance_ok (v : pyval) :
  exists n, normalize_importance v = Ok n /\ 1 <= n <= 10 /\
    (is_ok (py_int v) = false -> n = 5).
Proof.
  unfold normalize_importance.
  assert (Hint : forall e, py_int v = Raise e -> e = TypeError \/ e = ValueError).
  { destruct v as [[| | | |s]| |]; simpl; try (intros e [= <-]; auto); try done.
    destruct (parse_int s); [done|]. intros e [= <-]. auto. }
  destruct (py_int v) as [z|e].
  - exists (clamp z 1 10). pose proof (clamp_bounds z 1 10).
    split_and!; try done; lia.
  - exists 5. destruct (Hint e eq_refl) as [-> | ->]; split_and!; done || lia.
Qed.





(** C3. For a due date strictly before today the urgency scorer returns
    clamp(10 + max(days_until, -7), 7, 10), which lies in the range 7..10,
    and its reason names the true number of days overdue; a task ten days
    overdue and one seven days overdue get the same score and different
    reasons. *)
Theorem urgency_overdue (today ordinal : Z) :
  ordinal < today ->
  let days_until := ordinal - today in
  let urgency := clamp (10 + Z.max days_until (-7)) 7 10 in
  compute_urgency_score today (PDate ordinal)
  = Ok (inject_Z urgency, "overdue by " +:+ pretty (- days_until) +:+ " days")
  /\ 7 <= urgency <= 10
  /\ exists u,
       compute_urgency_score today (PDate (today - 10))
       = Ok (u, "overdue by 10 days")
       /\ compute_urgency_score today (PDate (today - 7))
          = Ok (u, "overdue by 7 days")
       /\ "overdue by 10 days" <> "overdue by 7 days".
Proof.
  intros Hlt days_until urgency. split_and!.
  - unfold compute_urgency_score, safe_days_until_due. simpl.
    fold days_until. by rewrite (proj2 (Z.ltb_lt days_until 0)) by (unfold days_until; lia).
  - apply clamp_bounds. lia.
  - apply clamp_bounds. lia.
  - exists (inject_Z 7).
    unfold compute_urgency_score, safe_days_until_due. simpl.
    replace (today - 10 - today) with (-10) by lia.
    replace (today - 7 - today) with (-7) by lia.
    split_and!; done.
Qed.

Lemma urgency_overdue_witness :
  90 < 100 /\
  compute_urgency_score 100 (PDate 90)
  = Ok (inject_Z 7, "overdue by 10 days").
Proof.
  split; [lia|]. destruct (urgency_overdue 100 90) as [H _]; [lia|exact H].
Defined.

(** ** Strategy scorers *)

(** C4, as the code has it. For every weights mapping that is not empty the
    smart_balance score is the sum of the four factors, each multiplied by
    the caller's weight for it or by 0.0 when its key is missing; when the
    caller gives no mapping, or an empty one, the score is the sum under
    the default weights 0.4, 0.3, 0.2 and 0.1. *)
Theorem smart_balance_weights (importance urgency effort : Q) (blocks : nat)
    (w : gmap string Q) :
  w <> ∅ ->
  score_smart_balance importance urgency effort blocks (Some w)
  = (weight_get w "importance" * importance
     + weight_get w "urgency" * urgency
     + weight_get w "effort" * effort
     + weight_get w "dependencies" * inject_Z (Z.of_nat blocks))%Q
  /\ score_smart_balance importance urgency effort blocks (Some ∅)
     = score_smart_balance importance urgency effort blocks None
  /\ score_smart_balance importance urgency effort blocks None
     = ((4 # 10) * importance + (3 # 10) * urgency + (2 # 10) * effort
        + (1 # 10) * inject_Z (Z.of_nat blocks))%Q.
Proof.
  intros Hne. unfold score_smart_balance, weights_or_default.
  rewrite decide_False by done. by rewrite decide_True by done.
Qed.

Lemma smart_balance_weights_witness :
  ({["urgency" := 1%Q]} : gmap string Q) <> ∅ /\
  score_smart_balance 5 8 6 2 (Some {["urgency" := 1%Q]})
  = (0 * 5 + 1 * 8 + 0 * 6 + 0 * inject_Z (Z.of_nat 2))%Q.
Proof.
  assert (Hne : ({["urgency" := 1%Q]} : gmap string Q) <> ∅)
    by apply insert_non_empty.
  split; [exact Hne|].
  exact (proj1 (smart_balance_weights 5 8 6 2 {["urgency" := 1%Q]} Hne)).
Defined.

(** C4 fails for the empty mapping: every key is missing from it, so the
    claim gives the score 0, and the code scores with the default weights. *)
Lemma smart_balance_empty_weights :
  let w : gmap string Q := ∅ in
  (score_smart_balance 5 5 6 0 (Some w) == 47 # 10)%Q /\
  ~ (score_smart_balance 5 5 6 0 (Some w)
     == weight_get w "importance" * 5 + weight_get w "urgency" * 5
        + weight_get w "effort" * 6
        + weight_get w "dependencies" * inject_Z (Z.of_nat 0))%Q.
Proof. split; [reflexivity|]. intros H. vm_compute in H. discriminate. Qed.

(** ** Scoring a task *)

Lemma score_all_Forall2 (f : pydict -> except ScoredTask)
    (tasks : list pydict) (scored : list ScoredTask) :
  score_all f tasks = Ok scored <->
  Forall2 (fun t st => f t = Ok st) tasks scored.
Proof.
  revert scored. induction tasks as [|t tasks IH]; intros scored; simpl.
  - split; [intros [= <-]; constructor | by inversion 1].
  - split.
    + intros H. ok_inv H. injection H as <-. constructor; [done|by apply IH].
    + inversion 1 as [|? st ? sts Hst Hsts]; subst. rewrite Hst. simpl.
      apply IH in Hsts. by rewrite Hsts.
Qed.

Lemma string_app_assoc (a b c : string) :
  (a +:+ b) +:+ c = a +:+ (b +:+ c).
Proof.
  induction a as [|x a IH]; [done|].
  change (String x ((a +:+ b) +:+ c) = String x (a +:+ (b +:+ c))).
  by f_equal.
Qed.

Lemma join_snoc (sep : string) (bits : list string) (b : string) :
  bits <> [] -> join sep (bits ++ [b]) = join sep bits +:+ sep +:+ b.
Proof.
  induction bits as [|x bits IH]; [done|]. intros _.
  destruct bits as [|y bits]; [done|].
  change (join sep ((x :: y :: bits) ++ [b]))
    with (x +:+ sep +:+ join sep ((y :: bits) ++ [b])).
  rewrite IH by done.
  change (join sep (x :: y :: bits)) with (x +:+ sep +:+ join sep (y :: bits)).
  by rewrite !string_app_assoc.
Qed.

(** The fields of a scored task that do not depend on the factors. *)
Lemma score_task_fields (today : Z) (t : pydict) (s : string)
    (dc : gmap pykey nat) (w : option (gmap string Q)) (cyc : gset pykey)
    (st : ScoredTask) :
  score_task today t s dc w cyc = Ok st ->
  task st = t /\ strategy st = s /\
  exists k, task_key t = Ok k /\
    has_cycle st = bool_decide (cyc <> ∅) && bool_decide (k ∈ cyc) /\
    (has_cycle st = true ->
     exists lead, explanation st
       = lead +:+ "; " +:+ "involved in a circular dependency").
Proof.
  unfold score_task, task_key.
  destruct (normalize_importance _) as [n|]; [cbn [bind]|done].
  destruct (compute_urgency_score _ _) as [[u r]|]; [cbn [bind]|done].
  destruct (compute_effort_score _) as [[e r']|]; [cbn [bind]|done].
  destruct (key_of _) as [k|]; [cbn [bind]|done].
  destruct (strategy_score _ _ _ _ _ _) as [sc lead].
  intros H.
  apply (f_equal (fun m => match m with Ok x => x | Raise _ => st end)) in H.
  cbv beta iota in H. subst st.
  lazy beta iota zeta delta [task strategy has_cycle explanation].
  split_and!; [reflexivity..|].
  exists k. split_and!; [reflexivity..|].
  intros ->. eexists. by apply join_snoc.
Qed.


(** An unrecognised name takes the last branch: smart_balance. *)
Lemma strategy_score_fallback (s : string) (importance urgency effort : Q)
    (blocks : nat) (w : option (gmap string Q)) :
  s <> "fastest_wins" -> s <> "high_impact" -> s <> "deadline_driven" ->
  strategy_score s importance urgency effort blocks w
  = (score_smart_balance importance urgency effort blocks w,
     "balanced importance, urgency, effort, and dependencies").
Proof.
  intros H1 H2 H3. unfold strategy_score.
  by rewrite !(proj2 (String.eqb_neq _ _)) by done.
Qed.



(** ** The ranking engine *)

(** The steps of a call of [analyze_tasks] that returns. *)
Lemma analyze_tasks_ok (today : Z) (tasks tasks' : list pydict) (s : string)
    (w : option (gmap string Q)) (out : list pydict) :
  analyze_tasks today tasks s w = (tasks', Ok out) ->
  tasks' = with_ids 0 tasks /\
  exists es scored sorted,
    Forall2 task_entry tasks' es /\
    batch_scored today s w es tasks' scored /\
    sort_reverse scored_lt scored = Ok sorted /\
    out = to_record <$> sorted.
Proof.
  unfold analyze_tasks. destruct tasks as [|t tasks].
  { intros [= <- <-]. split; [done|]. exists [], [], [].
    split_and!; by try constructor. }
  destruct (build_dependency_graph (t :: tasks)) as [ts built] eqn:Hb.
  intros [= -> H]. destruct built as [[g dc]|]; [|done].
  destruct (build_dependency_graph_ok _ _ _ Hb) as (-> & es & Hes & [= -> ->]).
  split; [done|]. cbn [bind] in H. ok_inv H. injection H as <-.
  exists es, a, a0. split_and!; try done. by apply score_all_Forall2.
Qed.



Lemma to_record_field (st : ScoredTask) (key : string) :
  key ∉ ["_internal_id"; "score"; "strategy_used"; "explanation"; "has_cycle"]
  -> to_record st !! key = task st !! key.
Proof.
  intros H. unfold to_record.
  rewrite !lookup_insert_ne, lookup_delete_ne; try done.
  all: intros <-; apply H; set_solver.
Qed.



(** ** Calling twice *)

Lemma assign_id_insert (idx : nat) (t : pydict) (v : pyval) :
  assign_id idx (<["_internal_id" := v]> t) = assign_id idx t.
Proof. unfold assign_id. by rewrite dict_get_insert_ne. Qed.

(** The first loop, run again on the batch that it left, does the same. *)
Lemma assign_ids_again (idx : nat) (tasks : list pydict) (g0 g : graph)
    (dc0 dc : gmap pykey nat) :
  assign_ids idx (assign_ids idx tasks g0 dc0).1 g dc
  = ((assign_ids idx tasks g0 dc0).1, (assign_ids idx tasks g dc).2).
Proof.
  revert idx g0 g dc0 dc. induction tasks as [|t tasks IH];
    intros idx g0 g dc0 dc; simpl; [done|].
  destruct (key_of (assign_id idx t)) as [k|e] eqn:Hk; simpl.
  - destruct (assign_ids (S idx) tasks (graph_set k [] g0) _) as [r1 x1] eqn:H1.
    destruct (assign_ids (S idx) tasks (graph_set k [] g) _) as [r2 x2] eqn:H2.
    simpl. rewrite assign_id_insert, Hk, insert_insert_eq.
    specialize (IH (S idx) (graph_set k [] g0) (graph_set k [] g)
                  (<[k:=0%nat]> dc0) (<[k:=0%nat]> dc)).
    rewrite H1, H2 in IH. simpl in IH. by rewrite IH.
  - by rewrite assign_id_insert, Hk, insert_insert_eq.
Qed.

Lemma build_dependency_graph_again (tasks : list pydict) :
  build_dependency_graph (build_dependency_graph tasks).1
  = build_dependency_graph tasks.
Proof.
  unfold build_dependency_graph.
  destruct (assign_ids 0 tasks [] ∅) as [ts r] eqn:H. simpl.
  pose proof (assign_ids_again 0 tasks [] [] ∅ ∅) as Ha.
  rewrite H in Ha. simpl in Ha. by rewrite Ha.
Qed.

(** C9. With today fixed, a second call of analyze on the batch that the
    first call left (its dicts now carry "_internal_id") returns what the
    first call returned, exception or list, and leaves the batch as it
    was: the injected ids do not change the scores, the order or the
    explanations. *)
Theorem analyze_twice (today : Z) (tasks : list pydict) (s : string)
    (w : option (gmap string Q)) :
  analyze_tasks today (analyze_tasks today tasks s w).1 s w
  = analyze_tasks today tasks s w.
Proof.
  unfold analyze_tasks at 2 3. destruct tasks as [|t tasks]; [done|].
  pose proof (build_dependency_graph_again (t :: tasks)) as Hb.
  destruct (build_dependency_graph (t :: tasks)) as [ts built] eqn:H.
  simpl in Hb. simpl. unfold analyze_tasks. rewrite Hb.
  destruct ts as [|t' ts]; [|done].
  unfold build_dependency_graph in H. simpl in H.
  destruct (key_of (assign_id 0 t)); [|done].
  by destruct (assign_ids 1 tasks _ _).
Qed.

(** ** Dependents count *)

Lemma task_norm_deps_insert (t : pydict) (v : pyval) :
  task_norm_deps (<["_internal_id" := v]> t) = task_norm_deps t.
Proof. unfold task_norm_deps. by rewrite dict_get_insert_ne. Qed.

Lemma with_ids_norm_deps (idx : nat) (tasks : list pydict)
    (es : list (pykey * list string)) :
  Forall2 task_entry (with_ids idx tasks) es ->
  Forall2 (fun t d => task_norm_deps t = Ok d) tasks es.*2.
Proof.
  revert idx es. induction tasks as [|t tasks IH]; intros idx es H; simpl in *.
  - inv H. constructor.
  - inv H. csimpl. constructor; [|by eapply IH].
    match goal with H : task_entry _ _ |- _ => destruct H as [_ Hd] end.
    by rewrite task_norm_deps_insert in Hd.
Qed.

Lemma batch_counts_get (es : list (pykey * list string)) (k : pykey) :
  count_get (batch_counts es) k
  = length (filter (fun d => k = KStr d) (concat es.*2)).
Proof.
  unfold batch_counts. rewrite counts_fill_get, counts_init_get; [done|].
  unfold count_get. by rewrite lookup_empty.
Qed.

(** C7. When the graph is built, the dependents count of an id [d] is the
    number of times [d] stands in the dependency lists of the tasks of the
    batch, whether or not a task has the id [d]; so an id that some task
    lists has a count of at least 1. *)
Theorem dependents_count_declarations (tasks tasks' : list pydict) (g : graph)
    (dependents : gmap pykey nat) :
  build_dependency_graph tasks = (tasks', Ok (g, dependents)) ->
  exists deps : list (list string),
    Forall2 (fun t d => task_norm_deps t = Ok d) tasks deps /\
    forall d : string,
      count_get dependents (KStr d)
      = length (filter (fun x => x = d) (concat deps)) /\
      (d ∈ concat deps -> (1 <= count_get dependents (KStr d))%nat).
Proof.
  intros H. apply build_dependency_graph_ok in H as (-> & es & Hes & [= -> ->]).
  exists es.*2. split; [by eapply with_ids_norm_deps|].
  intros d. fold (batch_counts es). rewrite batch_counts_get.
  rewrite (list_filter_iff (fun x => KStr d = KStr x) (fun x => x = d))
    by (intros x; split; congruence).
  split; [done|]. intros Hd.
  assert (Hin : d ∈ filter (fun x => x = d) (concat es.*2))
    by by apply list_elem_of_filter.
  destruct (filter (fun x => x = d) (concat es.*2)); simpl; [|lia].
  by apply elem_of_nil in Hin.
Qed.

Lemma dependents_count_declarations_witness :
  let r := build_dependency_graph [task_lists_b; task_lists_nothing] in
  is_ok r.2 = true /\
  match r.2 with
  | Ok (_, dependents) =>
      count_get dependents (KStr "B") = 1%nat /\
      count_get dependents (KStr "ghost") = 0%nat
  | Raise _ => False
  end.
Proof.
  intros r. split; [reflexivity|].
  destruct r as [tasks' [[g dependents]|e]] eqn:Hr; [|by vm_compute in Hr].
  destruct (dependents_count_declarations _ _ _ _ Hr) as (deps & Hdeps & Hcount).
  assert (deps = [["B"]; []]) as ->.
  { inv Hdeps. inv H3. inv H5. vm_compute in H1, H2. congruence. }
  split; apply Hcount.
Defined.

(** ** Internal ids *)

(** C5, as the code has it. When the graph is built every task has been
    given one internal id: its own id field when that is truthy (present
    and non-empty), else the decimal string of its zero-based position. The
    ids are pairwise different, as keys, when the supplied ids are pairwise
    different and none of them is the position string of a task that
    supplies none. *)
Theorem internal_ids_assigned (tasks tasks' : list pydict) (g : graph)
    (dependents : gmap pykey nat) :
  build_dependency_graph tasks = (tasks', Ok (g, dependents)) ->
  (forall i j a b, i <> j -> tasks !! i = Some a -> tasks !! j = Some b ->
     truthy (dict_get a "id") = true ->
     (truthy (dict_get b "id") = true ->
      key_of (dict_get a "id") <> key_of (dict_get b "id")) /\
     (truthy (dict_get b "id") = false ->
      key_of (dict_get a "id") <> Ok (KStr (pretty j)))) ->
  length tasks' = length tasks /\
  (forall i t, tasks !! i = Some t ->
     tasks' !! i = Some (<["_internal_id" := assign_id i t]> t) /\
     assign_id i t
     = if truthy (dict_get t "id") then dict_get t "id"
       else PAtom (AStr (pretty i))) /\
  (forall i j a b, i <> j -> tasks !! i = Some a -> tasks !! j = Some b ->
     key_of (assign_id i a) <> key_of (assign_id j b)).
Proof.
  intros H Hsupplied.
  apply build_dependency_graph_ok in H as (-> & _).
  split_and!.
  - apply with_ids_length.
  - intros i t Ht. split; [by apply (with_ids_lookup 0)|done].
  - intros i j a b Hij Ha Hb. unfold assign_id.
    destruct (truthy (dict_get a "id")) eqn:Hta,
             (truthy (dict_get b "id")) eqn:Htb.
    + by apply (Hsupplied i j a b).
    + by apply (Hsupplied i j a b).
    + intros Heq. by apply (Hsupplied j i b a).
    + simpl. intros [= Heq]. apply Hij. by apply (inj pretty).
Qed.

Lemma internal_ids_assigned_witness :
  let r := build_dependency_graph [task_one; task_no_id] in
  is_ok r.2 = true /\
  r.1 !! 1%nat = Some (<["_internal_id" := PAtom (AStr "1")]> task_no_id) /\
  key_of (assign_id 0 task_one) <> key_of (assign_id 1 task_no_id).
Proof.
  intros r. split; [reflexivity|].
  destruct r as [tasks' [[g dependents]|e]] eqn:Hr; [|by vm_compute in Hr].
  destruct (internal_ids_assigned _ _ _ _ Hr) as (_ & Hid & Hne).
  - intros [|[|i]] [|[|j]] a b Hij; simpl; try done.
    + intros [= <-] [= <-] _. split; [done|]. by vm_compute.
    + intros [= <-] _. by vm_compute.
  - split; [apply (Hid 1%nat task_no_id eq_refl)|].
    by apply (Hne 0%nat 1%nat).
Defined.

(** C5 fails on uniqueness: a task that supplies the id "1" and the task
    at position 1 that supplies none both get the internal id "1" (and one
    entry of the graph). *)
Lemma internal_ids_collide :
  let r := build_dependency_graph [task_id_1; task_no_id] in
  r.1 = [<["_internal_id" := PAtom (AStr "1")]> task_id_1;
         <["_internal_id" := PAtom (AStr "1")]> task_no_id] /\
  emap (fun built => graph_keys built.1) r.2 = Ok [KStr "1"].
Proof. vm_compute. split; reflexivity. Qed.

(** ** Circular dependencies *)

Lemma batch_graph_entry (es : list (pykey * list string)) (i : nat)
    (k : pykey) (d : list string) :
  es !! i = Some (k, d) ->
  (forall i' e, (i < i')%nat -> es !! i' = Some e -> e.1 <> k) ->
  graph_get (batch_graph es) k = d /\ k ∈ graph_keys (batch_graph es).
Proof.
  intros Hi Hlater. split.
  - unfold graph_get, batch_graph.
    rewrite <- (take_drop_middle es i (k, d) Hi) at 2.
    rewrite graph_fill_lookup_last; [done|].
    intros Hin. apply list_elem_of_fmap in Hin as (e & He1 & Hin).
    apply list_elem_of_lookup in Hin as [n Hn]. rewrite lookup_drop in Hn.
    by apply (Hlater (S i + n)%nat e); [lia|..].
  - apply graph_fill_keys. right. apply list_elem_of_fmap.
    exists (k, d). split; [done|]. by eapply list_elem_of_lookup_2.
Qed.

Lemma with_ids_entry (tasks : list pydict) (es : list (pykey * list string))
    (i : nat) (t : pydict) (e : pykey * list string) :
  Forall2 task_entry (with_ids 0 tasks) es ->
  tasks !! i = Some t -> es !! i = Some e ->
  key_of (assign_id i t) = Ok e.1 /\ task_norm_deps t = Ok e.2.
Proof.
  intros Hes Ht He. pose proof (with_ids_lookup 0 i tasks t Ht) as Ht'.
  destruct (Forall2_lookup_l _ _ _ _ _ Hes Ht') as (e' & He' & Hk & Hd).
  assert (e' = e) as -> by congruence.
  unfold task_key in Hk. rewrite dict_get_insert in Hk.
  by rewrite task_norm_deps_insert in Hd.
Qed.

Lemma scored_in_cycle_flagged (today : Z) (t : pydict) (v : pyval) (s : string)
    (dc : gmap pykey nat) (w : option (gmap string Q)) (cyc : gset pykey)
    (st : ScoredTask) (k : pykey) (out : list pydict) :
  score_task today (<["_internal_id" := v]> t) s dc w cyc = Ok st ->
  key_of v = Ok k -> k ∈ cyc -> to_record st ∈ out -> cycle_flagged out t.
Proof.
  intros Hst Hk Hcyc Hout.
  apply score_task_fields in Hst as (Htask & _ & k' & Hk' & Hflag & Hexpl).
  unfold task_key in Hk'. rewrite dict_get_insert in Hk'.
  assert (k' = k) as -> by congruence.
  assert (Htrue : has_cycle st = true).
  { rewrite Hflag. apply andb_true_iff. split; apply bool_decide_eq_true_2.
    - intros ->. by apply not_elem_of_empty in Hcyc.
    - done. }
  destruct (Hexpl Htrue) as [lead Hlead].
  exists (to_record st), lead. split_and!.
  - done.
  - intros key Hkey. rewrite to_record_field, Htask by done.
    apply lookup_insert_ne. intros <-. apply Hkey. set_solver.
  - unfold to_record. by rewrite lookup_insert_eq, Htrue.
  - unfold to_record. rewrite lookup_insert_ne, lookup_insert_eq by done.
    by rewrite Hlead.
Qed.

(** C6, as the code has it. In a call of analyze that returns, let task A
    list the internal id of task B among its dependencies and B that of A,
    and let no later task of the batch have the internal id of A or of B.
    Then the records of A and of B have has_cycle = true and an explanation
    that ends with the phrase about a circular dependency. With A = B this
    is the task that lists itself. *)
Theorem mutual_dependency_flagged (today : Z) (tasks tasks' : list pydict)
    (s : string) (w : option (gmap string Q)) (out : list pydict)
    (i j : nat) (a b : pydict) (ka kb : pykey) (da db : list string) :
  analyze_tasks today tasks s w = (tasks', Ok out) ->
  tasks !! i = Some a -> tasks !! j = Some b ->
  key_of (assign_id i a) = Ok ka -> key_of (assign_id j b) = Ok kb ->
  task_norm_deps a = Ok da -> task_norm_deps b = Ok db ->
  kb ∈ KStr <$> da -> ka ∈ KStr <$> db ->
  (forall i' t, (i < i')%nat -> tasks !! i' = Some t ->
     key_of (assign_id i' t) <> Ok ka) ->
  (forall j' t, (j < j')%nat -> tasks !! j' = Some t ->
     key_of (assign_id j' t) <> Ok kb) ->
  cycle_flagged out a /\ cycle_flagged out b.
Proof.
  intros H Ha Hb Hka Hkb Hda Hdb Hab Hba Hlast_a Hlast_b.
  apply analyze_tasks_ok in H
    as (-> & es & scored & sorted & Hes & Hscored & Hsorted & ->).
  assert (Hentry : forall n t k d,
    tasks !! n = Some t -> key_of (assign_id n t) = Ok k ->
    task_norm_deps t = Ok d ->
    (forall n' t', (n < n')%nat -> tasks !! n' = Some t' ->
       key_of (assign_id n' t') <> Ok k) ->
    graph_get (batch_graph es) k = d /\ k ∈ graph_keys (batch_graph es)).
  { intros n t k d Ht Hk Hd Hlast.
    destruct (Forall2_lookup_l _ _ _ _ _ Hes (with_ids_lookup 0 n tasks t Ht))
      as ([k0 d0] & He & _).
    destruct (with_ids_entry _ _ _ _ _ Hes Ht He) as [Hk0 Hd0]. simpl in *.
    assert (k0 = k) as -> by congruence. assert (d0 = d) as -> by congruence.
    apply (batch_graph_entry es n); [done|].
    intros n' e Hn He' <-.
    destruct (Forall2_lookup_r _ _ _ _ _ Hes He') as (t'' & Ht'' & _).
    destruct (tasks !! n') as [t'|] eqn:Ht'.
    - destruct (with_ids_entry _ _ _ _ _ Hes Ht' He') as [Hk' _].
      by apply (Hlast n' t').
    - apply lookup_ge_None in Ht'. apply lookup_lt_Some in Ht''.
      rewrite with_ids_length in Ht''. lia. }
  destruct (Hentry i a ka da) as [Hga Hkeya]; try done.
  destruct (Hentry j b kb db) as [Hgb Hkeyb]; try done.
  destruct (detect_cycles_mutual (batch_graph es) ka kb) as [Hca Hcb].
  { done. } { unfold edge. by rewrite Hga. } { unfold edge. by rewrite Hgb. }
  assert (Hflag : forall n t k,
    tasks !! n = Some t -> key_of (assign_id n t) = Ok k ->
    k ∈ detect_cycles (batch_graph es) ->
    cycle_flagged (to_record <$> sorted) t).
  { intros n t k Ht Hk Hc.
    destruct (Forall2_lookup_l _ _ _ _ _ Hscored
                (with_ids_lookup 0 n tasks t Ht)) as (st & Hst & Hscore).
    eapply scored_in_cycle_flagged; [exact Hscore|exact Hk|exact Hc|].
    apply list_elem_of_fmap_2.
    rewrite (sort_reverse_perm _ _ _ Hsorted).
    by eapply list_elem_of_lookup_2. }
  split; eauto.
Qed.

Lemma mutual_dependency_flagged_witness :
  let r := analyze_tasks 100 example_batch "smart_balance" None in
  r = (r.1, Ok (returned r)) /\
  cycle_flagged (returned r) task_a /\ cycle_flagged (returned r) task_b.
Proof.
  intros r. assert (H : r = (r.1, Ok (returned r)))
    by vm_cast_no_check (eq_refl r).
  split; [exact H|].
  apply (mutual_dependency_flagged 100 example_batch r.1 "smart_balance" None
           (returned r) 0 1 task_a task_b (KStr "a") (KStr "b") ["b"] ["a"] H
           eq_refl eq_refl).
  - vm_compute; reflexivity.
  - vm_compute; reflexivity.
  - vm_compute; reflexivity.
  - vm_compute; reflexivity.
  - apply list_elem_of_singleton. reflexivity.
  - apply list_elem_of_singleton. reflexivity.
  - intros [|[|[|i']]] t Hlt Ht; [lia|..];
      cbn [lookup list_lookup example_batch] in Ht; [| |discriminate Ht];
      apply (inj Some) in Ht; subst t; vm_compute; discriminate.
  - intros [|[|[|j']]] t Hlt Ht; [lia|lia|..];
      cbn [lookup list_lookup example_batch] in Ht; [|discriminate Ht];
      apply (inj Some) in Ht; subst t; vm_compute; discriminate.
Defined.

(** C6 fails when an id is used twice: the later task with the id "a"
    replaces the graph entry of the first, so the edge from "a" to "b" is
    lost and no record is flagged, although the first task lists "b" and
    the task "b" lists "a". *)
Lemma mutual_dependency_not_flagged :
  let r := analyze_tasks 100 [task_a; task_b; task_a_again]
             "smart_balance" None in
  is_ok r.2 = true /\
  (fun rec => dict_get rec "has_cycle") <$> returned r
  = [PAtom (ABool false); PAtom (ABool false); PAtom (ABool false)].
Proof. intros r. split; vm_compute; reflexivity. Qed.

(** ** Unrecognised strategy names *)


Lemma score_task_score (today : Z) (t : pydict) (s : string)
    (dc : gmap pykey nat) (w : option (gmap string Q)) (cyc : gset pykey)
    (st : ScoredTask) :
  score_task today t s dc w cyc = Ok st ->
  exists n urgency urgency_reason effort effort_reason k,
    normalize_importance (dict_get t "importance") = Ok n /\
    compute_urgency_score today (dict_get t "due_date")
    = Ok (urgency, urgency_reason) /\
    compute_effort_score (dict_get t "estimated_hours")
    = Ok (effort, effort_reason) /\
    task_key t = Ok k /\
    score st
    = py_round2 (strategy_score s (inject_Z n) urgency effort
                   (count_get dc k) w).1.
Proof.
  unfold score_task, task_key.
  destruct (normalize_importance _) as [n|]; [cbn [bind]|done].
  destruct (compute_urgency_score _ _) as [[u r]|]; [cbn [bind]|done].
  destruct (compute_effort_score _) as [[e r']|]; [cbn [bind]|done].
  destruct (key_of _) as [k|]; [cbn [bind]|done].
  intros H. exists n, u, r, e, r', k. split_and!; try done.
  unfold count_get.
  destruct (strategy_score _ _ _ _ _ _) as [sc lead].
  apply (f_equal (fun m => match m with Ok x => x | Raise _ => st end)) in H.
  cbv beta iota in H. by subst st.
Qed.



(** ** Order of the result *)

Lemma record_key_to_record (st : ScoredTask) :
  record_key (to_record st) = sort_key st.
Proof.
  unfold record_key, sort_key, to_record.
  rewrite !(lookup_insert_ne _ _ "score"), lookup_insert_eq by done.
  by rewrite !(lookup_insert_ne _ _ "importance"), lookup_delete_ne by done.
Qed.

Lemma filter_fmap_comm {A B} (f : A -> B) (P : B -> Prop)
    `{!forall y, Decision (P y)} (l : list A) :
  filter P (f <$> l) = f <$> filter (fun x => P (f x)) l.
Proof.
  induction l as [|x l IH]; csimpl; [done|].
  rewrite !filter_cons, IH. by destruct (decide (P (f x))).
Qed.

Lemma score_all_tasks (f : pydict -> except ScoredTask) (tasks : list pydict)
    (scored : list ScoredTask) :
  (forall t st, f t = Ok st -> task st = t) ->
  Forall2 (fun t st => f t = Ok st) tasks scored -> task <$> scored = tasks.
Proof.
  intros Hf. induction 1 as [|t st ts sts H _ IH]; csimpl; [done|].
  by rewrite (Hf _ _ H), IH.
Qed.

Lemma tuple_lt_numeric (qa qb na nb : Q) (va vb : pyval) :
  pyval_num va = Some na -> pyval_num vb = Some nb ->
  tuple_lt (qa, va) (qb, vb) = Ok false <->
  (qb < qa \/ (qa == qb /\ nb <= na))%Q.
Proof.
  intros Ha Hb. destruct va as [a| |], vb as [b| |]; try discriminate.
  simpl in Ha, Hb. unfold tuple_lt, py_eqb, py_lt, atom_eqb, atom_lt. simpl.
  rewrite Ha, Hb. unfold Qltb.
  destruct (Qeq_bool qa qb) eqn:Hq; simpl.
  - apply Qeq_bool_iff in Hq.
    destruct (Qeq_bool na nb) eqn:Hn; simpl.
    + apply Qeq_bool_iff in Hn. split; [intros _; right; split; lra|done].
    + apply Qeq_bool_neq in Hn.
      destruct (Qle_bool nb na) eqn:Hle; simpl.
      * apply Qle_bool_iff in Hle. split; [intros _; right; by split|done].
      * split; [done|]. intros [Hlt|[_ Hle']]; [lra|].
        apply Qle_bool_iff in Hle'. congruence.
  - apply Qeq_bool_neq in Hq.
    destruct (Qle_bool qb qa) eqn:Hle; simpl.
    + apply Qle_bool_iff in Hle. split; [intros _; left; lra|done].
    + split; [done|]. intros [Hlt|[Heq _]]; [|lra].
      apply Qlt_le_weak, Qle_bool_iff in Hlt. congruence.
Qed.

Lemma not_smaller_trans (a b c : pydict) :
  numeric_importance a -> numeric_importance b -> numeric_importance c ->
  not_smaller a b -> not_smaller b c -> not_smaller a c.
Proof.
  unfold numeric_importance, not_smaller.
  destruct (record_key a) as [qa va], (record_key b) as [qb vb],
           (record_key c) as [qc vc]. simpl.
  intros [na Ha] [nb Hb] [nc Hc].
  rewrite (tuple_lt_numeric qa qb na nb), (tuple_lt_numeric qb qc nb nc),
    (tuple_lt_numeric qa qc na nc) by done.
  intros [H1|[H1 H1']] [H2|[H2 H2']]; try (left; lra). right. split; lra.
Qed.

Lemma Sorted_StronglySorted_on {A} (R : relation A) (P : A -> Prop)
    (l : list A) :
  (forall a b c, P a -> P b -> P c -> R a b -> R b c -> R a c) ->
  Forall P l -> Sorted R l -> StronglySorted R l.
Proof.
  intros Htrans HP Hsorted. induction Hsorted as [|x l Hl IH Hhd].
  { constructor. }
  inv HP. constructor; [by apply IH|].
  destruct Hhd as [|y l' Hxy]; [constructor|].
  specialize (IH ltac:(done)). inv IH.
  match goal with H : Forall P (y :: l') |- _ => inv H end.
  constructor; [done|].
  match goal with H : Forall (R y) l' |- _ => rename H into Hy end.
  match goal with H : Forall P l' |- _ => rename H into HPl end.
  rewrite Forall_forall in Hy, HPl. apply Forall_forall. intros z Hz.
  apply (Htrans x y z); auto.
Qed.

(** C2. The list that analyze returns is in descending order of the pair
    (rounded score, raw importance value, 0 when the field is missing): no
    record has a smaller pair than the record after it, the score deciding
    and the importance breaking ties; when the importance values are
    numbers, no record has a smaller pair than any record after it. The
    order is stable: the records of the tasks whose pairs are equal, on
    both components, stand in the order of the input. *)
Theorem analyze_sorted_stable (today : Z) (tasks tasks' : list pydict)
    (s : string) (w : option (gmap string Q)) (out : list pydict) :
  analyze_tasks today tasks s w = (tasks', Ok out) ->
  Sorted not_smaller out /\
  (Forall numeric_importance out -> StronglySorted not_smaller out) /\
  exists scored : list ScoredTask,
    task <$> scored = tasks' /\
    out ≡ₚ to_record <$> scored /\
    forall k, with_key k out = with_key k (to_record <$> scored).
Proof.
  intros H. apply analyze_tasks_ok in H
    as (-> & es & scored & sorted & Hes & Hscored & Hsorted & ->).
  assert (Hlocal : Sorted not_smaller (to_record <$> sorted)).
  { apply (Sorted_fmap _ (fun a b => scored_lt a b = Ok false)).
    - intros a b Hab. unfold not_smaller. by rewrite !record_key_to_record.
    - eapply (sort_reverse_Sorted scored_lt); [|exact Hsorted].
      intros a b. apply tuple_lt_asym. }
  split_and!.
  - done.
  - intros Hnum.
    by apply (Sorted_StronglySorted_on _ numeric_importance
                _ not_smaller_trans).
  - exists scored. split_and!.
    + eapply score_all_tasks; [|exact Hscored].
      intros t st Hst. by apply score_task_fields in Hst as [? _].
    + by rewrite (sort_reverse_perm _ _ _ Hsorted).
    + intros k. unfold with_key. rewrite !filter_fmap_comm. f_equal.
      eapply (sort_reverse_filter scored_lt); [|exact Hsorted].
      intros a b Ha Hb. rewrite record_key_to_record in Ha, Hb.
      by apply (tuple_lt_equal k).
Qed.

Lemma analyze_sorted_stable_witness :
  let r := analyze_tasks 100 [tie_first; tie_second; top_task]
             "high_impact" None in
  r = (r.1, Ok (returned r)) /\
  Sorted not_smaller (returned r) /\
  (fun rec => dict_get rec "id") <$> returned r
  = [PAtom (AStr "z"); PAtom (AStr "x"); PAtom (AStr "y")].
Proof.
  intros r. assert (H : r = (r.1, Ok (returned r)))
    by vm_cast_no_check (eq_refl r).
  split_and!; [exact H| |vm_compute; reflexivity].
  exact (proj1 (analyze_sorted_stable 100 [tie_first; tie_second; top_task]
                  r.1 "high_impact" None (returned r) H)).
Defined.

(** ** Calls that return *)









(** Two tasks with the same score make the sort compare their raw
    importance values; an importance that [int] refuses is normalised to 5
    for the score and still compared as it is. *)
Lemma analyze_raises_on_importance_tie :
  (analyze_tasks 100
     [ {[ "importance" := PAtom (AStr "abc") ]};
       {[ "importance" := PAtom (AInt 5) ]} ]
     "high_impact" None).2
  = Raise TypeError.
Proof. vm_compute. reflexivity. Qed.

(** * Further properties of the code *)

(** ** Cycle detection marks only nodes of cycles *)

Lemma dfs_neighbours_sound (g : graph)
    (rec : pykey -> dfs_state -> option dfs_state) (node : pykey) :
  (forall y st st', rec y st = Some st' ->
     dfs_sound_pre g y st -> dfs_sound_post g st st') ->
  forall neighs st st',
    (forall y, y ∈ neighs -> edge g node y) ->
    dfs_neighbours rec node neighs st = Some st' ->
    dfs_sound_pre g node st -> dfs_sound_post g st st'.
Proof.
  intros Hrec. induction neighs as [|y rest IH]; intros st st' Hedge Hrun Hpre.
  { injection Hrun as <-. destruct Hpre as (_ & _ & Hc). by split_and!. }
  assert (Hy : edge g node y) by (apply Hedge; left).
  assert (Hrest : forall z, z ∈ rest -> edge g node z)
    by (intros z Hz; apply Hedge; by right).
  destruct Hpre as (Hsub & Hreach & Hc). simpl in Hrun.
  destruct (decide (y ∉ visited st)) as [Hnv|Hv].
  - destruct (rec y st) as [st1|] eqn:Hcall; [|done]. simpl in Hrun.
    destruct (Hrec y st st1 Hcall) as (HS1 & HV1 & Hc1).
    { split_and!; [done| |done].
      intros x Hx. eapply rtc_r; [by apply Hreach|done]. }
    destruct (IH st1 st' Hrest Hrun) as (HS2 & HV2 & Hc2).
    { split_and!; [| |done].
      - rewrite HS1. by etrans.
      - intros x Hx. apply Hreach. by rewrite <- HS1. }
    split_and!; [congruence|by etrans|done].
  - destruct (decide (y ∈ on_stack st)) as [Hs|Hns].
    + destruct (IH _ st' Hrest Hrun) as (HS2 & HV2 & Hc2); [|by split_and!].
      split_and!; [done|done|]. simpl. intros x Hx.
      apply elem_of_union in Hx as [Hx|Hx];
        [|apply elem_of_union in Hx as [Hx|Hx]].
      * apply elem_of_singleton in Hx as ->.
        eapply tc_rtc_l; [by apply Hreach|by apply tc_once].
      * apply elem_of_singleton in Hx as ->.
        eapply tc_rtc_r; [by apply tc_once|by apply Hreach].
      * by apply Hc.
    + by apply (IH st st' Hrest Hrun).
Qed.

Lemma dfs_sound (g : graph) (fuel : nat) :
  forall node st st', dfs fuel g node st = Some st' ->
    dfs_sound_pre g node st -> dfs_sound_post g st st'.
Proof.
  induction fuel as [|fuel IH]; intros node st st' Hrun Hpre; [done|].
  simpl in Hrun. destruct (decide (node ∈ visited st)) as [Hv|Hnv].
  { injection Hrun as <-. destruct Hpre as (_ & _ & Hc). by split_and!. }
  destruct Hpre as (Hsub & Hreach & Hc).
  destruct (dfs_neighbours _ _ _ _) as [st2|] eqn:Hloop; [|done].
  injection Hrun as <-.
  destruct (dfs_neighbours_sound g (dfs fuel g) node IH _ _ _
              (fun y Hy => Hy) Hloop) as (HS2 & HV2 & Hc2).
  { split_and!; simpl.
    - clear -Hsub. set_solver.
    - intros x Hx. apply elem_of_union in Hx as [Hx|Hx]; [|by apply Hreach].
      apply elem_of_singleton in Hx as ->. done.
    - done. }
  simpl in *. split_and!; simpl.
  - rewrite HS2. assert (node ∉ on_stack st) by (intros H; by apply Hnv, Hsub).
    set_solver.
  - etrans; [|exact HV2]. apply union_subseteq_r.
  - done.
Qed.

Lemma dfs_roots_sound (g : graph) (fuel : nat) :
  forall nodes st st', dfs_roots fuel g nodes st = Some st' ->
    on_stack st = ∅ -> (forall x, x ∈ in_cycle st -> on_cycle g x) ->
    forall x, x ∈ in_cycle st' -> on_cycle g x.
Proof.
  induction nodes as [|y rest IH]; intros st st' Hrun HS Hc; simpl in Hrun.
  { by injection Hrun as <-. }
  destruct (decide (y ∉ visited st)) as [Hnv|Hv]; [|by eapply IH].
  destruct (dfs fuel g y st) as [st1|] eqn:Hcall; [|done]. simpl in Hrun.
  destruct (dfs_sound g fuel y st st1 Hcall) as (HS1 & _ & Hc1).
  { split_and!; [rewrite HS; apply empty_subseteq| |done].
    intros x Hx. rewrite HS in Hx. by apply not_elem_of_empty in Hx. }
  eapply IH; [exact Hrun|congruence|done].
Qed.

Lemma detect_cycles_on_cycle (g : graph) (x : pykey) :
  x ∈ detect_cycles g -> on_cycle g x.
Proof.
  unfold detect_cycles, run_dfs.
  destruct (dfs_roots _ g (graph_keys g) _) as [st|] eqn:Hrun.
  - apply (dfs_roots_sound g _ _ _ _ Hrun); [done|].
    intros y Hy. by apply not_elem_of_empty in Hy.
  - intros Hx. by apply not_elem_of_empty in Hx.
Qed.

(** X1. Every id in the set that [detect_cycles] returns lies on a cycle of
    the graph: following dependency edges from it, one edge or more, leads
    back to it. So for a graph without a cycle the set is empty. *)
Theorem detect_cycles_sound (g : graph) :
  (forall x, x ∈ detect_cycles g -> on_cycle g x) /\
  ((forall x, ~ on_cycle g x) -> detect_cycles g = ∅).
Proof.
  split; [apply detect_cycles_on_cycle|].
  intros Hg. apply set_eq. intros x. split.
  - intros Hx. by apply detect_cycles_on_cycle, Hg in Hx.
  - intros Hx. by apply not_elem_of_empty in Hx.
Qed.

Lemma detect_cycles_sound_witness :
  let g : graph := [(KStr "a", ["b"]); (KStr "b", ["c"]); (KStr "c", ["a"])] in
  KStr "c" ∈ detect_cycles g /\ on_cycle g (KStr "c").
Proof.
  intros g.
  assert (H : KStr "c" ∈ detect_cycles g)
    by (apply (bool_decide_unpack (KStr "c" ∈ detect_cycles g));
        vm_compute; reflexivity).
  split; [exact H|exact (proj1 (detect_cycles_sound g) (KStr "c") H)].
Defined.

(** ** Batches without dependencies *)

Lemma graph_set_no_edges (g : graph) (k : pykey) :
  (forall k' d, graph_lookup g k' = Some d -> d = []) ->
  forall k' d, graph_lookup (graph_set k [] g) k' = Some d -> d = [].
Proof.
  intros Hg k' d. rewrite graph_lookup_set.
  destruct (decide (k' = k)); [by intros [= <-]|apply Hg].
Qed.

Lemma graph_fill_no_edges (g : graph) (es : list (pykey * list string)) :
  (forall k d, graph_lookup g k = Some d -> d = []) ->
  Forall (fun e => e.2 = []) es ->
  forall k d, graph_lookup (graph_fill g es) k = Some d -> d = [].
Proof.
  unfold graph_fill. intros Hg Hes. revert g Hg.
  induction Hes as [|[k0 d0] es Hd _ IH]; intros g Hg; simpl; [done|].
  simpl in Hd. subst d0. apply IH. by apply graph_set_no_edges.
Qed.

Lemma no_edges_no_cycle (g : graph) :
  (forall k d, graph_lookup g k = Some d -> d = []) -> detect_cycles g = ∅.
Proof.
  intros Hg. apply set_eq. intros x.
  split; [|intros H; by apply not_elem_of_empty in H].
  intros Hx. apply detect_cycles_on_cycle in Hx.
  assert (Hedge : forall a b, edge g a b -> False).
  { unfold edge, graph_get. intros a b Hab.
    destruct (graph_lookup g a) as [d|] eqn:Hd; simpl in Hab.
    - rewrite (Hg a d Hd) in Hab. by apply elem_of_nil in Hab.
    - by apply elem_of_nil in Hab. }
  unfold on_cycle in Hx. destruct Hx as [? ? H|? ? ? H _]; by apply Hedge in H.
Qed.

Lemma to_record_has_cycle (st : ScoredTask) :
  to_record st !! "has_cycle" = Some (PAtom (ABool (has_cycle st))).
Proof. unfold to_record. by rewrite lookup_insert_eq. Qed.

(** X2. When no task of the batch declares a dependency (the field is
    missing, [None] or empty in every task), no record that analyze
    returns is flagged: has_cycle is false in all of them. *)
Theorem no_dependencies_no_flag (today : Z) (tasks tasks' : list pydict)
    (s : string) (w : option (gmap string Q)) (out : list pydict) :
  analyze_tasks today tasks s w = (tasks', Ok out) ->
  Forall (fun t => truthy (dict_get t "dependencies") = false) tasks ->
  Forall (fun r => r !! "has_cycle" = Some (PAtom (ABool false))) out.
Proof.
  intros H Hdeps. apply analyze_tasks_ok in H
    as (-> & es & scored & sorted & Hes & Hscored & Hsorted & ->).
  assert (Hempty : Forall (fun e => e.2 = []) es).
  { apply with_ids_norm_deps in Hes.
    assert (Hd : Forall (fun d : list string => d = []) es.*2).
    { clear -Hes Hdeps. induction Hes as [|t d ts ds Hd _ IH]; [constructor|].
      inv Hdeps. constructor; [|by apply IH].
      unfold task_norm_deps in Hd.
      match goal with H : truthy _ = false |- _ => rewrite H in Hd end.
      by injection Hd as <-. }
    by apply Forall_fmap in Hd. }
  assert (Hcyc : detect_cycles (batch_graph es) = ∅).
  { apply no_edges_no_cycle. unfold batch_graph.
    apply graph_fill_no_edges; [|done].
    apply graph_fill_no_edges; [done|].
    apply Forall_fmap, Forall_forall. by intros k _. }
  apply Forall_fmap, Forall_forall. intros st Hst. simpl.
  rewrite to_record_has_cycle. do 3 f_equal.
  rewrite (sort_reverse_perm _ _ _ Hsorted) in Hst.
  apply list_elem_of_lookup in Hst as [n Hn].
  destruct (Forall2_lookup_r _ _ _ _ _ Hscored Hn) as (t' & _ & Hsc).
  apply score_task_fields in Hsc as (_ & _ & k & _ & -> & _).
  rewrite Hcyc. apply andb_false_iff. left.
  apply bool_decide_eq_false_2. intros Hne. by apply Hne.
Qed.

Lemma no_dependencies_no_flag_witness :
  let batch := [tie_first; tie_second; top_task] in
  let r := analyze_tasks 100 batch "high_impact" None in
  r = (r.1, Ok (returned r)) /\
  Forall (fun t => truthy (dict_get t "dependencies") = false) batch /\
  Forall (fun rec => rec !! "has_cycle" = Some (PAtom (ABool false)))
    (returned r).
Proof.
  intros batch r.
  assert (H : r = (r.1, Ok (returned r))) by vm_cast_no_check (eq_refl r).
  assert (Hd : Forall (fun t => truthy (dict_get t "dependencies") = false)
                 batch)
    by (repeat constructor).
  split_and!; [exact H|exact Hd|].
  exact (no_dependencies_no_flag 100 batch r.1 "high_impact" None
           (returned r) H Hd).
Defined.

(** ** Rounding to two decimals *)

Lemma py_round2_cents (x : Q) : py_round2 x = Qred (round_cents x # 100).
Proof. reflexivity. Qed.

Lemma round_cents_floor (x : Q) :
  round_cents x = Qfloor (x * 100) \/ round_cents x = Qfloor (x * 100) + 1.
Proof.
  unfold round_cents. destruct (_ ?= _)%Q; [|by left|by right].
  destruct (Z.even _); [by left|by right].
Qed.

Lemma round_cents_near (x : Q) :
  (inject_Z (round_cents x) - (1 # 2) <= x * 100
   /\ x * 100 <= inject_Z (round_cents x) + (1 # 2))%Q.
Proof.
  unfold round_cents.
  pose proof (Qfloor_le (x * 100)) as Hlo.
  pose proof (Qlt_floor (x * 100)) as Hhi.
  rewrite inject_Z_plus in Hhi. change (inject_Z 1) with 1%Q in Hhi.
  set (y := (x * 100)%Q) in *. set (f := inject_Z (Qfloor y)) in *.
  destruct (Qcompare_spec (y - f) (1 # 2)) as [He|Hl|Hg]; lazy iota.
  - destruct (Z.even _); rewrite ?inject_Z_plus; fold f;
      change (inject_Z 1) with 1%Q; split; lra.
  - fold f. split; lra.
  - rewrite inject_Z_plus. fold f. change (inject_Z 1) with 1%Q. split; lra.
Qed.

Lemma round_cents_mono (x y : Q) :
  (x <= y)%Q -> round_cents x <= round_cents y.
Proof.
  intros Hxy.
  assert (Hle : (x * 100 <= y * 100)%Q) by lra.
  pose proof (Qfloor_resp_le _ _ Hle) as Hfl.
  destruct (Z.eq_dec (Qfloor (x * 100)) (Qfloor (y * 100))) as [Heq|Hne].
  - unfold round_cents. rewrite <- Heq.
    set (a := (x * 100)%Q) in *. set (b := (y * 100)%Q) in *.
    set (f := inject_Z (Qfloor a)) in *.
    destruct (Qcompare_spec (a - f) (1 # 2)) as [He|Hl|Hg];
    destruct (Qcompare_spec (b - f) (1 # 2)) as [He'|Hl'|Hg'];
      lazy iota; try lia; try lra; destruct (Z.even _); lia.
  - destruct (round_cents_floor x) as [-> | ->],
             (round_cents_floor y) as [-> | ->]; lia.
Qed.

Lemma cents_le (n m : Z) : n <= m -> (Qred (n # 100) <= Qred (m # 100))%Q.
Proof. intros H. rewrite !Qred_correct. unfold Qle. simpl. lia. Qed.

Lemma cents_lt (n m : Z) : n < m -> (Qred (n # 100) < Qred (m # 100))%Q.
Proof. intros H. rewrite !Qred_correct. unfold Qlt. simpl. lia. Qed.

(** Rounding keeps the order of two scores. *)
Lemma py_round2_mono (x y : Q) :
  (x <= y)%Q -> (py_round2 x <= py_round2 y)%Q.
Proof.
  intros H. rewrite !py_round2_cents. by apply cents_le, round_cents_mono.
Qed.

(** Scores two hundredths apart or more stay apart when rounded. *)
Lemma py_round2_strict (x y : Q) :
  (x + (2 # 100) <= y)%Q -> (py_round2 x < py_round2 y)%Q.
Proof.
  intros H. rewrite !py_round2_cents. apply cents_lt.
  destruct (round_cents_near x) as [Hx _], (round_cents_near y) as [_ Hy].
  apply Z.lt_nge. intros Hle. rewrite Zle_Qle in Hle. lra.
Qed.

(** A whole number is its own rounding. *)
Lemma py_round2_int (x : Q) (n : Z) :
  (x == inject_Z n)%Q -> (py_round2 x == inject_Z n)%Q.
Proof.
  intros Hx. rewrite py_round2_cents, Qred_correct.
  assert (Hy : (x * 100 == inject_Z (n * 100))%Q)
    by (rewrite inject_Z_mult, Hx; reflexivity).
  assert (Hc : round_cents x = n * 100).
  { unfold round_cents. rewrite (Qfloor_comp _ _ Hy), Qfloor_Z.
    destruct (Qcompare_spec (x * 100 - inject_Z (n * 100)) (1 # 2));
      [lra|done|lra]. }
  rewrite Hc. unfold Qeq. simpl. lia.
Qed.

(** ** Scores along the result *)

Lemma record_score_to_record (st : ScoredTask) :
  record_score (to_record st) = score st.
Proof. unfold record_score. by rewrite record_key_to_record. Qed.

Lemma not_smaller_score (a b : pydict) :
  not_smaller a b -> (record_score b <= record_score a)%Q.
Proof.
  unfold not_smaller, record_score, tuple_lt.
  destruct (record_key a) as [qa va], (record_key b) as [qb vb]. simpl.
  destruct (Qeq_bool qa qb) eqn:Hq; simpl.
  - intros _. apply Qeq_bool_iff in Hq. lra.
  - intros [= Hlt]. unfold Qltb in Hlt. apply negb_false_iff in Hlt.
    by apply Qle_bool_iff.
Qed.

Lemma StronglySorted_lookup {A} (R : relation A) (l : list A) (i j : nat)
    (a b : A) :
  StronglySorted R l -> (i < j)%nat -> l !! i = Some a -> l !! j = Some b ->
  R a b.
Proof.
  intros Hl. revert i j. induction Hl as [|x l _ IH Hx]; intros i j Hij Hi Hj.
  { done. }
  destruct j as [|j]; [lia|]. simpl in Hj. destruct i as [|i]; simpl in Hi.
  - injection Hi as <-. rewrite Forall_forall in Hx. apply Hx.
    by eapply list_elem_of_lookup_2.
  - apply (IH i j); [lia|done|done].
Qed.

(** The scores of the returned records never go up along the list. *)
Lemma analyze_scores_descend (today : Z) (tasks tasks' : list pydict)
    (s : string) (w : option (gmap string Q)) (out : list pydict)
    (i j : nat) (ri rj : pydict) :
  analyze_tasks today tasks s w = (tasks', Ok out) ->
  (i < j)%nat -> out !! i = Some ri -> out !! j = Some rj ->
  (record_score rj <= record_score ri)%Q.
Proof.
  intros H Hij Hi Hj. apply analyze_tasks_ok in H
    as (-> & es & scored & sorted & Hes & Hscored & Hsorted & ->).
  assert (Hlocal : Sorted (fun a b => (record_score b <= record_score a)%Q)
                     (to_record <$> sorted)).
  { apply (Sorted_fmap _ (fun a b => scored_lt a b = Ok false)).
    - intros a b Hab. apply not_smaller_score. unfold not_smaller.
      by rewrite !record_key_to_record.
    - eapply (sort_reverse_Sorted scored_lt); [|exact Hsorted].
      intros a b. apply tuple_lt_asym. }
  apply Sorted_StronglySorted in Hlocal.
  - by apply (StronglySorted_lookup _ _ i j ri rj Hlocal).
  - intros a b c Hab Hbc. simpl in *. lra.
Qed.

(** X3. In the list that analyze returns the scores never go up: a record
    further down has a score that is lower or equal, whatever the strategy
    and the importance values; so of two records the one with the strictly
    higher score stands first. *)
Theorem scores_never_increase (today : Z) (tasks tasks' : list pydict)
    (s : string) (w : option (gmap string Q)) (out : list pydict) :
  analyze_tasks today tasks s w = (tasks', Ok out) ->
  (forall i j ri rj, (i < j)%nat -> out !! i = Some ri -> out !! j = Some rj ->
     (record_score rj <= record_score ri)%Q) /\
  (forall i j ri rj, out !! i = Some ri -> out !! j = Some rj ->
     (record_score rj < record_score ri)%Q -> (i < j)%nat).
Proof.
  intros H. split.
  - intros i j ri rj. by apply (analyze_scores_descend today tasks tasks' s w).
  - intros i j ri rj Hi Hj Hlt.
    destruct (Nat.lt_trichotomy i j) as [Hij|[->|Hji]]; [done| |].
    + assert (ri = rj) as -> by congruence. lra.
    + pose proof (analyze_scores_descend today tasks tasks' s w out j i rj ri
                    H Hji Hj Hi). lra.
Qed.

Lemma scores_never_increase_witness :
  let r := analyze_tasks 100 example_batch "smart_balance" None in
  r = (r.1, Ok (returned r)) /\
  forall i j ri rj, (i < j)%nat ->
    returned r !! i = Some ri -> returned r !! j = Some rj ->
    (record_score rj <= record_score ri)%Q.
Proof.
  intros r.
  assert (H : r = (r.1, Ok (returned r))) by vm_cast_no_check (eq_refl r).
  split; [exact H|].
  exact (proj1 (scores_never_increase 100 example_batch r.1 "smart_balance"
                  None (returned r) H)).
Defined.

(** A score with two decimals or fewer is its own rounding. *)
Lemma py_round2_exact (x : Q) (z : Z) :
  (x * 100 == inject_Z z)%Q -> (py_round2 x == x)%Q.
Proof.
  intros Hy. rewrite py_round2_cents, Qred_correct.
  assert (Hc : round_cents x = z).
  { unfold round_cents. rewrite (Qfloor_comp _ _ Hy), Qfloor_Z.
    destruct (Qcompare_spec (x * 100 - inject_Z z) (1 # 2));
      [lra|done|lra]. }
  rewrite Hc.
  assert (Hz : (z # 100 == inject_Z z / 100)%Q).
  { unfold Qeq, Qdiv, Qmult, Qinv. simpl. lia. }
  rewrite Hz, <- Hy. field.
Qed.

(** ** Factor scorers *)

(** The urgency is a whole number from 0 to 10. *)
Lemma compute_urgency_score_whole (today : Z) (due : pyval) (u : Q)
    (reason : string) :
  compute_urgency_score today due = Ok (u, reason) ->
  exists z, u = inject_Z z /\ 0 <= z <= 10.
Proof.
  unfold compute_urgency_score. intros H. ok_inv H.
  destruct a as [days|].
  - destruct (days <? 0); injection H as <- _.
    + eexists. split; [done|].
      pose proof (clamp_bounds (10 + Z.max days (-7)) 7 10). lia.
    + eexists. split; [done|]. apply clamp_bounds. lia.
  - injection H as <- _. exists 5. split; [done|lia].
Qed.

(** The effort score is one of 2, 4, 6, 8 and 10. *)
Lemma compute_effort_score_whole (hours : pyval) (e : Q) (reason : string) :
  compute_effort_score hours = Ok (e, reason) ->
  exists z, e = inject_Z (2 * z) /\ 1 <= z <= 5.
Proof.
  unfold compute_effort_score. intros H.
  destruct hours as [a| |]; [|done..].
  assert (Hcases : e = 6%Q \/ e = 10%Q \/ e = 8%Q \/ e = 4%Q \/ e = 2%Q).
  { destruct a; simpl in H;
      repeat match type of H with
             | context [Qle_bool ?x ?y] => destruct (Qle_bool x y)
             end; try discriminate H; injection H as <- _; auto. }
  destruct Hcases as [->|[->|[->|[->| ->]]]];
    [exists 3|exists 5|exists 4|exists 2|exists 1]; split; done || lia.
Qed.

(** ** Records and the tasks they come from *)

Lemma record_of_to_record (t : pydict) (v : pyval) (st : ScoredTask) :
  task st = <["_internal_id" := v]> t -> record_of t (to_record st).
Proof.
  intros Htask key Hkey. rewrite to_record_field, Htask by done.
  apply lookup_insert_ne. intros <-. apply Hkey. set_solver.
Qed.

Lemma record_of_get (t r : pydict) (key : string) :
  record_of t r ->
  key ∉ ["_internal_id"; "score"; "strategy_used"; "explanation"; "has_cycle"]
  -> dict_get r key = dict_get t key.
Proof. intros Hrec Hkey. unfold dict_get. by rewrite (Hrec key Hkey). Qed.

Lemma with_ids_lookup_inv (i : nat) (tasks : list pydict) (t' : pydict) :
  with_ids 0 tasks !! i = Some t' ->
  exists t, tasks !! i = Some t /\ t' = <["_internal_id" := assign_id i t]> t.
Proof.
  intros Ht'. pose proof (lookup_lt_Some _ _ _ Ht') as Hlt.
  rewrite with_ids_length in Hlt.
  destruct (lookup_lt_is_Some_2 tasks i Hlt) as [t Ht].
  exists t. split; [done|].
  pose proof (with_ids_lookup 0 i tasks t Ht) as Ht''. simpl in Ht''.
  congruence.
Qed.

(** Every returned record is the record of a scored task of the batch. *)
Lemma analyze_record_task (today : Z) (tasks tasks' : list pydict)
    (s : string) (w : option (gmap string Q)) (out : list pydict)
    (r : pydict) :
  analyze_tasks today tasks s w = (tasks', Ok out) -> r ∈ out ->
  exists es i t st,
    Forall2 task_entry (with_ids 0 tasks) es /\
    tasks !! i = Some t /\
    score_task today (<["_internal_id" := assign_id i t]> t) s
      (batch_counts es) w (detect_cycles (batch_graph es)) = Ok st /\
    r = to_record st.
Proof.
  intros H Hr. apply analyze_tasks_ok in H
    as (-> & es & scored & sorted & Hes & Hscored & Hsorted & ->).
  apply list_elem_of_fmap in Hr as (st & -> & Hst).
  rewrite (sort_reverse_perm _ _ _ Hsorted) in Hst.
  apply list_elem_of_lookup in Hst as [i Hi].
  destruct (Forall2_lookup_r _ _ _ _ _ Hscored Hi) as (t' & Ht' & Hsc).
  destruct (with_ids_lookup_inv _ _ _ Ht') as (t & Ht & ->).
  by exists es, i, t, st.
Qed.

(** Every task of the batch has its record in the result. *)
Lemma analyze_task_record (today : Z) (tasks tasks' : list pydict)
    (s : string) (w : option (gmap string Q)) (out : list pydict)
    (i : nat) (t : pydict) :
  analyze_tasks today tasks s w = (tasks', Ok out) -> tasks !! i = Some t ->
  exists es st,
    Forall2 task_entry (with_ids 0 tasks) es /\
    score_task today (<["_internal_id" := assign_id i t]> t) s
      (batch_counts es) w (detect_cycles (batch_graph es)) = Ok st /\
    to_record st ∈ out.
Proof.
  intros H Ht. apply analyze_tasks_ok in H
    as (-> & es & scored & sorted & Hes & Hscored & Hsorted & ->).
  destruct (Forall2_lookup_l _ _ _ _ _ Hscored (with_ids_lookup 0 i tasks t Ht))
    as (st & Hst & Hsc).
  exists es, st. split_and!; [done..|].
  apply list_elem_of_fmap_2. rewrite (sort_reverse_perm _ _ _ Hsorted).
  by eapply list_elem_of_lookup_2.
Qed.

(** The score of a returned record, from the record's own fields. *)
Lemma analyze_record_factors (today : Z) (tasks tasks' : list pydict)
    (s : string) (w : option (gmap string Q)) (out : list pydict)
    (r : pydict) :
  analyze_tasks today tasks s w = (tasks', Ok out) -> r ∈ out ->
  exists n urgency urgency_reason effort effort_reason blocks,
    normalize_importance (dict_get r "importance") = Ok n /\
    compute_urgency_score today (dict_get r "due_date")
    = Ok (urgency, urgency_reason) /\
    compute_effort_score (dict_get r "estimated_hours")
    = Ok (effort, effort_reason) /\
    record_score r
    = py_round2 (strategy_score s (inject_Z n) urgency effort blocks w).1.
Proof.
  intros H Hr.
  destruct (analyze_record_task _ _ _ _ _ _ _ H Hr)
    as (es & i & t & st & _ & _ & Hsc & ->).
  pose proof (score_task_fields _ _ _ _ _ _ _ Hsc) as [Htask _].
  pose proof (record_of_to_record _ _ _ Htask) as Hrec.
  destruct (score_task_score _ _ _ _ _ _ _ Hsc)
    as (n & u & ur & e & er & k & Hn & Hu & He & _ & Hscore).
  rewrite !dict_get_insert_ne in Hn, Hu, He by done.
  exists n, u, ur, e, er, (count_get (batch_counts es) k).
  rewrite (record_of_get t _ "importance"), (record_of_get t _ "due_date"),
    (record_of_get t _ "estimated_hours") by (done || set_solver).
  rewrite record_score_to_record. by split_and!.
Qed.

(** ** Scores of the strategies *)

Lemma round_high_impact (n : Z) :
  (py_round2 (score_high_impact (inject_Z n)) == inject_Z n)%Q.
Proof.
  rewrite (py_round2_exact _ (100 * n)).
  - unfold score_high_impact, HIGH_IMPACT_WEIGHT_IMPORTANCE. ring.
  - unfold score_high_impact, HIGH_IMPACT_WEIGHT_IMPORTANCE.
    rewrite inject_Z_mult. change (inject_Z 100) with 100%Q. ring.
Qed.

Lemma round_deadline_driven (n u : Z) :
  (py_round2 (score_deadline_driven (inject_Z n) (inject_Z u))
   == (7 # 10) * inject_Z u + (3 # 10) * inject_Z n)%Q.
Proof.
  rewrite (py_round2_exact _ (70 * u + 30 * n)).
  - reflexivity.
  - unfold score_deadline_driven, DEADLINE_DRIVEN_WEIGHT_URGENCY,
      DEADLINE_DRIVEN_WEIGHT_IMPORTANCE.
    rewrite inject_Z_plus, !inject_Z_mult.
    change (inject_Z 70) with 70%Q. change (inject_Z 30) with 30%Q. field.
Qed.

Lemma round_fastest_wins (n u e : Z) :
  (py_round2 (score_fastest_wins (inject_Z n) (inject_Z u) (inject_Z e))
   == (7 # 10) * inject_Z e + (2 # 10) * inject_Z u
      + (1 # 10) * inject_Z n)%Q.
Proof.
  rewrite (py_round2_exact _ (70 * e + 20 * u + 10 * n)).
  - reflexivity.
  - unfold score_fastest_wins, FASTEST_WINS_WEIGHT_EFFORT,
      FASTEST_WINS_WEIGHT_URGENCY, FASTEST_WINS_WEIGHT_IMPORTANCE.
    rewrite !inject_Z_plus, !inject_Z_mult.
    change (inject_Z 70) with 70%Q. change (inject_Z 20) with 20%Q.
    change (inject_Z 10) with 10%Q. field.
Qed.

Lemma round_smart_balance (n u e : Z) (blocks : nat)
    (w : option (gmap string Q)) :
  weights_or_default w = SMART_WEIGHTS ->
  (py_round2 (score_smart_balance (inject_Z n) (inject_Z u) (inject_Z e)
                blocks w)
   == (4 # 10) * inject_Z n + (3 # 10) * inject_Z u + (2 # 10) * inject_Z e
      + (1 # 10) * inject_Z (Z.of_nat blocks))%Q.
Proof.
  intros Hw. unfold score_smart_balance. rewrite Hw.
  change (weight_get SMART_WEIGHTS "importance") with (4 # 10)%Q.
  change (weight_get SMART_WEIGHTS "urgency") with (3 # 10)%Q.
  change (weight_get SMART_WEIGHTS "effort") with (2 # 10)%Q.
  change (weight_get SMART_WEIGHTS "dependencies") with (1 # 10)%Q.
  apply (py_round2_exact _ (40 * n + 30 * u + 20 * e + 10 * Z.of_nat blocks)).
  rewrite !inject_Z_plus, !inject_Z_mult.
  change (inject_Z 40) with 40%Q. change (inject_Z 30) with 30%Q.
  change (inject_Z 20) with 20%Q. change (inject_Z 10) with 10%Q. field.
Qed.

(** The factor scores of a returned record are whole numbers. *)
Lemma analyze_record_whole (today : Z) (tasks tasks' : list pydict)
    (s : string) (w : option (gmap string Q)) (out : list pydict)
    (r : pydict) :
  analyze_tasks today tasks s w = (tasks', Ok out) -> r ∈ out ->
  exists n u e urgency_reason effort_reason blocks,
    normalize_importance (dict_get r "importance") = Ok n /\
    compute_urgency_score today (dict_get r "due_date")
    = Ok (inject_Z u, urgency_reason) /\
    compute_effort_score (dict_get r "estimated_hours")
    = Ok (inject_Z e, effort_reason) /\
    record_score r
    = py_round2 (strategy_score s (inject_Z n) (inject_Z u) (inject_Z e)
                   blocks w).1.
Proof.
  intros H Hr.
  destruct (analyze_record_factors _ _ _ _ _ _ _ H Hr)
    as (n & u & ur & e & er & blocks & Hn & Hu & He & Hscore).
  destruct (compute_urgency_score_whole _ _ _ _ Hu) as (zu & -> & _).
  destruct (compute_effort_score_whole _ _ _ He) as (ze & -> & _).
  by exists n, zu, (2 * ze), ur, er, blocks.
Qed.

(** X4. The score that a returned record shows is exactly the weighted sum
    of the factor scores of the record's own importance, due date and
    estimated hours: 0.7 effort + 0.2 urgency + 0.1 importance for
    fastest_wins, the importance for high_impact, 0.7 urgency + 0.3
    importance for deadline_driven, and for the balanced strategy under the
    default weights 0.4 importance + 0.3 urgency + 0.2 effort + 0.1 times a
    number of dependents. The factor scores are whole numbers, so rounding
    to two decimals changes nothing. *)
Theorem score_is_weighted_sum (today : Z) (tasks tasks' : list pydict)
    (s : string) (w : option (gmap string Q)) (out : list pydict)
    (r : pydict) :
  analyze_tasks today tasks s w = (tasks', Ok out) -> r ∈ out ->
  exists n u e urgency_reason effort_reason,
    normalize_importance (dict_get r "importance") = Ok n /\
    compute_urgency_score today (dict_get r "due_date")
    = Ok (inject_Z u, urgency_reason) /\
    compute_effort_score (dict_get r "estimated_hours")
    = Ok (inject_Z e, effort_reason) /\
    (s = "fastest_wins" ->
     (record_score r
      == (7 # 10) * inject_Z e + (2 # 10) * inject_Z u
         + (1 # 10) * inject_Z n)%Q) /\
    (s = "high_impact" -> (record_score r == inject_Z n)%Q) /\
    (s = "deadline_driven" ->
     (record_score r == (7 # 10) * inject_Z u + (3 # 10) * inject_Z n)%Q) /\
    (s <> "fastest_wins" -> s <> "high_impact" -> s <> "deadline_driven" ->
     weights_or_default w = SMART_WEIGHTS ->
     exists blocks : nat,
       (record_score r
        == (4 # 10) * inject_Z n + (3 # 10) * inject_Z u
           + (2 # 10) * inject_Z e
           + (1 # 10) * inject_Z (Z.of_nat blocks))%Q).
Proof.
  intros H Hr.
  destruct (analyze_record_whole _ _ _ _ _ _ _ H Hr)
    as (n & u & e & ur & er & blocks & Hn & Hu & He & Hscore).
  exists n, u, e, ur, er. rewrite Hscore. split_and!; try done.
  - intros ->. apply round_fastest_wins.
  - intros ->. apply round_high_impact.
  - intros ->. apply round_deadline_driven.
  - intros H1 H2 H3 Hw. exists blocks.
    rewrite strategy_score_fallback by done. by apply round_smart_balance.
Qed.

Lemma score_is_weighted_sum_witness :
  let r := analyze_tasks 100 example_batch "deadline_driven" None in
  r = (r.1, Ok (returned r)) /\
  forall rec, rec ∈ returned r ->
    exists n u,
      normalize_importance (dict_get rec "importance") = Ok n /\
      (record_score rec == (7 # 10) * inject_Z u + (3 # 10) * inject_Z n)%Q.
Proof.
  intros r.
  assert (H : r = (r.1, Ok (returned r))) by vm_cast_no_check (eq_refl r).
  split; [exact H|]. intros rec Hrec.
  destruct (score_is_weighted_sum 100 example_batch r.1 "deadline_driven"
              None (returned r) rec H Hrec)
    as (n & u & e & ur & er & Hn & _ & _ & _ & _ & Hsum & _).
  exists n, u. split; [exact Hn|exact (Hsum eq_refl)].
Defined.

(** ** What each strategy ranks first *)

(** When every record of [t1] has a higher score than every record of
    [t2], the records of [t1] stand before those of [t2]. *)
Lemma ranks_by_score (today : Z) (tasks tasks' : list pydict) (s : string)
    (w : option (gmap string Q)) (out : list pydict) (i j : nat)
    (t1 t2 : pydict) :
  analyze_tasks today tasks s w = (tasks', Ok out) ->
  tasks !! i = Some t1 -> tasks !! j = Some t2 ->
  (forall r1 r2, r1 ∈ out -> r2 ∈ out -> record_of t1 r1 -> record_of t2 r2 ->
     (record_score r2 < record_score r1)%Q) ->
  ranks_before out t1 t2 /\
  forall p q r1 r2, out !! p = Some r1 -> out !! q = Some r2 ->
    record_of t1 r1 -> record_of t2 r2 -> (p < q)%nat.
Proof.
  intros H Ht1 Ht2 Hlt.
  assert (Hpos : forall p q r1 r2, out !! p = Some r1 -> out !! q = Some r2 ->
            record_of t1 r1 -> record_of t2 r2 -> (p < q)%nat).
  { intros p q r1 r2 Hp Hq Hr1 Hr2.
    assert (Hs : (record_score r2 < record_score r1)%Q).
    { apply Hlt; try done; by eapply list_elem_of_lookup_2. }
    destruct (Nat.lt_trichotomy p q) as [Hpq|[->|Hqp]]; [done| |].
    - assert (r1 = r2) as -> by congruence. lra.
    - pose proof (analyze_scores_descend today tasks tasks' s w out q p r2 r1
                    H Hqp Hq Hp). lra. }
  split; [|exact Hpos].
  destruct (analyze_task_record _ _ _ _ _ _ _ _ H Ht1)
    as (es1 & st1 & _ & Hsc1 & Hin1).
  destruct (analyze_task_record _ _ _ _ _ _ _ _ H Ht2)
    as (es2 & st2 & _ & Hsc2 & Hin2).
  apply score_task_fields in Hsc1 as [Htask1 _].
  apply score_task_fields in Hsc2 as [Htask2 _].
  pose proof (record_of_to_record _ _ _ Htask1) as Hr1.
  pose proof (record_of_to_record _ _ _ Htask2) as Hr2.
  apply list_elem_of_lookup in Hin1 as [p Hp].
  apply list_elem_of_lookup in Hin2 as [q Hq].
  exists p, q, (to_record st1), (to_record st2).
  split_and!; try done. by apply (Hpos p q (to_record st1) (to_record st2)).
Qed.

(** X5. Under the strategy high_impact, a task whose importance normalises
    to a higher value than that of another task of the batch comes before
    it in the result: both have a record in the list, and every record
    with the fields of the first stands before every record with the
    fields of the second, whatever their due dates and efforts. *)
Theorem high_impact_prefers_importance (today : Z)
    (tasks tasks' : list pydict)
    (w : option (gmap string Q)) (out : list pydict) (i j : nat)
    (t1 t2 : pydict) (n1 n2 : Z) :
  analyze_tasks today tasks "high_impact" w = (tasks', Ok out) ->
  tasks !! i = Some t1 -> tasks !! j = Some t2 ->
  normalize_importance (dict_get t1 "importance") = Ok n1 ->
  normalize_importance (dict_get t2 "importance") = Ok n2 ->
  n2 < n1 ->
  ranks_before out t1 t2 /\
  forall p q r1 r2, out !! p = Some r1 -> out !! q = Some r2 ->
    record_of t1 r1 -> record_of t2 r2 -> (p < q)%nat.
Proof.
  intros H Ht1 Ht2 Hn1 Hn2 Hlt.
  apply (ranks_by_score today tasks tasks' "high_impact" w out i j);
    try done.
  intros r1 r2 Hin1 Hin2 Hr1 Hr2.
  destruct (analyze_record_whole _ _ _ _ _ _ _ H Hin1)
    as (m1 & ? & ? & ? & ? & ? & Hm1 & _ & _ & Hs1).
  destruct (analyze_record_whole _ _ _ _ _ _ _ H Hin2)
    as (m2 & ? & ? & ? & ? & ? & Hm2 & _ & _ & Hs2).
  rewrite (record_of_get t1) in Hm1 by (done || set_solver).
  rewrite (record_of_get t2) in Hm2 by (done || set_solver).
  assert (m1 = n1) as -> by congruence. assert (m2 = n2) as -> by congruence.
  rewrite Hs1, Hs2.
  change (py_round2 (score_high_impact (inject_Z n2))
          < py_round2 (score_high_impact (inject_Z n1)))%Q.
  rewrite !round_high_impact, <- Zlt_Qlt. done.
Qed.

Lemma high_impact_prefers_importance_witness :
  let r := analyze_tasks 100 [tie_first; top_task] "high_impact" None in
  r = (r.1, Ok (returned r)) /\ ranks_before (returned r) top_task tie_first.
Proof.
  intros r.
  assert (H : r = (r.1, Ok (returned r))) by vm_cast_no_check (eq_refl r).
  split; [exact H|].
  refine (proj1 (high_impact_prefers_importance 100 [tie_first; top_task] r.1
                   None (returned r) 1 0 top_task tie_first 9 5 H
                   eq_refl eq_refl _ _ _)).
  - vm_compute; reflexivity.
  - vm_compute; reflexivity.
  - lia.
Defined.

(** X6. Under the strategy deadline_driven, a task with a strictly higher
    urgency score than another task of the batch, and an importance that
    normalises to no less, comes before it in the result. So of two tasks
    of equal importance the one due sooner, within the next ten days,
    comes first. *)
Theorem deadline_driven_prefers_urgency (today : Z)
    (tasks tasks' : list pydict)
    (w : option (gmap string Q)) (out : list pydict) (i j : nat)
    (t1 t2 : pydict) (n1 n2 : Z) (u1 u2 : Q) (reason1 reason2 : string) :
  analyze_tasks today tasks "deadline_driven" w = (tasks', Ok out) ->
  tasks !! i = Some t1 -> tasks !! j = Some t2 ->
  normalize_importance (dict_get t1 "importance") = Ok n1 ->
  normalize_importance (dict_get t2 "importance") = Ok n2 ->
  compute_urgency_score today (dict_get t1 "due_date") = Ok (u1, reason1) ->
  compute_urgency_score today (dict_get t2 "due_date") = Ok (u2, reason2) ->
  (u2 < u1)%Q -> n2 <= n1 ->
  ranks_before out t1 t2 /\
  forall p q r1 r2, out !! p = Some r1 -> out !! q = Some r2 ->
    record_of t1 r1 -> record_of t2 r2 -> (p < q)%nat.
Proof.
  intros H Ht1 Ht2 Hn1 Hn2 Hu1 Hu2 Hu Hn.
  apply (ranks_by_score today tasks tasks' "deadline_driven" w out i j);
    try done.
  intros r1 r2 Hin1 Hin2 Hr1 Hr2.
  destruct (analyze_record_whole _ _ _ _ _ _ _ H Hin1)
    as (m1 & z1 & y1 & ? & ? & ? & Hm1 & Hz1 & _ & Hs1).
  destruct (analyze_record_whole _ _ _ _ _ _ _ H Hin2)
    as (m2 & z2 & y2 & ? & ? & ? & Hm2 & Hz2 & _ & Hs2).
  rewrite (record_of_get t1) in Hm1, Hz1 by (done || set_solver).
  rewrite (record_of_get t2) in Hm2, Hz2 by (done || set_solver).
  assert (m1 = n1) as -> by congruence. assert (m2 = n2) as -> by congruence.
  assert (inject_Z z1 = u1) as Hz1' by congruence.
  assert (inject_Z z2 = u2) as Hz2' by congruence.
  rewrite Hs1, Hs2.
  change (py_round2 (score_deadline_driven (inject_Z n2) (inject_Z z2))
          < py_round2 (score_deadline_driven (inject_Z n1) (inject_Z z1)))%Q.
  rewrite !round_deadline_driven, Hz1', Hz2'.
  rewrite Zle_Qle in Hn. lra.
Qed.

(** X7. Under the strategy fastest_wins, a task with a strictly higher
    effort score (fewer estimated hours, in a lower band) than another
    task of the batch, an urgency score that is no lower and an importance
    that normalises to no less, comes before it in the result. *)
Theorem fastest_wins_prefers_low_effort (today : Z)
    (tasks tasks' : list pydict)
    (w : option (gmap string Q)) (out : list pydict) (i j : nat)
    (t1 t2 : pydict) (n1 n2 : Z) (u1 u2 e1 e2 : Q)
    (ur1 ur2 er1 er2 : string) :
  analyze_tasks today tasks "fastest_wins" w = (tasks', Ok out) ->
  tasks !! i = Some t1 -> tasks !! j = Some t2 ->
  normalize_importance (dict_get t1 "importance") = Ok n1 ->
  normalize_importance (dict_get t2 "importance") = Ok n2 ->
  compute_urgency_score today (dict_get t1 "due_date") = Ok (u1, ur1) ->
  compute_urgency_score today (dict_get t2 "due_date") = Ok (u2, ur2) ->
  compute_effort_score (dict_get t1 "estimated_hours") = Ok (e1, er1) ->
  compute_effort_score (dict_get t2 "estimated_hours") = Ok (e2, er2) ->
  (e2 < e1)%Q -> (u2 <= u1)%Q -> n2 <= n1 ->
  ranks_before out t1 t2 /\
  forall p q r1 r2, out !! p = Some r1 -> out !! q = Some r2 ->
    record_of t1 r1 -> record_of t2 r2 -> (p < q)%nat.
Proof.
  intros H Ht1 Ht2 Hn1 Hn2 Hu1 Hu2 He1 He2 He Hu Hn.
  apply (ranks_by_score today tasks tasks' "fastest_wins" w out i j);
    try done.
  intros r1 r2 Hin1 Hin2 Hr1 Hr2.
  destruct (analyze_record_whole _ _ _ _ _ _ _ H Hin1)
    as (m1 & z1 & y1 & ? & ? & ? & Hm1 & Hz1 & Hy1 & Hs1).
  destruct (analyze_record_whole _ _ _ _ _ _ _ H Hin2)
    as (m2 & z2 & y2 & ? & ? & ? & Hm2 & Hz2 & Hy2 & Hs2).
  rewrite (record_of_get t1) in Hm1, Hz1, Hy1 by (done || set_solver).
  rewrite (record_of_get t2) in Hm2, Hz2, Hy2 by (done || set_solver).
  assert (m1 = n1) as -> by congruence. assert (m2 = n2) as -> by congruence.
  assert (inject_Z z1 = u1) as Hz1' by congruence.
  assert (inject_Z z2 = u2) as Hz2' by congruence.
  assert (inject_Z y1 = e1) as Hy1' by congruence.
  assert (inject_Z y2 = e2) as Hy2' by congruence.
  rewrite Hs1, Hs2.
  change (py_round2 (score_fastest_wins (inject_Z n2) (inject_Z z2)
                       (inject_Z y2))
          < py_round2 (score_fastest_wins (inject_Z n1) (inject_Z z1)
                         (inject_Z y1)))%Q.
  rewrite !round_fastest_wins, Hz1', Hz2', Hy1', Hy2'.
  rewrite Zle_Qle in Hn. lra.
Qed.

Lemma deadline_driven_prefers_urgency_witness :
  let r := analyze_tasks 100 [task_due_later; task_due_soon]
             "deadline_driven" None in
  r = (r.1, Ok (returned r)) /\
  ranks_before (returned r) task_due_soon task_due_later.
Proof.
  intros r.
  assert (H : r = (r.1, Ok (returned r))) by vm_cast_no_check (eq_refl r).
  split; [exact H|].
  refine (proj1 (deadline_driven_prefers_urgency 100
                   [task_due_later; task_due_soon] r.1 None (returned r) 1 0
                   task_due_soon task_due_later 5 5 8 3
                   "due soon (in 2 days)" "due in 7 days" H
                   eq_refl eq_refl _ _ _ _ _ _)).
  - vm_compute; reflexivity.
  - vm_compute; reflexivity.
  - vm_compute; reflexivity.
  - vm_compute; reflexivity.
  - reflexivity.
  - lia.
Defined.

Lemma fastest_wins_prefers_low_effort_witness :
  let r := analyze_tasks 100 [task_long; task_quick] "fastest_wins" None in
  r = (r.1, Ok (returned r)) /\
  ranks_before (returned r) task_quick task_long.
Proof.
  intros r.
  assert (H : r = (r.1, Ok (returned r))) by vm_cast_no_check (eq_refl r).
  split; [exact H|].
  refine (proj1 (fastest_wins_prefers_low_effort 100 [task_long; task_quick]
                   r.1 None (returned r) 1 0 task_quick task_long 5 5 5 5 10 4
                   "neutral urgency (no due date)"
                   "neutral urgency (no due date)"
                   "very low effort (~1h)" "high effort (~8h)" H
                   eq_refl eq_refl _ _ _ _ _ _ _ _ _)).
  - vm_compute; reflexivity.
  - vm_compute; reflexivity.
  - vm_compute; reflexivity.
  - vm_compute; reflexivity.
  - vm_compute; reflexivity.
  - vm_compute; reflexivity.
  - reflexivity.
  - discriminate.
  - lia.
Defined.

(** ** Urgency and effort *)

Lemma compute_urgency_score_upcoming (today ordinal : Z) :
  today <= ordinal ->
  exists reason,
    compute_urgency_score today (PDate ordinal)
    = Ok (inject_Z (Z.max 0 (10 - (ordinal - today))), reason) /\
    (ordinal = today -> reason = "due today").
Proof.
  intros Hle. unfold compute_urgency_score, safe_days_until_due. simpl.
  rewrite (proj2 (Z.ltb_ge (ordinal - today) 0)) by lia.
  eexists. split.
  - do 3 f_equal. unfold clamp. lia.
  - intros ->. by rewrite Z.sub_diag.
Qed.

(** X8. For a due date that is today or later the urgency score is 10
    minus the number of days left, and 0 from ten days on: 10 with the
    reason "due today" for today, never higher for a later date than for
    an earlier one, and always from 0 to 10. *)
Theorem urgency_upcoming (today d1 d2 : Z) :
  today <= d1 -> d1 <= d2 ->
  exists u1 u2 reason1 reason2,
    compute_urgency_score today (PDate d1) = Ok (inject_Z u1, reason1) /\
    compute_urgency_score today (PDate d2) = Ok (inject_Z u2, reason2) /\
    u1 = Z.max 0 (10 - (d1 - today)) /\
    0 <= u2 <= u1 /\ u1 <= 10 /\
    (d1 = today -> u1 = 10 /\ reason1 = "due today") /\
    (today + 10 <= d2 -> u2 = 0).
Proof.
  intros H1 H2.
  destruct (compute_urgency_score_upcoming today d1 H1) as (r1 & Hr1 & Hd1).
  destruct (compute_urgency_score_upcoming today d2) as (r2 & Hr2 & _);
    [lia|].
  exists (Z.max 0 (10 - (d1 - today))), (Z.max 0 (10 - (d2 - today))), r1, r2.
  split_and!; try done; try lia.
  intros Hd. split; [lia|by apply Hd1].
Qed.

Lemma urgency_upcoming_witness :
  100 <= 103 /\ 103 <= 120 /\
  exists reason1 reason2,
    compute_urgency_score 100 (PDate 103) = Ok (inject_Z 7, reason1) /\
    compute_urgency_score 100 (PDate 120) = Ok (inject_Z 0, reason2).
Proof.
  assert (H1 : 100 <= 103) by lia. assert (H2 : 103 <= 120) by lia.
  split_and!; [exact H1|exact H2|].
  destruct (urgency_upcoming 100 103 120 H1 H2)
    as (u1 & u2 & r1 & r2 & Hr1 & Hr2 & Hu1 & _ & _ & _ & Hu2).
  exists r1, r2. rewrite Hr1, Hr2, Hu1, (Hu2 ltac:(lia)). split; reflexivity.
Defined.

Lemma compute_urgency_score_mirror (today k : Z) :
  1 <= k ->
  exists reason1 reason2,
    compute_urgency_score today (PDate (today - k))
    = Ok (inject_Z (Z.max 7 (10 - k)), reason1) /\
    compute_urgency_score today (PDate (today + Z.min k 3))
    = Ok (inject_Z (Z.max 7 (10 - k)), reason2).
Proof.
  intros Hk. unfold compute_urgency_score, safe_days_until_due. simpl.
  rewrite (proj2 (Z.ltb_lt (today - k - today) 0)) by lia.
  rewrite (proj2 (Z.ltb_ge (today + Z.min k 3 - today) 0)) by lia.
  eexists _, _. split; do 3 f_equal; unfold clamp; lia.
Qed.

(** X9. A task that is overdue is never as urgent as one due today: a due
    date k days in the past, k at least 1, gets the urgency score
    max(7, 10 - k), which is below the 10 of today and is the very score of
    a task due in min(k, 3) days. *)
Theorem urgency_overdue_below_today (today k : Z) :
  1 <= k ->
  exists u reason1 reason2,
    compute_urgency_score today (PDate (today - k))
    = Ok (inject_Z u, reason1) /\
    compute_urgency_score today (PDate (today + Z.min k 3))
    = Ok (inject_Z u, reason2) /\
    u = Z.max 7 (10 - k) /\ u < 10 /\
    compute_urgency_score today (PDate today) = Ok (inject_Z 10, "due today").
Proof.
  intros Hk. destruct (compute_urgency_score_mirror today k Hk)
    as (r1 & r2 & H1 & H2).
  exists (Z.max 7 (10 - k)), r1, r2. split_and!; try done; [lia|].
  destruct (compute_urgency_score_upcoming today today) as (r & Hr & Hd);
    [lia|].
  rewrite Hr, (Hd eq_refl). do 3 f_equal. lia.
Qed.

Lemma urgency_overdue_below_today_witness :
  1 <= 2 /\
  exists reason1 reason2,
    compute_urgency_score 100 (PDate 98) = Ok (inject_Z 8, reason1) /\
    compute_urgency_score 100 (PDate 102) = Ok (inject_Z 8, reason2).
Proof.
  assert (Hk : 1 <= 2) by lia. split; [exact Hk|].
  destruct (urgency_overdue_below_today 100 2 Hk)
    as (u & r1 & r2 & H1 & H2 & -> & _).
  exists r1, r2. split; [exact H1|exact H2].
Defined.

Lemma compute_effort_score_bands (a : atom) (h : Q) :
  atom_num a = Some h -> (0 < h)%Q ->
  exists reason,
    compute_effort_score a
    = Ok (if Qle_bool h 1 then 10%Q
          else if Qle_bool h 3 then 8%Q
          else if Qle_bool h 6 then 6%Q
          else if Qle_bool h 10 then 4%Q else 2%Q, reason).
Proof.
  intros Ha Hh. unfold compute_effort_score. rewrite Ha.
  assert (Hpos : Qle_bool h 0 = false).
  { destruct (Qle_bool h 0) eqn:Hle; [|done].
    apply Qle_bool_iff in Hle. lra. }
  rewrite Hpos.
  destruct a; try discriminate Ha;
    repeat match goal with |- context [Qle_bool ?x ?y] =>
      destruct (Qle_bool x y) end; eauto.
Qed.

(** X10. For estimated hours that are positive numbers the effort score
    falls as the hours grow: of two such estimates the larger never gets the
    higher score, and every score lies between 2 and 10. An estimate of up
    to one hour gets the 10 and one above ten hours the 2. *)
Theorem effort_falls_with_hours (a1 a2 : atom) (h1 h2 : Q) :
  atom_num a1 = Some h1 -> atom_num a2 = Some h2 ->
  (0 < h1)%Q -> (h1 <= h2)%Q ->
  exists e1 e2 reason1 reason2,
    compute_effort_score a1 = Ok (e1, reason1) /\
    compute_effort_score a2 = Ok (e2, reason2) /\
    (2 <= e2)%Q /\ (e2 <= e1)%Q /\ (e1 <= 10)%Q /\
    ((h1 <= 1)%Q -> e1 = 10%Q) /\ ((10 < h2)%Q -> e2 = 2%Q).
Proof.
  intros Ha1 Ha2 Hpos Hle.
  destruct (compute_effort_score_bands a1 h1 Ha1 Hpos) as [r1 Hr1].
  destruct (compute_effort_score_bands a2 h2 Ha2) as [r2 Hr2]; [lra|].
  eexists _, _, r1, r2. split; [exact Hr1|]. split; [exact Hr2|].
  repeat match goal with |- context [Qle_bool ?x ?y] =>
    let H := fresh "Hb" in
    destruct (Qle_bool x y) eqn:H;
      [apply Qle_bool_iff in H
      |apply not_true_iff_false in H; rewrite Qle_bool_iff in H]
  end; split_and!; try done; try lra; intros; lra.
Qed.

Lemma effort_falls_with_hours_witness :
  exists reason1 reason2,
    compute_effort_score (AInt 2) = Ok (8%Q, reason1) /\
    compute_effort_score (AFloat (15 # 2)) = Ok (4%Q, reason2).
Proof.
  destruct (effort_falls_with_hours (AInt 2) (AFloat (15 # 2)) 2 (15 # 2)
              eq_refl eq_refl)
    as (e1 & e2 & r1 & r2 & H1 & H2 & _); [reflexivity|discriminate|].
  exists r1, r2. split.
  - rewrite H1 in *. vm_compute in H1. by injection H1 as <- <-.
  - rewrite H2 in *. vm_compute in H2. by injection H2 as <- <-.
Defined.

(** ** Exceptions *)


















(** ** What a returning call says of the batch *)

Lemma key_of_hashable (idx : nat) (t : pydict) (k : pykey) :
  key_of (assign_id idx t) = Ok k -> hashable_id (dict_get t "id") = true.
Proof.
  unfold assign_id.
  destruct (dict_get t "id") as [a| |[|x l]]; simpl; try done.
Qed.

Lemma task_norm_deps_ok (t : pydict) (d : list string) :
  task_norm_deps t = Ok d -> dependencies_ok (dict_get t "dependencies") = true.
Proof.
  unfold task_norm_deps, dependencies_ok, norm_deps_of.
  destruct (truthy _) eqn:Ht; simpl; [|done].
  destruct (dict_get t "dependencies") as [[]| |]; done.
Qed.

Lemma compute_urgency_score_ok (today : Z) (due : pyval) (r : Q * string) :
  compute_urgency_score today due = Ok r -> due_date_ok due = true.
Proof.
  unfold compute_urgency_score, safe_days_until_due, due_date_ok.
  destruct (truthy due); simpl; [|done]. by destruct due.
Qed.

Lemma compute_effort_score_ok (hours : pyval) (r : Q * string) :
  compute_effort_score hours = Ok r -> hours_ok hours = true.
Proof.
  unfold compute_effort_score, hours_ok.
  destruct hours as [a| |]; try done.
  destruct a; try done; intros _; apply bool_decide_eq_true_2; simpl; eauto.
Qed.

(** X12. A call of analyze returns only for a batch whose every task has
    fields of the types that the code handles: an id that is missing,
    falsy or hashable, a due date that is missing, falsy or a date,
    estimated hours that are missing, None or a number, and dependencies
    that are missing, falsy, a list or a string. One task with another
    kind of value in one of these fields makes the whole call raise. *)
Theorem analyze_returns_only_well_typed (today : Z)
    (tasks tasks' : list pydict)
    (s : string) (w : option (gmap string Q)) (out : list pydict) :
  analyze_tasks today tasks s w = (tasks', Ok out) ->
  forallb well_typed_task tasks = true.
Proof.
  intros H. apply forallb_forall. intros t Hin.
  apply list_elem_of_In, list_elem_of_lookup in Hin as [i Ht].
  apply analyze_tasks_ok in H
    as (-> & es & scored & sorted & Hes & Hscored & _ & _).
  pose proof (with_ids_lookup 0 i tasks t Ht) as Ht'. simpl in Ht'.
  destruct (Forall2_lookup_l _ _ _ _ _ Hes Ht') as (en & Hen & _).
  destruct (with_ids_entry _ _ _ _ _ Hes Ht Hen) as [Hk Hd].
  destruct (Forall2_lookup_l _ _ _ _ _ Hscored Ht') as (st & _ & Hsc).
  destruct (score_task_score _ _ _ _ _ _ _ Hsc)
    as (n & u & ur & e & er & k & _ & Hu & He & _).
  rewrite dict_get_insert_ne in Hu, He by done.
  unfold well_typed_task.
  rewrite (key_of_hashable _ _ _ Hk), (task_norm_deps_ok _ _ Hd),
    (compute_urgency_score_ok _ _ _ Hu), (compute_effort_score_ok _ _ He).
  done.
Qed.

Lemma analyze_returns_only_well_typed_witness :
  let r := analyze_tasks 100 example_batch "smart_balance" None in
  r = (r.1, Ok (returned r)) /\ forallb well_typed_task example_batch = true.
Proof.
  intros r.
  assert (H : r = (r.1, Ok (returned r))) by vm_cast_no_check (eq_refl r).
  split; [exact H|].
  exact (analyze_returns_only_well_typed 100 example_batch r.1 "smart_balance"
           None (returned r) H).
Defined.

(** ** Weights and the fixed strategies *)

Lemma score_all_ext (f g : pydict -> except ScoredTask) (tasks : list pydict) :
  (forall t, f t = g t) -> score_all f tasks = score_all g tasks.
Proof.
  intros Hfg. induction tasks as [|t tasks IH]; simpl; [done|].
  by rewrite Hfg, IH.
Qed.

Lemma analyze_tasks_weights (today : Z) (tasks : list pydict) (s : string)
    (w w' : option (gmap string Q)) :
  (forall importance urgency effort blocks,
     strategy_score s importance urgency effort blocks w
     = strategy_score s importance urgency effort blocks w') ->
  analyze_tasks today tasks s w = analyze_tasks today tasks s w'.
Proof.
  intros Hs. unfold analyze_tasks. destruct tasks as [|t tasks]; [done|].
  destruct (build_dependency_graph (t :: tasks)) as [ts [[g dc]|e]]; [|done].
  cbn [bind]. f_equal.
  rewrite (score_all_ext _
             (fun task => score_task today task s dc w' (detect_cycles g)));
    [done|].
  intros t0. unfold score_task.
  destruct (normalize_importance _) as [n|]; [cbn [bind]|done].
  destruct (compute_urgency_score _ _) as [[u r]|]; [cbn [bind]|done].
  destruct (compute_effort_score _) as [[e r']|]; [cbn [bind]|done].
  destruct (key_of _) as [k|]; [cbn [bind]|done].
  by rewrite Hs.
Qed.

(** X13. The weights that a caller passes to analyze reach only the
    balanced strategy: under fastest_wins, high_impact and deadline_driven
    a call with any weights does exactly what the call without weights
    does - the same records in the same order, or the same exception. *)
Theorem fixed_strategies_ignore_weights (today : Z) (tasks : list pydict)
    (w : option (gmap string Q)) :
  analyze_tasks today tasks "fastest_wins" w
  = analyze_tasks today tasks "fastest_wins" None /\
  analyze_tasks today tasks "high_impact" w
  = analyze_tasks today tasks "high_impact" None /\
  analyze_tasks today tasks "deadline_driven" w
  = analyze_tasks today tasks "deadline_driven" None.
Proof. split_and!; by apply analyze_tasks_weights. Qed.

(** ** The records of a result *)

Lemma analyze_tasks_length (today : Z) (tasks tasks' : list pydict)
    (s : string) (w : option (gmap string Q)) (out : list pydict) :
  analyze_tasks today tasks s w = (tasks', Ok out) ->
  length out = length tasks.
Proof.
  intros H. apply analyze_tasks_ok in H
    as (-> & es & scored & sorted & _ & Hscored & Hsorted & ->).
  rewrite length_fmap, (sort_reverse_perm _ _ _ Hsorted).
  rewrite <- (Forall2_length _ _ _ Hscored). apply with_ids_length.
Qed.

Lemma analyze_record_fields (today : Z) (tasks tasks' : list pydict)
    (s : string) (w : option (gmap string Q)) (out : list pydict)
    (r : pydict) :
  analyze_tasks today tasks s w = (tasks', Ok out) -> r ∈ out ->
  (exists t, t ∈ tasks /\ record_of t r) /\
  r !! "strategy_used" = Some (PAtom (AStr s)) /\
  (exists q, r !! "score" = Some (PAtom (AFloat q))) /\
  (exists text, r !! "explanation" = Some (PAtom (AStr text))) /\
  (exists flag, r !! "has_cycle" = Some (PAtom (ABool flag))).
Proof.
  intros H Hr.
  destruct (analyze_record_task _ _ _ _ _ _ _ H Hr)
    as (es & i & t & st & _ & Ht & Hsc & ->).
  apply score_task_fields in Hsc as (Htask & Hs & _).
  split_and!.
  - exists t. split; [by eapply list_elem_of_lookup_2|].
    by eapply record_of_to_record.
  - unfold to_record.
    rewrite !(lookup_insert_ne _ _ "strategy_used"), lookup_insert_eq by done.
    by rewrite Hs.
  - eexists. unfold to_record.
    by rewrite !(lookup_insert_ne _ _ "score"), lookup_insert_eq by done.
  - eexists. unfold to_record.
    by rewrite !(lookup_insert_ne _ _ "explanation"), lookup_insert_eq by done.
  - eexists. unfold to_record. by rewrite lookup_insert_eq.
Qed.

(** X14. A call of analyze that returns gives as many records as the batch
    has tasks. Every record carries the fields of a task of the batch
    unchanged, apart from the five keys that the call sets or removes, and
    every task has such a record; in every record strategy_used is the
    strategy string given, score is a float, explanation a string and
    has_cycle a boolean. *)
Theorem analyze_records_of_tasks (today : Z) (tasks tasks' : list pydict)
    (s : string) (w : option (gmap string Q)) (out : list pydict) :
  analyze_tasks today tasks s w = (tasks', Ok out) ->
  length out = length tasks /\
  (forall t, t ∈ tasks -> exists r, r ∈ out /\ record_of t r) /\
  (forall r, r ∈ out ->
     (exists t, t ∈ tasks /\ record_of t r) /\
     r !! "strategy_used" = Some (PAtom (AStr s)) /\
     (exists q, r !! "score" = Some (PAtom (AFloat q))) /\
     (exists text, r !! "explanation" = Some (PAtom (AStr text))) /\
     (exists flag, r !! "has_cycle" = Some (PAtom (ABool flag)))).
Proof.
  intros H. split_and!.
  - by eapply analyze_tasks_length.
  - intros t Hin. apply list_elem_of_lookup in Hin as [i Ht].
    destruct (analyze_task_record _ _ _ _ _ _ _ _ H Ht)
      as (es & st & _ & Hsc & Hin).
    exists (to_record st). split; [done|].
    apply score_task_fields in Hsc as [Htask _].
    by eapply record_of_to_record.
  - intros r Hr. by eapply analyze_record_fields.
Qed.

Lemma analyze_records_of_tasks_witness :
  let r := analyze_tasks 100 example_batch "fastest_wins" None in
  r = (r.1, Ok (returned r)) /\
  length (returned r) = 3%nat /\
  forall t, t ∈ example_batch ->
    exists rec, rec ∈ returned r /\ record_of t rec.
Proof.
  intros r.
  assert (H : r = (r.1, Ok (returned r))) by vm_cast_no_check (eq_refl r).
  split; [exact H|].
  destruct (analyze_records_of_tasks 100 example_batch r.1 "fastest_wins"
              None (returned r) H) as (Hlen & Htasks & _).
  split; [exact Hlen|exact Htasks].
Defined.

(** ** The top of the ranking *)

Lemma slice_to_prefix {A} (limit : Z) (l : list A) :
  exists rest, l = (slice_to limit l ++ rest)%list.
Proof.
  unfold slice_to. destruct (limit <? 0); eexists; symmetry; apply take_drop.
Qed.

Lemma slice_to_length {A} (limit : Z) (l : list A) :
  Z.of_nat (length (slice_to limit l))
  = if limit <? 0 then Z.max 0 (Z.of_nat (length l) + limit)
    else Z.min limit (Z.of_nat (length l)).
Proof.
  unfold slice_to. destruct (limit <? 0) eqn:Hl; rewrite length_take; lia.
Qed.

(** X15. When suggest_top_tasks returns, its list is the head of the list
    that analyze returns for the same batch and strategy without weights:
    min(limit, number of tasks) records for a limit of 0 or more, and all
    but the last -limit records for a negative limit. No record that is
    left out has a higher score than a record that is kept. *)
Theorem suggest_top_tasks_heads_ranking (today : Z)
    (tasks tasks' : list pydict)
    (s : string) (limit : Z) (top : list pydict) :
  suggest_top_tasks today tasks s limit = (tasks', Ok top) ->
  exists rest,
    analyze_tasks today tasks s None = (tasks', Ok (top ++ rest)%list) /\
    Z.of_nat (length top)
    = (if limit <? 0 then Z.max 0 (Z.of_nat (length tasks) + limit)
       else Z.min limit (Z.of_nat (length tasks))) /\
    forall r r', r ∈ top -> r' ∈ rest ->
      (record_score r' <= record_score r)%Q.
Proof.
  unfold suggest_top_tasks.
  destruct (analyze_tasks today tasks s None) as [ts [out|e]] eqn:Ha;
    [|done].
  intros [= -> <-].
  destruct (slice_to_prefix limit out) as [rest Hrest].
  pose proof (slice_to_length limit out) as Hlen.
  rewrite (analyze_tasks_length _ _ _ _ _ _ Ha) in Hlen.
  remember (slice_to limit out) as top eqn:Htop. clear Htop.
  exists rest. split_and!; [by rewrite <- Hrest|done|].
  intros r r' Hr Hr'.
  apply list_elem_of_lookup in Hr as [i Hi].
  apply list_elem_of_lookup in Hr' as [j Hj].
  apply (analyze_scores_descend today tasks tasks' s None out i
           (length top + j) r r' Ha).
  - apply lookup_lt_Some in Hi. lia.
  - rewrite Hrest. by apply lookup_app_l_Some.
  - rewrite Hrest. by rewrite lookup_app_r, Nat.add_comm, Nat.add_sub by lia.
Qed.

Lemma suggest_top_tasks_heads_ranking_witness :
  let r := suggest_top_tasks 100 example_batch "smart_balance" 2 in
  r = (r.1, Ok (returned r)) /\
  length (returned r) = 2%nat /\
  exists rest,
    analyze_tasks 100 example_batch "smart_balance" None
    = (r.1, Ok (returned r ++ rest)%list).
Proof.
  intros r.
  assert (H : r = (r.1, Ok (returned r))) by vm_cast_no_check (eq_refl r).
  split; [exact H|].
  destruct (suggest_top_tasks_heads_ranking 100 example_batch r.1
              "smart_balance" 2 (returned r) H) as (rest & Ha & Hlen & _).
  split; [|by exists rest].
  apply Nat2Z.inj. rewrite Hlen. reflexivity.
Defined.

(** ** The entries of the graph *)

Lemma graph_set_NoDup (g : graph) (k : pykey) (v : list string) :
  NoDup (graph_keys g) -> NoDup (graph_keys (graph_set k v g)).
Proof.
  induction g as [|[k0 v0] g IH]; simpl.
  - intros _. apply NoDup_singleton.
  - destruct (decide (k = k0)) as [->|Hne]; [done|].
    change (NoDup (k0 :: graph_keys g)
            -> NoDup (k0 :: graph_keys (graph_set k v g))).
    rewrite !NoDup_cons, graph_keys_set. intros [Hnot Hnd].
    split; [|by apply IH]. intros [->|Hin]; done.
Qed.

Lemma graph_fill_NoDup (g : graph) (es : list (pykey * list string)) :
  NoDup (graph_keys g) -> NoDup (graph_keys (graph_fill g es)).
Proof.
  unfold graph_fill. revert g. induction es as [|e es IH]; intros g Hg;
    simpl; [done|].
  by apply IH, graph_set_NoDup.
Qed.

Lemma batch_graph_keys (es : list (pykey * list string)) (k : pykey) :
  k ∈ graph_keys (batch_graph es) <-> k ∈ es.*1.
Proof.
  unfold batch_graph. rewrite !graph_fill_keys.
  rewrite <- list_fmap_compose.
  replace ((fst ∘ (fun k0 : pykey => (k0, @nil string))) <$> es.*1) with es.*1
    by (rewrite <- (list_fmap_id (es.*1)) at 1; by apply list_fmap_ext).
  split; [intros [[H|H]|H]; try done; by apply elem_of_nil in H|by right].
Qed.

Lemma last_entry (es : list (pykey * list string)) (k : pykey) :
  k ∈ es.*1 ->
  exists es1 d es2, es = (es1 ++ (k, d) :: es2)%list /\ k ∉ es2.*1.
Proof.
  induction es as [|[k0 d0] es IH]; simpl.
  - intros H. by apply elem_of_nil in H.
  - intros H. destruct (decide (k ∈ es.*1)) as [Hin|Hnot].
    + destruct (IH Hin) as (es1 & d & es2 & -> & Hlast).
      by exists ((k0, d0) :: es1), d, es2.
    + apply elem_of_cons in H as [->|H]; [|done].
      by exists [], d0, es.
Qed.

(** X16. The dependency graph that is built has one entry for each
    distinct internal id of the batch: no key stands twice, there are at
    most as many keys as tasks, and a key maps to the stringified
    dependencies of the last task of the batch that has this id - an
    earlier task with the same id loses its dependency list. *)
Theorem graph_keeps_last_entry (tasks tasks' : list pydict) (g : graph)
    (dependents : gmap pykey nat) :
  build_dependency_graph tasks = (tasks', Ok (g, dependents)) ->
  NoDup (graph_keys g) /\
  (length (graph_keys g) <= length tasks)%nat /\
  forall k, k ∈ graph_keys g <->
    exists i t d,
      tasks !! i = Some t /\ key_of (assign_id i t) = Ok k /\
      task_norm_deps t = Ok d /\ graph_lookup g k = Some d /\
      forall i' t', (i < i')%nat -> tasks !! i' = Some t' ->
        key_of (assign_id i' t') <> Ok k.
Proof.
  intros H. apply build_dependency_graph_ok in H as (-> & es & Hes & [= -> _]).
  fold (batch_graph es).
  assert (Hnd : NoDup (graph_keys (batch_graph es))).
  { unfold batch_graph. apply graph_fill_NoDup, graph_fill_NoDup.
    apply NoDup_nil_2. }
  split_and!.
  - done.
  - rewrite <- (with_ids_length 0 tasks), (Forall2_length _ _ _ Hes).
    rewrite <- (length_fmap fst es).
    apply submseteq_length, NoDup_submseteq; [done|].
    intros k. by rewrite batch_graph_keys.
  - intros k. rewrite batch_graph_keys. split.
    + intros Hin.
      destruct (last_entry es k Hin) as (es1 & d & es2 & Heq & Hlast).
      assert (He : es !! length es1 = Some (k, d)).
      { rewrite Heq. by rewrite list_lookup_middle. }
      destruct (Forall2_lookup_r _ _ _ _ _ Hes He) as (t' & Ht' & _).
      destruct (with_ids_lookup_inv _ _ _ Ht') as (t & Ht & _).
      destruct (with_ids_entry _ _ _ _ _ Hes Ht He) as [Hk Hd].
      exists (length es1), t, d. split_and!; try done.
      * unfold batch_graph. rewrite Heq at 2.
        by apply graph_fill_lookup_last.
      * intros i' t2 Hlt Ht2 Hk2.
        destruct (Forall2_lookup_l _ _ _ _ _ Hes
                    (with_ids_lookup 0 i' tasks t2 Ht2)) as (e2 & He2 & _).
        destruct (with_ids_entry _ _ _ _ _ Hes Ht2 He2) as [Hk2' _].
        assert (e2.1 = k) by congruence. subst k.
        apply Hlast. rewrite Heq in He2.
        rewrite lookup_app_r in He2 by lia.
        destruct (i' - length es1)%nat as [|n] eqn:Hn; [lia|].
        simpl in He2. apply list_elem_of_fmap. exists e2. split; [done|].
        by eapply list_elem_of_lookup_2.
    + intros (i & t & d & Ht & Hk & _).
      destruct (Forall2_lookup_l _ _ _ _ _ Hes
                  (with_ids_lookup 0 i tasks t Ht)) as (e & He & _).
      destruct (with_ids_entry _ _ _ _ _ Hes Ht He) as [Hk' _].
      apply list_elem_of_fmap. exists e. split; [congruence|].
      by eapply list_elem_of_lookup_2.
Qed.

Lemma graph_keeps_last_entry_witness :
  let r := build_dependency_graph [task_a; task_b; task_a_again] in
  is_ok r.2 = true /\
  match r.2 with
  | Ok (g, _) => NoDup (graph_keys g) /\ (length (graph_keys g) <= 3)%nat
  | Raise _ => False
  end.
Proof.
  intros r. split; [reflexivity|].
  destruct r as [tasks' [[g dependents]|e]] eqn:Hr; [|by vm_compute in Hr].
  destruct (graph_keeps_last_entry _ _ _ _ Hr) as (Hnd & Hlen & _).
  split; [exact Hnd|exact Hlen].
Defined.

(** ** The importance *)

Lemma normalize_importance_int (z : Z) :
  normalize_importance (PAtom (AInt z)) = Ok (Z.max 1 (Z.min z 10)).
Proof. reflexivity. Qed.

(** X17. normalize_importance never raises and always answers a whole
    number from 1 to 10, whatever the value it is given (of the values of
    the embedding: a float is finite). A whole number is clamped into that
    range, so one from 1 to 10 is kept; a float is truncated towards zero
    before the clamp; and normalising the answer again changes nothing. *)
Theorem normalize_importance_range (v : pyval) :
  exists n,
    normalize_importance v = Ok n /\ 1 <= n <= 10 /\
    (forall z, v = PAtom (AInt z) -> n = Z.max 1 (Z.min z 10)) /\
    (forall z, v = PAtom (AInt z) -> 1 <= z <= 10 -> n = z) /\
    (forall q, v = PAtom (AFloat q) ->
       n = Z.max 1 (Z.min (Z.quot (Qnum q) (Zpos (Qden q))) 10)) /\
    normalize_importance (PAtom (AInt n)) = Ok n.
Proof.
  destruct (normalize_importance_ok v) as (n & Hn & Hrange & _).
  exists n. split_and!; try done; try lia.
  - intros z ->. rewrite normalize_importance_int in Hn. congruence.
  - intros z -> Hz. rewrite normalize_importance_int in Hn.
    injection Hn as <-. lia.
  - intros q ->. unfold normalize_importance in Hn. simpl in Hn.
    unfold clamp in Hn. congruence.
  - rewrite normalize_importance_int. f_equal. lia.
Qed.

(** ** Ids that are not strings *)

Lemma tc_last_step {A} (R : relation A) (x z : A) :
  tc R x z -> exists y, R y z.
Proof. induction 1 as [x z H|x y z _ _ IH]; eauto. Qed.

Lemma on_cycle_string (g : graph) (k : pykey) :
  on_cycle g k -> exists x, k = KStr x.
Proof.
  intros H. apply tc_last_step in H as [y Hy]. unfold edge in Hy.
  apply list_elem_of_fmap in Hy as (x & -> & _). by exists x.
Qed.

(** X18. Dependencies are compared as strings, ids as they are given. So a
    task whose id is not a string - the integer 1, say - is never counted
    as a dependency of another task and never marked as part of a cycle,
    whatever the dependency lists of the batch say: its dependents count is
    0 and its id is not in the set that the cycle detection returns. *)
Theorem non_string_id_never_linked (tasks tasks' : list pydict) (g : graph)
    (dependents : gmap pykey nat) (k : pykey) :
  build_dependency_graph tasks = (tasks', Ok (g, dependents)) ->
  (forall x, k <> KStr x) ->
  count_get dependents k = 0%nat /\ k ∉ detect_cycles g.
Proof.
  intros H Hk. split.
  - apply build_dependency_graph_ok in H as (-> & es & Hes & [= -> ->]).
    fold (batch_counts es). rewrite batch_counts_get.
    induction (concat es.*2) as [|d l IH]; [done|].
    rewrite filter_cons. by rewrite decide_False by apply Hk.
  - intros Hin. apply detect_cycles_on_cycle, on_cycle_string in Hin as [x ->].
    by apply (Hk x).
Qed.

Lemma non_string_id_never_linked_witness :
  let r := build_dependency_graph [task_id_int_1; task_id_int_2] in
  is_ok r.2 = true /\
  match r.2 with
  | Ok (g, dependents) =>
      count_get dependents (KNum 1 1) = 0%nat /\ KNum 1 1 ∉ detect_cycles g
  | Raise _ => False
  end.
Proof.
  intros r. split; [reflexivity|].
  destruct r as [tasks' [[g dependents]|e]] eqn:Hr; [|by vm_compute in Hr].
  apply (non_string_id_never_linked _ _ _ _ (KNum 1 1) Hr). discriminate.
Defined.

(** ** Tasks that others wait for *)

Lemma ranks_before_scored (today : Z) (tasks tasks' : list pydict)
    (s : string) (w : option (gmap string Q)) (out : list pydict)
    (i j : nat) (t1 t2 : pydict) :
  analyze_tasks today tasks s w = (tasks', Ok out) ->
  tasks !! i = Some t1 -> tasks !! j = Some t2 ->
  (forall es st1 st2,
     Forall2 task_entry (with_ids 0 tasks) es ->
     score_task today (<["_internal_id" := assign_id i t1]> t1) s
       (batch_counts es) w (detect_cycles (batch_graph es)) = Ok st1 ->
     score_task today (<["_internal_id" := assign_id j t2]> t2) s
       (batch_counts es) w (detect_cycles (batch_graph es)) = Ok st2 ->
     (score st2 < score st1)%Q) ->
  ranks_before out t1 t2.
Proof.
  intros H Ht1 Ht2 Hlt. pose proof H as H0. apply analyze_tasks_ok in H0
    as (-> & es & scored & sorted & Hes & Hscored & Hsorted & ->).
  destruct (Forall2_lookup_l _ _ _ _ _ Hscored
              (with_ids_lookup 0 i tasks t1 Ht1)) as (st1 & Hst1 & Hsc1).
  destruct (Forall2_lookup_l _ _ _ _ _ Hscored
              (with_ids_lookup 0 j tasks t2 Ht2)) as (st2 & Hst2 & Hsc2).
  simpl in Hsc1, Hsc2. specialize (Hlt es st1 st2 Hes Hsc1 Hsc2).
  assert (Hin : forall n st, scored !! n = Some st ->
            exists p, (to_record <$> sorted) !! p = Some (to_record st)).
  { intros n st Hn. apply list_elem_of_lookup, list_elem_of_fmap_2.
    rewrite (sort_reverse_perm _ _ _ Hsorted).
    by eapply list_elem_of_lookup_2. }
  destruct (Hin _ _ Hst1) as [p Hp]. destruct (Hin _ _ Hst2) as [q Hq].
  apply score_task_fields in Hsc1 as [Htask1 _].
  apply score_task_fields in Hsc2 as [Htask2 _].
  exists p, q, (to_record st1), (to_record st2).
  split_and!; try done; try by eapply record_of_to_record.
  destruct (Nat.lt_trichotomy p q) as [Hpq|[->|Hqp]]; [done| |].
  - assert (Heq : to_record st1 = to_record st2) by congruence.
    apply (f_equal record_score) in Heq.
    rewrite !record_score_to_record in Heq. rewrite Heq in Hlt. lra.
  - pose proof (analyze_scores_descend _ _ _ _ _ _ q p _ _ H Hqp Hq Hp)
      as Hle.
    rewrite !record_score_to_record in Hle. lra.
Qed.

Lemma norm_deps_unique (tasks : list pydict) (deps deps' : list (list string)) :
  Forall2 (fun t d => task_norm_deps t = Ok d) tasks deps ->
  Forall2 (fun t d => task_norm_deps t = Ok d) tasks deps' -> deps = deps'.
Proof.
  intros H. revert deps'. induction H; intros deps' H'; inv H'; [done|].
  f_equal; [congruence|eauto].
Qed.

(** X19. Under the balanced strategy with its default weights, a task that
    more dependency lists of the batch name than they name another task
    comes before that task in the result, when its importance, urgency
    score and effort score are no lower. The count is of the entries of
    all dependency lists that equal the task's internal id. *)
Theorem smart_balance_prefers_blockers (today : Z)
    (tasks tasks' : list pydict) (s : string) (w : option (gmap string Q))
    (out : list pydict) (i j : nat) (t1 t2 : pydict) (n1 n2 : Z)
    (u1 u2 e1 e2 : Q) (ur1 ur2 er1 er2 : string) (k1 k2 : pykey)
    (deps : list (list string)) :
  analyze_tasks today tasks s w = (tasks', Ok out) ->
  s <> "fastest_wins" -> s <> "high_impact" -> s <> "deadline_driven" ->
  weights_or_default w = SMART_WEIGHTS ->
  tasks !! i = Some t1 -> tasks !! j = Some t2 ->
  normalize_importance (dict_get t1 "importance") = Ok n1 ->
  normalize_importance (dict_get t2 "importance") = Ok n2 ->
  compute_urgency_score today (dict_get t1 "due_date") = Ok (u1, ur1) ->
  compute_urgency_score today (dict_get t2 "due_date") = Ok (u2, ur2) ->
  compute_effort_score (dict_get t1 "estimated_hours") = Ok (e1, er1) ->
  compute_effort_score (dict_get t2 "estimated_hours") = Ok (e2, er2) ->
  key_of (assign_id i t1) = Ok k1 -> key_of (assign_id j t2) = Ok k2 ->
  Forall2 (fun t d => task_norm_deps t = Ok d) tasks deps ->
  n2 <= n1 -> (u2 <= u1)%Q -> (e2 <= e1)%Q ->
  (length (filter (fun d => k2 = KStr d) (concat deps))
   < length (filter (fun d => k1 = KStr d) (concat deps)))%nat ->
  ranks_before out t1 t2.
Proof.
  intros H Hs1 Hs2 Hs3 Hw Ht1 Ht2 Hn1 Hn2 Hu1 Hu2 He1 He2 Hk1 Hk2 Hdeps
    Hn Hu He Hb.
  apply (ranks_before_scored today tasks tasks' s w out i j); try done.
  intros es st1 st2 Hes Hsc1 Hsc2.
  assert (deps = es.*2) as ->.
  { eapply norm_deps_unique; [exact Hdeps|]. by eapply with_ids_norm_deps. }
  destruct (score_task_score _ _ _ _ _ _ _ Hsc1)
    as (m1 & x1 & ? & y1 & ? & c1 & Hm1 & Hx1 & Hy1 & Hc1 & ->).
  destruct (score_task_score _ _ _ _ _ _ _ Hsc2)
    as (m2 & x2 & ? & y2 & ? & c2 & Hm2 & Hx2 & Hy2 & Hc2 & ->).
  unfold task_key in Hc1, Hc2. rewrite dict_get_insert in Hc1, Hc2.
  rewrite !dict_get_insert_ne in Hm1, Hx1, Hy1, Hm2, Hx2, Hy2 by done.
  assert (m1 = n1) as -> by congruence. assert (m2 = n2) as -> by congruence.
  assert (c1 = k1) as -> by congruence. assert (c2 = k2) as -> by congruence.
  assert (x1 = u1) as -> by congruence. assert (x2 = u2) as -> by congruence.
  assert (y1 = e1) as -> by congruence. assert (y2 = e2) as -> by congruence.
  destruct (compute_urgency_score_whole _ _ _ _ Hu1) as (zu1 & -> & _).
  destruct (compute_urgency_score_whole _ _ _ _ Hu2) as (zu2 & -> & _).
  destruct (compute_effort_score_whole _ _ _ He1) as (ze1 & -> & _).
  destruct (compute_effort_score_whole _ _ _ He2) as (ze2 & -> & _).
  rewrite !strategy_score_fallback by done. cbn [fst].
  rewrite !round_smart_balance by done. rewrite !batch_counts_get.
  apply Nat2Z.inj_lt in Hb. rewrite Zlt_Qlt in Hb. rewrite Zle_Qle in Hn.
  lra.
Qed.

Lemma smart_balance_prefers_blockers_witness :
  let r := analyze_tasks 100 [task_free; task_blocker; task_blocked]
             "smart_balance" None in
  r = (r.1, Ok (returned r)) /\
  ranks_before (returned r) task_blocker task_free.
Proof.
  intros r.
  assert (H : r = (r.1, Ok (returned r))) by vm_cast_no_check (eq_refl r).
  split; [exact H|].
  refine (smart_balance_prefers_blockers 100
            [task_free; task_blocker; task_blocked] r.1 "smart_balance" None
            (returned r) 1 0 task_blocker task_free 5 5 5 5 6 6
            "neutral urgency (no due date)" "neutral urgency (no due date)"
            "unknown effort (assumed medium)"
            "unknown effort (assumed medium)"
            (KStr "base") (KStr "free") [[]; []; ["base"]] H
            _ _ _ eq_refl eq_refl eq_refl _ _ _ _ _ _ _ _ _ _ _ _ _).
  - discriminate.
  - discriminate.
  - discriminate.
  - vm_compute; reflexivity.
  - vm_compute; reflexivity.
  - vm_compute; reflexivity.
  - vm_compute; reflexivity.
  - vm_compute; reflexivity.
  - vm_compute; reflexivity.
  - vm_compute; reflexivity.
  - vm_compute; reflexivity.
  - repeat constructor.
  - lia.
  - discriminate.
  - discriminate.
  - vm_compute. lia.
Defined.

(** ** Rings of dependencies *)

Lemma graph_lookup_NoDup (g : graph) (i : nat) (k : pykey) (v : list string) :
  NoDup (graph_keys g) -> g !! i = Some (k, v) -> graph_lookup g k = Some v.
Proof.
  revert i. induction g as [|[k0 v0] g IH]; intros i Hnd Hi; [done|].
  apply NoDup_cons in Hnd as [Hnot Hnd]. destruct i as [|i]; simpl in *.
  - injection Hi as -> ->. by rewrite decide_True.
  - rewrite decide_False; [by eapply IH|].
    intros ->. apply Hnot. apply list_elem_of_fmap. exists (k0, v).
    split; [done|]. by eapply list_elem_of_lookup_2.
Qed.

Lemma ring_entries_keys (first : string) (ids : list string) :
  graph_keys (ring_entries first ids) = KStr <$> ids.
Proof.
  induction ids as [|x ids IH]; [done|].
  change (KStr x :: graph_keys (ring_entries first ids)
          = KStr x :: (KStr <$> ids)).
  by rewrite IH.
Qed.

Lemma ring_entries_lookup (first : string) (pre suf : list string)
    (x : string) :
  ring_entries first (pre ++ x :: suf) !! length pre
  = Some (KStr x, [hd first suf]).
Proof. induction pre as [|y pre IH]; [done|]. exact IH. Qed.

Lemma ring_get (first : string) (pre suf : list string) (x : string) :
  NoDup (pre ++ x :: suf) ->
  graph_get (ring_entries first (pre ++ x :: suf)) (KStr x) = [hd first suf].
Proof.
  intros Hnd. unfold graph_get.
  rewrite (graph_lookup_NoDup _ (length pre) (KStr x) [hd first suf]);
    [done| |].
  - rewrite ring_entries_keys. apply NoDup_fmap; [|done]. by intros ? ? [= ->].
  - apply ring_entries_lookup.
Qed.

Lemma key_set_elem (ids : list string) (x : string) :
  KStr x ∈ key_set ids <-> x ∈ ids.
Proof.
  unfold key_set. rewrite elem_of_list_to_set, list_elem_of_fmap. split.
  - by intros (y & [= ->] & Hy).
  - intros Hx. by exists x.
Qed.

Lemma key_set_snoc (pre : list string) (x : string) :
  {[KStr x]} ∪ key_set pre = key_set (pre ++ [x]).
Proof.
  unfold key_set. rewrite fmap_app, list_to_set_app_L. simpl. set_solver.
Qed.

Lemma dfs_ring (first : string) (suf : list string) :
  forall pre x fuel C,
    NoDup (pre ++ x :: suf) -> first ∈ (pre ++ x :: suf)%list ->
    (length suf < fuel)%nat ->
    dfs fuel (ring_entries first (pre ++ x :: suf)) (KStr x)
      (DfsState (key_set pre) (key_set pre) C)
    = Some (DfsState (key_set (pre ++ x :: suf)) (key_set pre)
              ({[KStr first]} ∪ ({[KStr (ring_last x suf)]} ∪ C))).
Proof.
  induction suf as [|y suf IH]; intros pre x fuel C Hnd Hfirst Hfuel;
    (destruct fuel as [|fuel]; [simpl in Hfuel; lia|]).
  - assert (Hx : x ∉ pre).
    { apply NoDup_app in Hnd as (_ & Hdis & _).
      intros Hin. apply (Hdis x Hin). left. }
    cbn [dfs visited on_stack in_cycle].
    rewrite decide_False by (by rewrite key_set_elem).
    rewrite ring_get by done.
    cbn [hd fmap list_fmap dfs_neighbours visited on_stack in_cycle].
    rewrite key_set_snoc.
    rewrite decide_False by (intros Hnot; apply Hnot; by apply key_set_elem).
    rewrite decide_True by (by apply key_set_elem).
    cbn [mbind option_bind visited on_stack in_cycle ring_last].
    do 2 f_equal. rewrite <- key_set_snoc.
    assert (KStr x ∉ key_set pre) by (by rewrite key_set_elem).
    set_solver.
  - assert (Heq : ((pre ++ [x]) ++ y :: suf = pre ++ x :: y :: suf)%list)
      by (by rewrite <- app_assoc).
    assert (Hx : x ∉ pre).
    { apply NoDup_app in Hnd as (_ & Hdis & _).
      intros Hin. apply (Hdis x Hin). left. }
    assert (Hy : y ∉ (pre ++ [x])%list).
    { rewrite <- Heq in Hnd. apply NoDup_app in Hnd as (_ & Hdis & _).
      intros Hin. apply (Hdis y Hin). left. }
    cbn [dfs visited on_stack in_cycle].
    rewrite decide_False by (by rewrite key_set_elem).
    rewrite ring_get by done.
    cbn [hd fmap list_fmap dfs_neighbours visited on_stack in_cycle].
    rewrite key_set_snoc.
    rewrite decide_True by (by rewrite key_set_elem).
    specialize (IH (pre ++ [x])%list y fuel C). rewrite Heq in IH.
    rewrite IH; [|done|done|simpl in Hfuel; lia].
    cbn [mbind option_bind visited on_stack in_cycle ring_last].
    do 2 f_equal. rewrite <- key_set_snoc.
    assert (KStr x ∉ key_set pre) by (by rewrite key_set_elem).
    set_solver.
Qed.

Lemma dfs_roots_visited (fuel : nat) (g : graph) (nodes : list pykey)
    (st : dfs_state) :
  (forall k, k ∈ nodes -> k ∈ visited st) ->
  dfs_roots fuel g nodes st = Some st.
Proof.
  induction nodes as [|k nodes IH]; intros Hv; simpl; [done|].
  rewrite decide_False by (intros Hnot; apply Hnot, Hv; left).
  apply IH. intros k' Hk'. apply Hv. by right.
Qed.

Lemma key_set_nil : key_set [] = ∅.
Proof. done. Qed.

Lemma detect_cycles_ring (first : string) (others : list string) :
  NoDup (first :: others) ->
  detect_cycles (ring_graph first others)
  = {[KStr first; KStr (ring_last first others)]}.
Proof.
  intros Hnd. unfold detect_cycles, run_dfs, ring_graph.
  rewrite ring_entries_keys.
  pose proof (dfs_ring first others [] first
                (S (length (graph_nodes (ring_graph first others)))) ∅
                Hnd ltac:(left)) as Hdfs.
  unfold ring_graph in Hdfs.
  cbn [app] in Hdfs.
  change (KStr <$> first :: others) with (KStr first :: (KStr <$> others)).
  cbn [dfs_roots visited].
  rewrite decide_True by apply not_elem_of_empty.
  change (@empty (gset pykey) _) with (key_set []) at 1 2.
  rewrite Hdfs.
  - cbn [mbind option_bind].
    rewrite dfs_roots_visited.
    + cbn [in_cycle]. set_solver.
    + intros k Hk. cbn [visited].
      apply list_elem_of_fmap in Hk as (x & -> & Hx).
      apply key_set_elem. by right.
  - unfold graph_nodes.
    rewrite ring_entries_keys, length_app, length_fmap. simpl. lia.
Qed.

Lemma ring_edge (first : string) (pre suf : list string) (x : string) :
  NoDup (pre ++ x :: suf) ->
  edge (ring_entries first (pre ++ x :: suf)) (KStr x) (KStr (hd first suf)).
Proof.
  intros Hnd. unfold edge. rewrite ring_get by done.
  apply list_elem_of_singleton. reflexivity.
Qed.

Lemma ring_walk (first : string) (mid : list string) :
  forall pre x z suf,
    NoDup (pre ++ x :: mid ++ z :: suf) ->
    rtc (edge (ring_entries first (pre ++ x :: mid ++ z :: suf)))
      (KStr x) (KStr z).
Proof.
  induction mid as [|m mid IH]; intros pre x z suf Hnd.
  - apply rtc_once. apply (ring_edge first pre (z :: suf) x Hnd).
  - pose proof (ring_edge first pre (m :: mid ++ z :: suf) x Hnd) as Hstep.
    cbn [hd] in Hstep. eapply rtc_l; [exact Hstep|].
    assert (Heq : ((pre ++ [x]) ++ m :: mid ++ z :: suf
                   = pre ++ x :: (m :: mid) ++ z :: suf)%list)
      by (by rewrite <- app_assoc).
    rewrite <- Heq. apply (IH (pre ++ [x])%list m z suf). by rewrite Heq.
Qed.

Lemma ring_last_snoc (x : string) (rest : list string) :
  exists pre, x :: rest = (pre ++ [ring_last x rest])%list.
Proof.
  revert x. induction rest as [|y rest IH]; intros x.
  - by exists [].
  - destruct (IH y) as [pre Hpre]. exists (x :: pre). simpl. by rewrite Hpre.
Qed.

Lemma ring_last_app (a : string) (pre suf : list string) (x : string) :
  ring_last a (pre ++ x :: suf) = ring_last x suf.
Proof. revert a. induction pre as [|y pre IH]; intros a; [done|apply IH]. Qed.

Lemma ring_on_cycle (first : string) (others : list string) (x : string) :
  NoDup (first :: others) -> x ∈ first :: others ->
  on_cycle (ring_graph first others) (KStr x).
Proof.
  intros Hnd Hx. unfold on_cycle, ring_graph.
  set (lst := ring_last first others).
  assert (Hback : edge (ring_entries first (first :: others))
                    (KStr lst) (KStr first)).
  { destruct (ring_last_snoc first others) as [pre Hpre]. fold lst in Hpre.
    rewrite Hpre. apply (ring_edge first pre [] lst). by rewrite <- Hpre. }
  apply list_elem_of_split in Hx as (pre & suf & Hsplit).
  assert (Hto : rtc (edge (ring_entries first (first :: others)))
                  (KStr x) (KStr lst)).
  { destruct (ring_last_snoc x suf) as [mid Hmid].
    assert (Hlst : ring_last x suf = lst).
    { unfold lst. destruct pre as [|a pre]; simpl in Hsplit.
      - by injection Hsplit as -> ->.
      - injection Hsplit as -> ->. by rewrite ring_last_app. }
    rewrite Hlst in Hmid. destruct mid as [|m mid]; simpl in Hmid.
    - injection Hmid as -> _. apply rtc_refl.
    - injection Hmid as <- Hsuf. rewrite Hsplit, Hsuf.
      apply ring_walk. by rewrite <- Hsuf, <- Hsplit. }
  assert (Hfrom : rtc (edge (ring_entries first (first :: others)))
                    (KStr first) (KStr x)).
  { destruct pre as [|a pre]; simpl in Hsplit.
    - injection Hsplit as -> _. apply rtc_refl.
    - injection Hsplit as <- Hothers. rewrite Hothers.
      apply (ring_walk first pre [] first x suf). simpl.
      by rewrite <- Hothers. }
  eapply tc_rtc_l; [exact Hto|]. eapply tc_rtc_r; [|exact Hfrom].
  by apply tc_once.
Qed.

Lemma ring_last_lookup (a : string) (rest : list string) :
  rest <> [] -> rest !! (length rest - 1)%nat = Some (ring_last a rest).
Proof.
  revert a. induction rest as [|y rest IH]; intros a Hne; [done|].
  destruct rest as [|z rest]; [done|].
  change (ring_last a (y :: z :: rest)) with (ring_last y (z :: rest)).
  rewrite <- (IH y) by done. simpl. by rewrite Nat.sub_0_r.
Qed.

(** X20. The cycle detection marks only two tasks of a ring. In the graph
    of a ring of tasks with different ids, where each task lists the next
    one as its only dependency and the last one lists the first, every task
    lies on the cycle, and the set returned holds the first id and the last
    id and no other: a task in between is on the cycle and is not marked. *)
Theorem ring_marks_only_two (first : string) (others : list string) :
  NoDup (first :: others) ->
  detect_cycles (ring_graph first others)
  = {[KStr first; KStr (ring_last first others)]} /\
  (forall x, x ∈ first :: others ->
     on_cycle (ring_graph first others) (KStr x)) /\
  (forall i x, others !! i = Some x -> (S i < length others)%nat ->
     KStr x ∉ detect_cycles (ring_graph first others)).
Proof.
  intros Hnd. split_and!.
  - by apply detect_cycles_ring.
  - intros x Hx. by apply ring_on_cycle.
  - intros i x Hi Hlt. rewrite detect_cycles_ring by done.
    apply NoDup_cons in Hnd as [Hfirst Hnd].
    assert (Hlast : others !! (length others - 1)%nat
                    = Some (ring_last first others)).
    { apply ring_last_lookup. by intros ->. }
    rewrite elem_of_union, !elem_of_singleton. intros [[= ->]|[= ->]].
    + apply Hfirst. by eapply list_elem_of_lookup_2.
    + pose proof (NoDup_lookup _ _ _ _ Hnd Hi Hlast). lia.
Qed.

Lemma ring_marks_only_two_witness :
  NoDup ["a"; "b"; "c"; "d"] /\
  on_cycle (ring_graph "a" ["b"; "c"; "d"]) (KStr "b") /\
  KStr "b" ∉ detect_cycles (ring_graph "a" ["b"; "c"; "d"]).
Proof.
  assert (Hnd : NoDup ["a"; "b"; "c"; "d"]).
  { apply (bool_decide_unpack (NoDup ["a"; "b"; "c"; "d"])).
    vm_compute. reflexivity. }
  destruct (ring_marks_only_two "a" ["b"; "c"; "d"] Hnd) as (_ & Hon & Hnot).
  split_and!; [exact Hnd| |].
  - apply Hon. right. left.
  - apply (Hnot 0%nat "b" eq_refl). simpl. lia.
Defined.

(** ** The graph of a batch with different ids *)

Lemma graph_set_absent (g : graph) (k : pykey) (v : list string) :
  k ∉ graph_keys g -> graph_set k v g = (g ++ [(k, v)])%list.
Proof.
  induction g as [|[k0 v0] g IH]; [done|].
  change (graph_keys ((k0, v0) :: g)) with (k0 :: graph_keys g).
  rewrite not_elem_of_cons. intros [Hne Hnot]. simpl.
  rewrite decide_False by done. by rewrite IH.
Qed.

Lemma graph_set_present (g1 g2 : graph) (k : pykey) (v0 v : list string) :
  k ∉ graph_keys g1 ->
  graph_set k v (g1 ++ (k, v0) :: g2) = (g1 ++ (k, v) :: g2)%list.
Proof.
  induction g1 as [|[k1 v1] g1 IH]; simpl.
  - intros _. by rewrite decide_True.
  - change (graph_keys ((k1, v1) :: g1)) with (k1 :: graph_keys g1).
    rewrite not_elem_of_cons. intros [Hne Hnot].
    rewrite decide_False by done. by rewrite IH.
Qed.

Lemma graph_keys_app (g1 g2 : graph) :
  graph_keys (g1 ++ g2) = (graph_keys g1 ++ graph_keys g2)%list.
Proof. unfold graph_keys. apply fmap_app. Qed.

Lemma graph_fill_cons (g : graph) (k : pykey) (v : list string)
    (es : list (pykey * list string)) :
  graph_fill g ((k, v) :: es) = graph_fill (graph_set k v g) es.
Proof. reflexivity. Qed.

Lemma graph_fill_fresh (ks : list pykey) :
  forall g, NoDup (graph_keys g ++ ks) ->
    graph_fill g ((fun k => (k, [])) <$> ks)
    = (g ++ ((fun k => (k, [])) <$> ks))%list.
Proof.
  induction ks as [|k ks IH]; intros g Hnd.
  - by rewrite app_nil_r.
  - rewrite fmap_cons, graph_fill_cons, graph_set_absent.
    + rewrite IH; [by rewrite <- app_assoc|].
      rewrite graph_keys_app, <- app_assoc. exact Hnd.
    + apply NoDup_app in Hnd as (_ & Hdis & _). intros Hin.
      apply (Hdis k Hin). left.
Qed.

Lemma graph_fill_in_place (es : list (pykey * list string)) :
  forall filled, NoDup (graph_keys filled ++ es.*1) ->
    graph_fill (filled ++ ((fun k => (k, [])) <$> es.*1)) es
    = (filled ++ es)%list.
Proof.
  induction es as [|[k v] es IH]; intros filled Hnd.
  - done.
  - rewrite !fmap_cons, graph_fill_cons. cbn [fst].
    rewrite graph_set_present.
    + rewrite (cons_middle (k, v)), app_assoc, IH;
        [by rewrite <- app_assoc|].
      rewrite graph_keys_app, <- app_assoc. exact Hnd.
    + apply NoDup_app in Hnd as (_ & Hdis & _). intros Hin.
      apply (Hdis k Hin). left.
Qed.

Lemma batch_graph_distinct (es : list (pykey * list string)) :
  NoDup es.*1 -> batch_graph es = es.
Proof.
  intros Hnd. unfold batch_graph.
  rewrite (graph_fill_fresh es.*1 []) by done.
  apply (graph_fill_in_place es []). done.
Qed.

(** X21. When the internal ids of the tasks are pairwise different, the
    graph that is built lists the tasks in the order of the batch: it has
    one entry for each task, and the entry at the position of a task holds
    the task's internal id and its stringified dependencies. *)
Theorem graph_in_batch_order (tasks tasks' : list pydict) (g : graph)
    (dependents : gmap pykey nat) :
  build_dependency_graph tasks = (tasks', Ok (g, dependents)) ->
  (forall i j a b, i <> j -> tasks !! i = Some a -> tasks !! j = Some b ->
     key_of (assign_id i a) <> key_of (assign_id j b)) ->
  length g = length tasks /\
  forall i t, tasks !! i = Some t ->
    exists k d, g !! i = Some (k, d) /\
      key_of (assign_id i t) = Ok k /\ task_norm_deps t = Ok d.
Proof.
  intros H Hdistinct.
  apply build_dependency_graph_ok in H as (-> & es & Hes & [= -> _]).
  fold (batch_graph es).
  assert (Hlen : length es = length tasks).
  { by rewrite <- (Forall2_length _ _ _ Hes), with_ids_length. }
  assert (Hentry : forall i t, tasks !! i = Some t ->
            exists e, es !! i = Some e /\
              key_of (assign_id i t) = Ok e.1 /\ task_norm_deps t = Ok e.2).
  { intros i t Ht.
    destruct (Forall2_lookup_l _ _ _ _ _ Hes (with_ids_lookup 0 i tasks t Ht))
      as (e & He & _).
    exists e. split; [done|]. by eapply with_ids_entry. }
  assert (Hnd : NoDup es.*1).
  { apply NoDup_alt. intros i j k Hi Hj.
    destruct (decide (i = j)) as [|Hne]; [done|]. exfalso.
    rewrite list_lookup_fmap in Hi, Hj.
    destruct (es !! i) as [ei|] eqn:Hei; [|done].
    destruct (es !! j) as [ej|] eqn:Hej; [|done].
    simpl in Hi, Hj.
    destruct (lookup_lt_is_Some_2 tasks i) as [a Ha];
      [rewrite <- Hlen; by eapply lookup_lt_Some|].
    destruct (lookup_lt_is_Some_2 tasks j) as [b Hb];
      [rewrite <- Hlen; by eapply lookup_lt_Some|].
    destruct (Hentry i a Ha) as (e1 & He1 & Hk1 & _).
    destruct (Hentry j b Hb) as (e2 & He2 & Hk2 & _).
    apply (Hdistinct i j a b Hne Ha Hb). congruence. }
  rewrite (batch_graph_distinct es Hnd). split; [done|].
  intros i t Ht. destruct (Hentry i t Ht) as ([k d] & He & Hk & Hd).
  by exists k, d.
Qed.

Lemma graph_in_batch_order_witness :
  let r := build_dependency_graph [task_lists_b; task_lists_nothing] in
  is_ok r.2 = true /\
  match r.2 with
  | Ok (g, _) =>
      length g = 2%nat /\
      exists k d, g !! 0%nat = Some (k, d) /\
        key_of (assign_id 0 task_lists_b) = Ok k /\
        task_norm_deps task_lists_b = Ok d
  | Raise _ => False
  end.
Proof.
  intros r. split; [reflexivity|].
  destruct r as [tasks' [[g dependents]|e]] eqn:Hr; [|by vm_compute in Hr].
  destruct (graph_in_batch_order _ _ _ _ Hr) as (Hlen & Hentry).
  - intros [|[|i]] [|[|j]] a b Hij; simpl; try done;
      intros [= <-] [= <-]; by vm_compute.
  - split; [exact Hlen|]. exact (Hentry 0%nat task_lists_b eq_refl).
Defined.

(** ** Rings of tasks *)

Lemma ring_member_entry (i : nat) (t : pydict) (e : pykey * list string) :
  ring_member t e ->
  key_of (assign_id i t) = Ok e.1 /\ task_norm_deps t = Ok e.2.
Proof.
  intros (x & next & -> & Hx & Hid & Hdeps).
  unfold assign_id, task_norm_deps. rewrite Hid, Hdeps. simpl.
  by rewrite (proj2 (String.eqb_neq x "") Hx).
Qed.

Lemma ring_entries_of_tasks (tasks : list pydict)
    (ring es : list (pykey * list string)) :
  Forall2 ring_member tasks ring ->
  Forall2 task_entry (with_ids 0 tasks) es -> es = ring.
Proof.
  intros Hring Hes. apply list_eq. intros i.
  destruct (tasks !! i) as [t|] eqn:Ht.
  - destruct (Forall2_lookup_l _ _ _ _ _ Hring Ht) as (e & He & Hmem).
    destruct (Forall2_lookup_l _ _ _ _ _ Hes (with_ids_lookup 0 i tasks t Ht))
      as (e' & He' & _).
    destruct (with_ids_entry _ _ _ _ _ Hes Ht He') as [Hk Hd].
    destruct (ring_member_entry i t e Hmem) as [Hk' Hd'].
    rewrite He, He'. f_equal. destruct e, e'. simpl in *. congruence.
  - apply lookup_ge_None in Ht.
    rewrite (proj2 (lookup_ge_None es i)), (proj2 (lookup_ge_None ring i));
      [done| |].
    + by rewrite <- (Forall2_length _ _ _ Hring).
    + by rewrite <- (Forall2_length _ _ _ Hes), with_ids_length.
Qed.

(** X22. In a batch that is one ring of dependencies - tasks with
    different non-empty string ids, each listing the next one as its only
    dependency and the last one listing the first - a call of analyze that
    returns sets has_cycle to true in the records of the first and of the
    last task of the batch, and to false in the records of all tasks in
    between, although each of them is on the cycle. *)
Theorem ring_flags_two (today : Z) (tasks tasks' : list pydict) (s : string)
    (w : option (gmap string Q)) (out : list pydict) (first : string)
    (others : list string) :
  analyze_tasks today tasks s w = (tasks', Ok out) ->
  NoDup (first :: others) ->
  Forall2 ring_member tasks (ring_graph first others) ->
  forall r, r ∈ out ->
    exists x,
      x ∈ first :: others /\ dict_get r "id" = PAtom (AStr x) /\
      r !! "has_cycle"
      = Some (PAtom (ABool (bool_decide
                              (x = first \/ x = ring_last first others)))).
Proof.
  intros H Hnd Hring r Hr.
  destruct (analyze_record_task _ _ _ _ _ _ _ H Hr)
    as (es & i & t & st & Hes & Ht & Hsc & ->).
  rewrite (ring_entries_of_tasks _ _ _ Hring Hes) in Hsc.
  rewrite batch_graph_distinct in Hsc.
  2:{ change (NoDup (graph_keys (ring_entries first (first :: others)))).
      rewrite ring_entries_keys. apply NoDup_fmap; [|done].
      by intros ? ? [= ->]. }
  rewrite (detect_cycles_ring first others Hnd) in Hsc.
  destruct (Forall2_lookup_l _ _ _ _ _ Hring Ht) as (e & He & Hmem).
  destruct (ring_member_entry i t e Hmem) as [Hk _].
  destruct Hmem as (x & next & -> & Hx & Hid & Hdeps). simpl in Hk.
  apply score_task_fields in Hsc as (Htask & _ & k & Hkey & Hflag & _).
  unfold task_key in Hkey. rewrite dict_get_insert in Hkey.
  assert (k = KStr x) as -> by congruence.
  exists x. split_and!.
  - apply list_elem_of_lookup_2 in He.
    apply (list_elem_of_fmap_2 fst) in He. simpl in He.
    change (KStr x ∈ graph_keys (ring_entries first (first :: others)))
      in He.
    rewrite ring_entries_keys in He.
    apply list_elem_of_fmap in He as (y & [= ->] & Hy). done.
  - rewrite (record_of_get t) by (by eapply record_of_to_record || set_solver).
    done.
  - rewrite to_record_has_cycle, Hflag. do 3 f_equal.
    rewrite bool_decide_eq_true_2 by set_solver. simpl.
    apply bool_decide_ext. rewrite elem_of_union, !elem_of_singleton.
    split; intros [Ha|Hb]; (left; congruence) || (right; congruence).
Qed.

Lemma ring_flags_two_witness :
  let batch := [ring_task "a" "b"; ring_task "b" "c"; ring_task "c" "a"] in
  let r := analyze_tasks 100 batch "smart_balance" None in
  r = (r.1, Ok (returned r)) /\
  forall rec, rec ∈ returned r ->
    exists x,
      dict_get rec "id" = PAtom (AStr x) /\
      rec !! "has_cycle"
      = Some (PAtom (ABool (bool_decide (x = "a" \/ x = "c")))).
Proof.
  intros batch r.
  assert (H : r = (r.1, Ok (returned r))) by vm_cast_no_check (eq_refl r).
  split; [exact H|].
  assert (Hnd : NoDup ["a"; "b"; "c"]).
  { apply (bool_decide_unpack (NoDup ["a"; "b"; "c"])). vm_compute.
    reflexivity. }
  assert (Hring : Forall2 ring_member batch (ring_graph "a" ["b"; "c"])).
  { repeat constructor; eexists _, _; split_and!; try reflexivity; done. }
  intros rec Hrec.
  destruct (ring_flags_two 100 batch r.1 "smart_balance" None (returned r)
              "a" ["b"; "c"] H Hnd Hring rec Hrec) as (x & _ & Hid & Hflag).
  exists x. split; [exact Hid|exact Hflag].
Defined.

(** ** The scale of the scores *)

(** X23. The scores of the three fixed strategies are on a scale that ends
    at 10: from 1 to 10 under high_impact, from 0.3 to 10 under
    deadline_driven and from 1.5 to 10 under fastest_wins. Under the
    balanced strategy with the default weights a score is 0.8 or more, and
    it has no upper bound of its own: it grows by 0.1 with each dependent. *)
Theorem scores_within_scale (today : Z) (tasks tasks' : list pydict)
    (s : string) (w : option (gmap string Q)) (out : list pydict)
    (r : pydict) :
  analyze_tasks today tasks s w = (tasks', Ok out) -> r ∈ out ->
  (s = "high_impact" -> (1 <= record_score r <= 10)%Q) /\
  (s = "deadline_driven" -> (3 # 10 <= record_score r <= 10)%Q) /\
  (s = "fastest_wins" -> (15 # 10 <= record_score r <= 10)%Q) /\
  (s <> "fastest_wins" -> s <> "high_impact" -> s <> "deadline_driven" ->
   weights_or_default w = SMART_WEIGHTS -> (8 # 10 <= record_score r)%Q).
Proof.
  intros H Hr.
  destruct (analyze_record_whole _ _ _ _ _ _ _ H Hr)
    as (n & u & e & ur & er & blocks & Hn & Hu & He & Hscore).
  destruct (normalize_importance_ok (dict_get r "importance"))
    as (n' & Hn' & Hnr & _).
  assert (n' = n) as -> by congruence.
  destruct (compute_urgency_score_whole _ _ _ _ Hu) as (u' & Hu' & Hur).
  injection Hu' as ->.
  destruct (compute_effort_score_whole _ _ _ He) as (e' & He' & Her).
  injection He' as ->.
  assert (Hnq : (1 <= inject_Z n <= 10)%Q).
  { change 1%Q with (inject_Z 1). change 10%Q with (inject_Z 10).
    rewrite <- !Zle_Qle. lia. }
  assert (Huq : (0 <= inject_Z u' <= 10)%Q).
  { change 0%Q with (inject_Z 0). change 10%Q with (inject_Z 10).
    rewrite <- !Zle_Qle. lia. }
  assert (Heq : (2 <= inject_Z (2 * e') <= 10)%Q).
  { change 2%Q with (inject_Z 2). change 10%Q with (inject_Z 10).
    rewrite <- !Zle_Qle. lia. }
  assert (Hbq : (0 <= inject_Z (Z.of_nat blocks))%Q).
  { change 0%Q with (inject_Z 0). rewrite <- Zle_Qle. lia. }
  rewrite Hscore. split_and!.
  - intros ->. cbn [strategy_score String.eqb Ascii.eqb Bool.eqb fst].
    rewrite round_high_impact. lra.
  - intros ->. cbn [strategy_score String.eqb Ascii.eqb Bool.eqb fst].
    rewrite round_deadline_driven. lra.
  - intros ->. cbn [strategy_score String.eqb Ascii.eqb Bool.eqb fst].
    rewrite round_fastest_wins. lra.
  - intros H1 H2 H3 Hw. rewrite strategy_score_fallback by done. cbn [fst].
    rewrite round_smart_balance by done. lra.
Qed.

Lemma scores_within_scale_witness :
  let r := analyze_tasks 100 example_batch "fastest_wins" None in
  r = (r.1, Ok (returned r)) /\
  forall rec, rec ∈ returned r -> (15 # 10 <= record_score rec <= 10)%Q.
Proof.
  intros r.
  assert (H : r = (r.1, Ok (returned r))) by vm_cast_no_check (eq_refl r).
  split; [exact H|]. intros rec Hrec.
  exact (proj1 (proj2 (proj2 (scores_within_scale 100 example_batch r.1
                                "fastest_wins" None (returned r) rec H Hrec)))
           eq_refl).
Defined.
